(** * ConnectZ: the [GameBoard] engine of [src/ConnectZ.py]

    A shallow embedding of the board model and of the alpha-beta search of
    the ConnectZ game (five in a row on a 10 x 10 grid with block and remove
    moves), together with the properties of the engine that are stated in
    the specification.

    Conventions of the embedding:
    - Python integers are [Z]; the grid is a [list (list Cell)], one inner
      list per row, as the two-dimensional array [self.board] is indexed;
    - a method that mutates [self] is a function from the state before the
      call to the returned value paired with the state after it;
    - an indexing expression [self.board[x][y]] that is not protected by a
      bounds test is modelled by [getitem] / [setitem], which raise
      [IndexError] out of range and wrap negative indices as Python does;
      an access made under a bounds test ([0 <= x < self.size and ...], or
      inside [for x in range(self.size)]) is modelled by [cell_at] /
      [set_cell]; both views agree on a board of [size] rows of [size]
      cells ([board_wf], lemmas [getitem_cell_at] and [setitem_set_cell]);
    - the values handled by the search are integers and the two floats
      [float('-inf')] and [float('inf')]: the type [ext]. *)

From Stdlib Require Import ZArith String List Bool Lia.
From stdpp Require Import base list.

Open Scope Z_scope.

(** ** Data model *)

(** The four characters a grid cell can hold: [' '], ['X'], ['O'], ['B']. *)
Inductive Cell := Empty | PlayerX | PlayerO | Blocked.

(** [self.turn]: ['X'] is the human, ['O'] the engine. *)
Inductive Player := TurnX | TurnO.

(** The first component of a move tuple: ['place'], ['block'], ['remove']. *)
Inductive Action := Place | Block | Remove.

Definition Move : Type := Action * Z * Z.

Global Instance Cell_eq_dec : EqDecision Cell.
Proof. solve_decision. Defined.

Global Instance Player_eq_dec : EqDecision Player.
Proof. solve_decision. Defined.

Global Instance Action_eq_dec : EqDecision Action.
Proof. solve_decision. Defined.

Definition piece (p : Player) : Cell :=
  match p with TurnX => PlayerX | TurnO => PlayerO end.

(** ['O' if self.turn == 'X' else 'X'] *)
Definition other (p : Player) : Player :=
  match p with TurnX => TurnO | TurnO => TurnX end.

Record GameBoard := mkGameBoard {
  size : Z;
  target : Z;
  board : list (list Cell);
  turn : Player;
  last_move : option (Z * Z);
  game_over : bool;
  user_blocks_remaining : Z;
  ai_blocks_remaining : Z;
  user_power_moves_remaining : Z;
  ai_power_moves_remaining : Z;
  winning_sequence : list (Z * Z);
  last_removed_tile : option (Z * Z);
  turn_count : Z
}.

(** Attribute assignments [self.f = v]. *)
Definition set_board (v : list (list Cell)) (s : GameBoard) : GameBoard :=
  mkGameBoard (size s) (target s) v (turn s) (last_move s) (game_over s)
    (user_blocks_remaining s) (ai_blocks_remaining s)
    (user_power_moves_remaining s) (ai_power_moves_remaining s)
    (winning_sequence s) (last_removed_tile s) (turn_count s).

Definition set_turn (v : Player) (s : GameBoard) : GameBoard :=
  mkGameBoard (size s) (target s) (board s) v (last_move s) (game_over s)
    (user_blocks_remaining s) (ai_blocks_remaining s)
    (user_power_moves_remaining s) (ai_power_moves_remaining s)
    (winning_sequence s) (last_removed_tile s) (turn_count s).

Definition set_last_move (v : option (Z * Z)) (s : GameBoard) : GameBoard :=
  mkGameBoard (size s) (target s) (board s) (turn s) v (game_over s)
    (user_blocks_remaining s) (ai_blocks_remaining s)
    (user_power_moves_remaining s) (ai_power_moves_remaining s)
    (winning_sequence s) (last_removed_tile s) (turn_count s).

Definition set_game_over (v : bool) (s : GameBoard) : GameBoard :=
  mkGameBoard (size s) (target s) (board s) (turn s) (last_move s) v
    (user_blocks_remaining s) (ai_blocks_remaining s)
    (user_power_moves_remaining s) (ai_power_moves_remaining s)
    (winning_sequence s) (last_removed_tile s) (turn_count s).

Definition set_user_blocks_remaining (v : Z) (s : GameBoard) : GameBoard :=
  mkGameBoard (size s) (target s) (board s) (turn s) (last_move s)
    (game_over s) v (ai_blocks_remaining s)
    (user_power_moves_remaining s) (ai_power_moves_remaining s)
    (winning_sequence s) (last_removed_tile s) (turn_count s).

Definition set_ai_blocks_remaining (v : Z) (s : GameBoard) : GameBoard :=
  mkGameBoard (size s) (target s) (board s) (turn s) (last_move s)
    (game_over s) (user_blocks_remaining s) v
    (user_power_moves_remaining s) (ai_power_moves_remaining s)
    (winning_sequence s) (last_removed_tile s) (turn_count s).

Definition set_user_power_moves_remaining (v : Z) (s : GameBoard)
  : GameBoard :=
  mkGameBoard (size s) (target s) (board s) (turn s) (last_move s)
    (game_over s) (user_blocks_remaining s) (ai_blocks_remaining s)
    v (ai_power_moves_remaining s)
    (winning_sequence s) (last_removed_tile s) (turn_count s).

Definition set_ai_power_moves_remaining (v : Z) (s : GameBoard)
  : GameBoard :=
  mkGameBoard (size s) (target s) (board s) (turn s) (last_move s)
    (game_over s) (user_blocks_remaining s) (ai_blocks_remaining s)
    (user_power_moves_remaining s) v
    (winning_sequence s) (last_removed_tile s) (turn_count s).

Definition set_winning_sequence (v : list (Z * Z)) (s : GameBoard)
  : GameBoard :=
  mkGameBoard (size s) (target s) (board s) (turn s) (last_move s)
    (game_over s) (user_blocks_remaining s) (ai_blocks_remaining s)
    (user_power_moves_remaining s) (ai_power_moves_remaining s)
    v (last_removed_tile s) (turn_count s).

Definition set_last_removed_tile (v : option (Z * Z)) (s : GameBoard)
  : GameBoard :=
  mkGameBoard (size s) (target s) (board s) (turn s) (last_move s)
    (game_over s) (user_blocks_remaining s) (ai_blocks_remaining s)
    (user_power_moves_remaining s) (ai_power_moves_remaining s)
    (winning_sequence s) v (turn_count s).

Definition set_turn_count (v : Z) (s : GameBoard) : GameBoard :=
  mkGameBoard (size s) (target s) (board s) (turn s) (last_move s)
    (game_over s) (user_blocks_remaining s) (ai_blocks_remaining s)
    (user_power_moves_remaining s) (ai_power_moves_remaining s)
    (winning_sequence s) (last_removed_tile s) v.

(** [GameBoard.__init__]: [np.full((size, size), ' ')] and the initial
    counters. *)
Definition init (sz tg : Z) : GameBoard :=
  mkGameBoard sz tg
    (replicate (Z.to_nat sz) (replicate (Z.to_nat sz) Empty))
    TurnX None false 1 1 3 3 [] None 0.

(** The board has [size] rows of [size] cells: established by [__init__]
    and kept by every method, none of which resizes the array. *)
Definition board_wf (s : GameBoard) : Prop :=
  Z.of_nat (length (board s)) = size s ∧
  Forall (λ row, Z.of_nat (length row) = size s) (board s).

(** ** Exceptions *)

Inductive exn := IndexError.

Inductive result (A : Type) : Type :=
  | Ok (a : A)
  | Raise (e : exn).
Arguments Ok {A} a.
Arguments Raise {A} e.

Global Instance result_ret : MRet result := λ A a, Ok a.

Global Instance result_bind : MBind result := λ A B f m,
  match m with Ok a => f a | Raise e => Raise e end.

(** ** Indexing the grid *)

(** A Python index into a sequence of length [len]: negative indices count
    from the end, anything else out of range raises. *)
Definition py_index (len i : Z) : result nat :=
  if bool_decide (0 ≤ i < len) then Ok (Z.to_nat i)
  else if bool_decide (- len ≤ i < 0) then Ok (Z.to_nat (len + i))
  else Raise IndexError.

(** [self.board[x][y]] as an expression. *)
Definition getitem (b : list (list Cell)) (x y : Z) : result Cell :=
  i ← py_index (Z.of_nat (length b)) x;
  match b !! i with
  | None => Raise IndexError
  | Some row =>
      j ← py_index (Z.of_nat (length row)) y;
      match row !! j with
      | None => Raise IndexError
      | Some c => Ok c
      end
  end.

(** [self.board[x][y] = v]. *)
Definition setitem (b : list (list Cell)) (x y : Z) (v : Cell)
  : result (list (list Cell)) :=
  i ← py_index (Z.of_nat (length b)) x;
  match b !! i with
  | None => Raise IndexError
  | Some row =>
      j ← py_index (Z.of_nat (length row)) y;
      Ok (<[i := <[j := v]> row]> b)
  end.

(** [0 <= x < self.size and 0 <= y < self.size] *)
Definition in_bounds (s : GameBoard) (x y : Z) : bool :=
  bool_decide (0 ≤ x < size s) && bool_decide (0 ≤ y < size s).

(** The cell read at coordinates already known to be in bounds. *)
Definition cell_at (b : list (list Cell)) (x y : Z) : Cell :=
  match b !! Z.to_nat x with
  | Some row => match row !! Z.to_nat y with Some c => c | None => Empty end
  | None => Empty
  end.

(** The cell written at coordinates already known to be in bounds. *)
Definition set_cell (b : list (list Cell)) (x y : Z) (v : Cell)
  : list (list Cell) :=
  match b !! Z.to_nat x with
  | Some row => <[Z.to_nat x := <[Z.to_nat y := v]> row]> b
  | None => b
  end.

(** [range(n)] *)
Definition range (n : Z) : list Z := seqZ 0 n.

(** ** Validity predicates *)

Definition is_valid_move (s : GameBoard) (x y : Z) : bool :=
  in_bounds s x y && bool_decide (cell_at (board s) x y = Empty).

Definition is_valid_block (s : GameBoard) (x y : Z) : bool :=
  is_valid_move s x y.

Definition is_valid_remove (s : GameBoard) (x y : Z) : bool :=
  let opponent := piece (other (turn s)) in
  in_bounds s x y && bool_decide (cell_at (board s) x y = opponent).

(** ** Win detection *)

Definition directions : list (Z * Z) := [(0, 1); (1, 0); (1, 1); (-1, 1)].

(** The loop
    [while in bounds (nx, ny) and self.board[nx][ny] == player:
       count += 1; sequence.append((nx, ny)); nx += dx; ny += dy]
    on the loop variables [(count, sequence, nx, ny)].  Each iteration moves
    one cell along a non-zero direction, so the loop leaves the grid after
    at most [size] iterations: [fuel] is [size] wherever [walk] is used
    (lemma [walk_exits]). *)
Fixpoint walk (fuel : nat) (s : GameBoard) (player : Cell) (dx dy : Z)
    (count : Z) (sequence : list (Z * Z)) (nx ny : Z)
  : Z * list (Z * Z) * Z * Z :=
  match fuel with
  | O => (count, sequence, nx, ny)
  | S fuel' =>
      if in_bounds s nx ny && bool_decide (cell_at (board s) nx ny = player)
      then walk fuel' s player dx dy (count + 1) (sequence ++ [(nx, ny)])
             (nx + dx) (ny + dy)
      else (count, sequence, nx, ny)
  end.

Definition loop_fuel (s : GameBoard) : nat := Z.to_nat (size s).

(** The body of [for dx, dy in directions] in [check_win] up to the test
    [count >= self.target]: the count and the sequence through [(x, y)]. *)
Definition line (s : GameBoard) (player : Cell) (x y dx dy : Z)
  : Z * list (Z * Z) :=
  let '(count, sequence, _, _) :=
    walk (loop_fuel s) s player dx dy 1 [(x, y)] (x + dx) (y + dy) in
  let '(count, sequence, _, _) :=
    walk (loop_fuel s) s player (- dx) (- dy) count sequence
      (x - dx) (y - dy) in
  (count, sequence).

Fixpoint check_win_dirs (dirs : list (Z * Z)) (s : GameBoard)
    (player : Cell) (x y : Z) (update_winning_sequence : bool)
  : bool * GameBoard :=
  match dirs with
  | [] => (false, s)
  | (dx, dy) :: dirs' =>
      let '(count, sequence) := line s player x y dx dy in
      if bool_decide (target s ≤ count)
      then (true,
            if update_winning_sequence
            then set_winning_sequence sequence s else s)
      else check_win_dirs dirs' s player x y update_winning_sequence
  end.

Definition check_win (x y : Z) (update_winning_sequence : bool)
    (s : GameBoard) : result (bool * GameBoard) :=
  c ← getitem (board s) x y;
  if bool_decide (c = Blocked) || bool_decide (c = Empty)
  then Ok (false, s)
  else Ok (check_win_dirs directions s c x y update_winning_sequence).

(** ** Mutations *)

(** [place_piece]: the returned value is [Some (move_successful, win)], or
    [None] where the Python function falls off its end (a [move_type] that
    is neither ['normal'] nor ['block']). *)
Definition place_piece (x y : Z) (switch_turn : bool) (move_type : string)
    (s : GameBoard) : result (option (bool * bool) * GameBoard) :=
  if game_over s then Ok (Some (false, false), s)
  else if String.eqb move_type "normal" then
    if is_valid_move s x y then
      let s := set_board (set_cell (board s) x y (piece (turn s))) s in
      let s := set_last_move (Some (x, y)) s in
      match check_win x y true s with
      | Raise e => Raise e
      | Ok (win, s) =>
          let s :=
            if win then set_game_over true s
            else if switch_turn then set_turn (other (turn s)) s
            else s in
          let s := set_turn_count (turn_count s + 1) s in
          Ok (Some (true, win), s)
      end
    else Ok (Some (false, false), s)
  else if String.eqb move_type "block" then
    if is_valid_block s x y then
      let s := set_board (set_cell (board s) x y Blocked) s in
      let s := set_last_move (Some (x, y)) s in
      let s :=
        match turn s with
        | TurnX => set_user_blocks_remaining (user_blocks_remaining s - 1) s
        | TurnO => set_ai_blocks_remaining (ai_blocks_remaining s - 1) s
        end in
      Ok (Some (true, true), s)
    else Ok (Some (false, false), s)
  else Ok (None, s).

Definition block_tile (x y : Z) (s : GameBoard)
  : result (option (bool * bool) * GameBoard) :=
  place_piece x y true "block" s.

Definition remove_tile (x y : Z) (switch_turn : bool) (s : GameBoard)
  : bool * GameBoard :=
  if is_valid_remove s x y then
    let s := set_board (set_cell (board s) x y Empty) s in
    let s :=
      match turn s with
      | TurnX => set_user_power_moves_remaining
               (user_power_moves_remaining s - 1) s
      | TurnO => set_ai_power_moves_remaining (ai_power_moves_remaining s - 1) s
      end in
    let s := set_last_removed_tile (Some (x, y)) s in
    let s := if switch_turn then set_turn (other (turn s)) s else s in
    let s := set_turn_count (turn_count s + 1) s in
    (true, s)
  else (false, s).

(** ** Terminal test and evaluation *)

(** [any(self.board[x][y] == ' ' for x in range(size) for y in range(size))] *)
Definition any_empty (s : GameBoard) : bool :=
  existsb (λ x,
    existsb (λ y, bool_decide (cell_at (board s) x y = Empty))
      (range (size s)))
    (range (size s)).

Definition is_terminal (s : GameBoard) : result (bool * GameBoard) :=
  match last_move s with
  | Some (lx, ly) =>
      match check_win lx ly false s with
      | Raise e => Raise e
      | Ok (true, s) => Ok (true, s)
      | Ok (false, s) => Ok (negb (any_empty s), s)
      end
  | None => Ok (negb (any_empty s), s)
  end.

(** One iteration of [for dx, dy in directions] in [evaluate_position]:
    the amount added to [score].  The two [while] loops are those of
    [check_win] without the sequence. *)
Definition direction_score (s : GameBoard) (player : Cell) (x y dx dy : Z)
  : Z :=
  let open_ends := 0 in
  let '(count, _, nx, ny) :=
    walk (loop_fuel s) s player dx dy 1 [] (x + dx) (y + dy) in
  let open_ends :=
    if in_bounds s nx ny && bool_decide (cell_at (board s) nx ny = Empty)
    then open_ends + 1 else open_ends in
  let '(count, _, nx, ny) :=
    walk (loop_fuel s) s player (- dx) (- dy) count [] (x - dx) (y - dy) in
  let open_ends :=
    if in_bounds s nx ny && bool_decide (cell_at (board s) nx ny = Empty)
    then open_ends + 1 else open_ends in
  if bool_decide (target s ≤ count) then 1000
  else if bool_decide (count = target s - 1) && bool_decide (0 < open_ends)
  then 100
  else if bool_decide (count = target s - 2) && bool_decide (1 < open_ends)
  then 10
  else if bool_decide (count = target s - 3) && bool_decide (1 < open_ends)
  then 5
  else 0.

Definition evaluate_position (s : GameBoard) (x y : Z) (player : Cell) : Z :=
  fold_left (λ score '(dx, dy), score + direction_score s player x y dx dy)
    directions 0.

(** The two nested [for] loops of [heuristic_evaluation] that accumulate
    [player_score]. *)
Definition player_score (s : GameBoard) (player : Cell) : Z :=
  fold_left (λ acc x,
    fold_left (λ acc y,
      if bool_decide (cell_at (board s) x y = player)
      then acc + evaluate_position s x y player else acc)
      (range (size s)) acc)
    (range (size s)) 0.

Definition heuristic_evaluation (s : GameBoard) : Z :=
  fold_left (λ score player,
    if bool_decide (player = PlayerO)
    then score + player_score s player
         - (3 - ai_power_moves_remaining s) * 50
    else score - player_score s player
         + (3 - user_power_moves_remaining s) * 50)
    [PlayerO; PlayerX] 0.

Definition evaluate (s : GameBoard) : result (Z * GameBoard) :=
  match last_move s with
  | Some (lx, ly) =>
      match getitem (board s) lx ly with
      | Raise e => Raise e
      | Ok player =>
          match (if bool_decide (player = PlayerO)
                 then check_win lx ly false s else Ok (false, s)) with
          | Raise e => Raise e
          | Ok (true, s) => Ok (10000, s)
          | Ok (false, s) =>
              match (if bool_decide (player = PlayerX)
                     then check_win lx ly false s else Ok (false, s)) with
              | Raise e => Raise e
              | Ok (true, s) => Ok (-10000, s)
              | Ok (false, s) => Ok (heuristic_evaluation s, s)
              end
          end
      end
  | None => Ok (heuristic_evaluation s, s)
  end.

(** ** Search values *)

(** An integer score, [float('-inf')] or [float('inf')]. *)
Inductive ext := NegInf | Fin (z : Z) | PosInf.

Global Instance ext_eq_dec : EqDecision ext.
Proof. solve_decision. Defined.

(** [a < b] *)
Definition ext_lt (a b : ext) : bool :=
  match a, b with
  | NegInf, NegInf => false
  | NegInf, _ => true
  | Fin x, Fin y => bool_decide (x < y)
  | Fin _, PosInf => true
  | _, _ => false
  end.

(** [a <= b] *)
Definition ext_le (a b : ext) : bool := negb (ext_lt b a).

(** [max(a, b)] and [min(a, b)]: the first argument unless the second is
    strictly better. *)
Definition py_max (a b : ext) : ext := if ext_lt a b then b else a.
Definition py_min (a b : ext) : ext := if ext_lt b a then b else a.

(** The recursive call as seen from one node:
    [self.minimax(depth - 1, alpha, beta, maximizing_player)] with
    [depth - 1] fixed. *)
Definition search : Type :=
  ext → ext → bool → GameBoard → result (ext * GameBoard).

(** ** One trial move of the search *)

(** [self.last_removed_tile and (x, y) == self.last_removed_tile] *)
Definition is_last_removed (s : GameBoard) (x y : Z) : bool :=
  match last_removed_tile s with
  | Some t => bool_decide ((x, y) = t)
  | None => false
  end.

(** The body of [for move in moves] in the maximizing branch of [minimax],
    up to the statement [self.last_move = None] (excluded).  [None] is
    [continue]; [Some eval] carries the value of the local [eval].  The
    same statements, with the window [(-inf, inf)], make the body of the
    loop of [ai_move_decision]. *)
Definition max_trial (rec : search) (alpha beta : ext) (move : Move)
    (s : GameBoard) : result (option ext * GameBoard) :=
  let '(action, x, y) := move in
  if is_last_removed s x y then Ok (None, s)
  else if bool_decide (action = Remove) && bool_decide (turn_count s < 10)
  then Ok (None, s)
  else
    match action with
    | Place =>
        b ← setitem (board s) x y PlayerO;
        let s := set_board b s in
        let s := set_last_move (Some (x, y)) s in
        let s := set_turn_count (turn_count s + 1) s in
        match rec alpha beta false s with
        | Raise e => Raise e
        | Ok (eval, s) =>
            b ← setitem (board s) x y Empty;
            let s := set_board b s in
            let s := set_turn_count (turn_count s - 1) s in
            Ok (Some eval, s)
        end
    | Block =>
        if bool_decide (ai_blocks_remaining s ≤ 0) then Ok (None, s)
        else
          b ← setitem (board s) x y Blocked;
          let s := set_board b s in
          let s := set_ai_blocks_remaining (ai_blocks_remaining s - 1) s in
          match rec alpha beta false s with
          | Raise e => Raise e
          | Ok (eval, s) =>
              b ← setitem (board s) x y Empty;
              let s := set_board b s in
              let s :=
                set_ai_blocks_remaining (ai_blocks_remaining s + 1) s in
              Ok (Some eval, s)
          end
    | Remove =>
        if bool_decide (ai_power_moves_remaining s ≤ 0) then Ok (None, s)
        else
          removed_piece ← getitem (board s) x y;
          b ← setitem (board s) x y Empty;
          let s := set_board b s in
          let s := set_ai_power_moves_remaining
                     (ai_power_moves_remaining s - 1) s in
          let s := set_turn_count (turn_count s + 1) s in
          match rec alpha beta false s with
          | Raise e => Raise e
          | Ok (eval, s) =>
              b ← setitem (board s) x y removed_piece;
              let s := set_board b s in
              let s := set_ai_power_moves_remaining
                         (ai_power_moves_remaining s + 1) s in
              let s := set_turn_count (turn_count s - 1) s in
              Ok (Some eval, s)
          end
    end.

(** The same for the minimizing branch, which has no [continue] before the
    dispatch on [action]. *)
Definition min_trial (rec : search) (alpha beta : ext) (move : Move)
    (s : GameBoard) : result (option ext * GameBoard) :=
  let '(action, x, y) := move in
  match action with
  | Place =>
      b ← setitem (board s) x y PlayerX;
      let s := set_board b s in
      let s := set_last_move (Some (x, y)) s in
      let s := set_turn_count (turn_count s + 1) s in
      match rec alpha beta true s with
      | Raise e => Raise e
      | Ok (eval, s) =>
          b ← setitem (board s) x y Empty;
          let s := set_board b s in
          let s := set_turn_count (turn_count s - 1) s in
          Ok (Some eval, s)
      end
  | Block =>
      if bool_decide (user_blocks_remaining s ≤ 0) then Ok (None, s)
      else
        b ← setitem (board s) x y Blocked;
        let s := set_board b s in
        let s := set_user_blocks_remaining (user_blocks_remaining s - 1) s in
        match rec alpha beta true s with
        | Raise e => Raise e
        | Ok (eval, s) =>
            b ← setitem (board s) x y Empty;
            let s := set_board b s in
            let s :=
              set_user_blocks_remaining (user_blocks_remaining s + 1) s in
            Ok (Some eval, s)
        end
  | Remove =>
      if bool_decide (user_power_moves_remaining s ≤ 0) then Ok (None, s)
      else
        removed_piece ← getitem (board s) x y;
        b ← setitem (board s) x y Empty;
        let s := set_board b s in
        let s := set_user_power_moves_remaining
                   (user_power_moves_remaining s - 1) s in
        let s := set_turn_count (turn_count s + 1) s in
        match rec alpha beta true s with
        | Raise e => Raise e
        | Ok (eval, s) =>
            b ← setitem (board s) x y removed_piece;
            let s := set_board b s in
            let s := set_user_power_moves_remaining
                       (user_power_moves_remaining s + 1) s in
            let s := set_turn_count (turn_count s - 1) s in
            Ok (Some eval, s)
        end
  end.

(** [for move in moves] of the maximizing branch, on the loop variables
    [max_eval], [alpha] and the board. *)
Fixpoint max_loop (rec : search) (moves : list Move)
    (max_eval alpha beta : ext) (s : GameBoard)
  : result (ext * GameBoard) :=
  match moves with
  | [] => Ok (max_eval, s)
  | move :: moves' =>
      match max_trial rec alpha beta move s with
      | Raise e => Raise e
      | Ok (None, s) => max_loop rec moves' max_eval alpha beta s
      | Ok (Some eval, s) =>
          let s := set_last_move None s in
          let max_eval := py_max max_eval eval in
          let alpha := py_max alpha eval in
          if ext_le beta alpha then Ok (max_eval, s)
          else max_loop rec moves' max_eval alpha beta s
      end
  end.

Fixpoint min_loop (rec : search) (moves : list Move)
    (min_eval alpha beta : ext) (s : GameBoard)
  : result (ext * GameBoard) :=
  match moves with
  | [] => Ok (min_eval, s)
  | move :: moves' =>
      match min_trial rec alpha beta move s with
      | Raise e => Raise e
      | Ok (None, s) => min_loop rec moves' min_eval alpha beta s
      | Ok (Some eval, s) =>
          let s := set_last_move None s in
          let min_eval := py_min min_eval eval in
          let beta := py_min beta eval in
          if ext_le beta alpha then Ok (min_eval, s)
          else min_loop rec moves' min_eval alpha beta s
      end
  end.

(** ** Move enumeration and the search *)

(** The moves appended by
    [for x in range(size): for y in range(size):
       if self.board[x][y] == c: move_list.append((action, x, y))]. *)
Definition cells_holding (s : GameBoard) (c : Cell) (action : Action)
  : list Move :=
  flat_map (λ x,
    flat_map (λ y,
      if bool_decide (cell_at (board s) x y = c)
      then [(action, x, y)] else [])
      (range (size s)))
    (range (size s)).

(** The elements added to the set [moves] by the first loop of
    [get_valid_moves], in the order of the calls to [moves.add]. *)
Definition place_candidates (s : GameBoard) : list Move :=
  flat_map (λ x,
    flat_map (λ y,
      if bool_decide (cell_at (board s) x y ≠ Empty) &&
         bool_decide (cell_at (board s) x y ≠ Blocked)
      then
        flat_map (λ dx,
          flat_map (λ dy,
            let nx := x + dx in
            let ny := y + dy in
            if in_bounds s nx ny &&
               bool_decide (cell_at (board s) nx ny = Empty)
            then [(Place, nx, ny)] else [])
            [-1; 0; 1])
          [-1; 0; 1]
      else [])
      (range (size s)))
    (range (size s)).

Section Search.

(** [list(moves)] for a set [moves]: its elements, once each, in the
    iteration order of the set, which Python does not specify. *)
Variable list_of_set : list Move → list Move.

Definition get_valid_moves (include_blocks include_removes : bool)
    (s : GameBoard) : list Move :=
  let moves := place_candidates s in
  let moves :=
    match moves with
    | [] => let center := Z.div (size s) 2 in [(Place, center, center)]
    | _ => moves
    end in
  let move_list := list_of_set moves in
  let move_list :=
    if include_blocks then
      if bool_decide (turn s = TurnX) &&
         bool_decide (0 < user_blocks_remaining s)
      then move_list ++ cells_holding s Empty Block
      else if bool_decide (turn s = TurnO) &&
              bool_decide (0 < ai_blocks_remaining s)
      then move_list ++ cells_holding s Empty Block
      else move_list
    else move_list in
  let move_list :=
    if include_removes then
      let opponent := piece (other (turn s)) in
      if bool_decide (turn s = TurnX) &&
         bool_decide (0 < user_power_moves_remaining s)
      then move_list ++ cells_holding s opponent Remove
      else if bool_decide (turn s = TurnO) &&
              bool_decide (0 < ai_power_moves_remaining s)
      then move_list ++ cells_holding s opponent Remove
      else move_list
    else move_list in
  move_list.

(** [minimax] below its first [if]: the node explores its moves through
    [rec], the search one level down. *)
Definition minimax_node (rec : search) (alpha beta : ext)
    (maximizing_player : bool) (s : GameBoard)
  : result (ext * GameBoard) :=
  let original_ai_power_moves := ai_power_moves_remaining s in
  let original_user_power_moves := user_power_moves_remaining s in
  if maximizing_player then
    let moves := get_valid_moves true true s in
    match max_loop rec moves NegInf alpha beta s with
    | Raise e => Raise e
    | Ok (max_eval, s) =>
        let s := set_ai_power_moves_remaining original_ai_power_moves s in
        let s :=
          set_user_power_moves_remaining original_user_power_moves s in
        Ok (max_eval, s)
    end
  else
    let moves := get_valid_moves true true s in
    match min_loop rec moves PosInf alpha beta s with
    | Raise e => Raise e
    | Ok (min_eval, s) =>
        let s := set_ai_power_moves_remaining original_ai_power_moves s in
        let s :=
          set_user_power_moves_remaining original_user_power_moves s in
        Ok (min_eval, s)
    end.

(** [return self.evaluate()] *)
Definition evaluate_node (s : GameBoard) : result (ext * GameBoard) :=
  match evaluate s with
  | Raise e => Raise e
  | Ok (v, s) => Ok (Fin v, s)
  end.

(** [minimax(depth, alpha, beta, maximizing_player)] for a search depth
    [depth >= 0], by recursion on [depth]. *)
Fixpoint minimax (depth : nat) (alpha beta : ext)
    (maximizing_player : bool) (s : GameBoard) {struct depth}
  : result (ext * GameBoard) :=
  match depth with
  | 0%nat => evaluate_node s
  | S depth' =>
      match is_terminal s with
      | Raise e => Raise e
      | Ok (true, s) => evaluate_node s
      | Ok (false, s) =>
          minimax_node (minimax depth') alpha beta maximizing_player s
      end
  end.

(** [for move in moves] of [ai_move_decision], on the loop variables
    [best_score], [best_move] and the board. *)
Fixpoint decision_loop (rec : search) (moves : list Move)
    (best_score : ext) (best_move : option Move) (s : GameBoard)
  : result (option Move * GameBoard) :=
  match moves with
  | [] => Ok (best_move, s)
  | move :: moves' =>
      match max_trial rec NegInf PosInf move s with
      | Raise e => Raise e
      | Ok (None, s) => decision_loop rec moves' best_score best_move s
      | Ok (Some score, s) =>
          let s := set_last_move None s in
          if ext_lt best_score score
          then decision_loop rec moves' score (Some move) s
          else decision_loop rec moves' best_score best_move s
      end
  end.

(** [ai_move_decision(depth)] for [depth >= 1] (the difficulty levels give
    2, 3 and 4): [depth_minus_1] is the depth [depth - 1] passed on to
    [minimax]. *)
Definition ai_move_decision (depth_minus_1 : nat) (s : GameBoard)
  : result (option Move * GameBoard) :=
  let moves := get_valid_moves true true s in
  decision_loop (minimax depth_minus_1) moves NegInf None s.

End Search.


(** * Vocabulary of the properties *)

(** The condition of the [while] loops. *)
Definition walk_cond (s : GameBoard) (player : Cell) (nx ny : Z) : bool :=
  in_bounds s nx ny && bool_decide (cell_at (board s) nx ny = player).

(** The cells at offsets [-a .. b] from [(x, y)] along [(dx, dy)] are on
    the grid and all hold [p]. *)
Definition run_through (s : GameBoard) (p : Cell) (x y dx dy a b : Z)
  : Prop :=
  0 ≤ a ∧ 0 ≤ b ∧
  ∀ k, - a ≤ k ≤ b →
       in_bounds s (x + k * dx) (y + k * dy) = true ∧
       cell_at (board s) (x + k * dx) (y + k * dy) = p.

(** Each of the four counters is unchanged, or exactly one of them went
    down by one. *)
Definition counters_step (s s' : GameBoard) : Prop :=
  (user_blocks_remaining s' = user_blocks_remaining s ∧
   ai_blocks_remaining s' = ai_blocks_remaining s ∧
   user_power_moves_remaining s' = user_power_moves_remaining s ∧
   ai_power_moves_remaining s' = ai_power_moves_remaining s) ∨
  (user_blocks_remaining s' = user_blocks_remaining s - 1 ∧
   ai_blocks_remaining s' = ai_blocks_remaining s ∧
   user_power_moves_remaining s' = user_power_moves_remaining s ∧
   ai_power_moves_remaining s' = ai_power_moves_remaining s) ∨
  (user_blocks_remaining s' = user_blocks_remaining s ∧
   ai_blocks_remaining s' = ai_blocks_remaining s - 1 ∧
   user_power_moves_remaining s' = user_power_moves_remaining s ∧
   ai_power_moves_remaining s' = ai_power_moves_remaining s) ∨
  (user_blocks_remaining s' = user_blocks_remaining s ∧
   ai_blocks_remaining s' = ai_blocks_remaining s ∧
   user_power_moves_remaining s' = user_power_moves_remaining s - 1 ∧
   ai_power_moves_remaining s' = ai_power_moves_remaining s) ∨
  (user_blocks_remaining s' = user_blocks_remaining s ∧
   ai_blocks_remaining s' = ai_blocks_remaining s ∧
   user_power_moves_remaining s' = user_power_moves_remaining s ∧
   ai_power_moves_remaining s' = ai_power_moves_remaining s - 1).

(** All the cells of the grid, row by row. *)
Definition grid_cells (s : GameBoard) : list (Z * Z) :=
  flat_map (λ x, map (λ y, (x, y)) (range (size s))) (range (size s)).

(** The sum of [evaluate_position] over those of the [cells] that hold
    [p]. *)
Fixpoint position_sum (s : GameBoard) (p : Cell) (cells : list (Z * Z))
  : Z :=
  match cells with
  | [] => 0
  | (x, y) :: cells' =>
      (if bool_decide (cell_at (board s) x y = p)
       then evaluate_position s x y p else 0)
      + position_sum s p cells'
  end.

(** The search [rec] hands the object back as it received it, except for
    [last_move], which it may have changed. *)
Definition restores (rec : search) : Prop :=
  ∀ alpha beta maximizing t v t',
    rec alpha beta maximizing t = Ok (v, t') →
    set_last_move None t' = set_last_move None t.

(** The grid of [s] with the cell [(x, y)] holding [c]. *)
Definition with_cell (x y : Z) (c : Cell) (s : GameBoard) : GameBoard :=
  set_board (set_cell (board s) x y c) s.

(** The values a trial of [action] may write into the cell it targets:
    a piece for a Place, ['B'] for a Block, [' '] for a Remove. *)
Definition written (action : Action) (v : Cell) : Prop :=
  match action with
  | Place => v = PlayerO ∨ v = PlayerX
  | Block => v = Blocked
  | Remove => v = Empty
  end.

(** [t] is a board of the size of [s] whose grid is the grid of [s] with
    the cell [(x, y)] written by a trial of [action]. *)
Definition one_write (action : Action) (x y : Z) (s t : GameBoard) : Prop :=
  size t = size s ∧
  ∃ v, written action v ∧ setitem (board s) x y v = Ok (board t).

(** The centre that [get_valid_moves] takes when its first loop finds no
    candidate is an Empty cell. *)
Definition fallback_ok (s : GameBoard) : bool :=
  match place_candidates s with
  | [] =>
      match getitem (board s) (Z.div (size s) 2) (Z.div (size s) 2) with
      | Ok Empty => true
      | _ => false
      end
  | _ => true
  end.

(** [minimax] with one statement more, a guard placed where
    [get_valid_moves] is called: a run that reaches a node at which the
    centre would be taken for want of a candidate while it is not Empty is
    cut short there by an exception, which every caller passes on.  So
    [minimax_checked] returns [Ok r] exactly when [minimax] returns [Ok r]
    and no node that the run visits takes the centre fallback on a
    non-Empty centre; the nodes visited are those of the run itself, with
    its windows, its cut-offs and its terminal tests. *)
Fixpoint minimax_checked (list_of_set : list Move → list Move)
    (depth : nat) (alpha beta : ext) (maximizing_player : bool)
    (s : GameBoard) {struct depth} : result (ext * GameBoard) :=
  match depth with
  | 0%nat => evaluate_node s
  | S depth' =>
      match is_terminal s with
      | Raise e => Raise e
      | Ok (true, s) => evaluate_node s
      | Ok (false, s) =>
          if fallback_ok s
          then minimax_node list_of_set
                 (minimax_checked list_of_set depth') alpha beta
                 maximizing_player s
          else Raise IndexError
      end
  end.

(** [ai_move_decision] with the same guard, at the root and in the search
    below it. *)
Definition ai_move_decision_checked (list_of_set : list Move → list Move)
    (depth_minus_1 : nat) (s : GameBoard)
  : result (option Move * GameBoard) :=
  if fallback_ok s
  then decision_loop (minimax_checked list_of_set depth_minus_1)
         (get_valid_moves list_of_set true true s) NegInf None s
  else Raise IndexError.

(** The tests under which the loop of the maximizing branch passes over a
    candidate without trying it: the [last_removed_tile] filter, the
    early-remove filter, and the two exhausted-counter checks. *)
Definition max_skips (s : GameBoard) (move : Move) : bool :=
  let '(action, x, y) := move in
  is_last_removed s x y
  || bool_decide (action = Remove) && bool_decide (turn_count s < 10)
  || bool_decide (action = Block) && bool_decide (ai_blocks_remaining s ≤ 0)
  || bool_decide (action = Remove)
     && bool_decide (ai_power_moves_remaining s ≤ 0).

(** [power_moves_remaining] of the player to move. *)
Definition mover_power_moves_remaining (s : GameBoard) : Z :=
  match turn s with
  | TurnX => user_power_moves_remaining s
  | TurnO => ai_power_moves_remaining s
  end.

(** * Tactical shortcuts and the engine's turn *)

(** The two nested loops
    [for x in range(size): for y in range(size): if self.board[x][y] == ' ':]
    of [find_winning_move] and [find_blocking_move], run over the cells in
    the order of the loops: the piece of [player] is written on each Empty
    cell in turn, [check_win] is asked, and the cell is emptied again; the
    first cell for which the answer is [True] is returned. *)
Fixpoint find_completing_cell (player : Cell) (cells : list (Z * Z))
    (s : GameBoard) : result (option (Z * Z) * GameBoard) :=
  match cells with
  | [] => Ok (None, s)
  | (x, y) :: cells' =>
      if bool_decide (cell_at (board s) x y = Empty) then
        let s := set_board (set_cell (board s) x y player) s in
        match check_win x y false s with
        | Raise e => Raise e
        | Ok (true, s) =>
            let s := set_board (set_cell (board s) x y Empty) s in
            Ok (Some (x, y), s)
        | Ok (false, s) =>
            let s := set_board (set_cell (board s) x y Empty) s in
            find_completing_cell player cells' s
        end
      else find_completing_cell player cells' s
  end.

Definition find_winning_move (s : GameBoard)
  : result (option Move * GameBoard) :=
  match find_completing_cell PlayerO (grid_cells s) s with
  | Raise e => Raise e
  | Ok (Some (x, y), s) => Ok (Some (Place, x, y), s)
  | Ok (None, s) => Ok (None, s)
  end.

Definition find_blocking_move (s : GameBoard)
  : result (option Move * GameBoard) :=
  match find_completing_cell PlayerX (grid_cells s) s with
  | Raise e => Raise e
  | Ok (Some (x, y), s) =>
      if bool_decide (0 < ai_blocks_remaining s)
      then Ok (Some (Block, x, y), s)
      else Ok (Some (Place, x, y), s)
  | Ok (None, s) => Ok (None, s)
  end.

(** The second component of the value of [ai_move]: the literal [0] of the
    early return, or the difference of two clock readings, of which
    nothing is modelled. *)
Inductive Runtime := NoRuntime | Elapsed.

Section Engine.

Variable list_of_set : list Move → list Move.

(** The choice of the move in [ai_move]: an immediate win, else the answer
    to an immediate threat, else the search. *)
Definition choose_move (depth_minus_1 : nat) (s : GameBoard)
  : result (option Move * GameBoard) :=
  match find_winning_move s with
  | Raise e => Raise e
  | Ok (Some winning_move, s) => Ok (Some winning_move, s)
  | Ok (None, s) =>
      match find_blocking_move s with
      | Raise e => Raise e
      | Ok (Some blocking_move, s) => Ok (Some blocking_move, s)
      | Ok (None, s) => ai_move_decision list_of_set depth_minus_1 s
      end
  end.

(** [ai_move(depth)] for [depth >= 1], [depth_minus_1] being [depth - 1]
    as in [ai_move_decision]. *)
Definition ai_move (depth_minus_1 : nat) (s : GameBoard)
  : result (option Move * Runtime * bool * GameBoard) :=
  if game_over s then Ok (None, NoRuntime, false, s)
  else
    match choose_move depth_minus_1 s with
    | Raise e => Raise e
    | Ok (None, s) => Ok (None, Elapsed, false, s)
    | Ok (Some (action, x, y), s) =>
        let move := Some (action, x, y) in
        match action with
        | Place =>
            match place_piece x y false "normal" s with
            | Raise e => Raise e
            | Ok (_, s) =>
                match check_win x y true s with
                | Raise e => Raise e
                | Ok (true, s) => Ok (move, Elapsed, true, s)
                | Ok (false, s) =>
                    Ok (move, Elapsed, false, set_turn TurnX s)
                end
            end
        | Block =>
            match block_tile x y s with
            | Raise e => Raise e
            | Ok (_, s) => Ok (move, Elapsed, false, s)
            end
        | Remove =>
            let '(_, s) := remove_tile x y false s in
            Ok (move, Elapsed, false, set_turn TurnX s)
        end
    end.

End Engine.

(** * Vocabulary of the further properties *)

(** The verdict of [check_win(x, y)]. *)
Definition wins (s : GameBoard) (x y : Z) : result bool :=
  match check_win x y false s with
  | Raise e => Raise e
  | Ok (w, _) => Ok w
  end.

(** [(x, y)] is an Empty cell of the grid with a piece on one of the (at
    most eight) cells around it. *)
Definition beside_a_piece (s : GameBoard) (x y : Z) : Prop :=
  in_bounds s x y = true ∧ cell_at (board s) x y = Empty ∧
  ∃ px py, in_bounds s px py = true ∧
           (cell_at (board s) px py = PlayerX
            ∨ cell_at (board s) px py = PlayerO) ∧
           -1 ≤ x - px ≤ 1 ∧ -1 ≤ y - py ≤ 1.

(** [blocks_remaining] of the player to move. *)
Definition mover_blocks_remaining (s : GameBoard) : Z :=
  match turn s with
  | TurnX => user_blocks_remaining s
  | TurnO => ai_blocks_remaining s
  end.

(** Every attribute but the grid and [last_move] is the same in [s] and
    [s']. *)
Definition same_off_grid (s s' : GameBoard) : Prop :=
  set_board [] (set_last_move None s') = set_board [] (set_last_move None s).

(** The grids have the same shape: as many rows, and rows of the same
    lengths. *)
Definition same_shape (b b' : list (list Cell)) : Prop :=
  length <$> b' = length <$> b.

(** The search [rec] keeps, on every board, everything but the contents of
    the grid and [last_move]. *)
Definition keeps_off_grid (rec : search) : Prop :=
  ∀ alpha beta maximizing t v t',
    rec alpha beta maximizing t = Ok (v, t') →
    same_off_grid t t' ∧ same_shape (board t) (board t').

(** * Sample positions *)

(** One admissible iteration order of a set of moves: first insertion
    first. *)
Definition first_seen_order (l : list Move) : list Move := remove_dups l.

(** After the opening move of the human at the centre of the standard
    board: it is the engine's turn. *)
Definition board_opening : GameBoard :=
  set_turn_count 1
    (set_last_move (Some (5, 5))
       (set_turn TurnO (with_cell 5 5 PlayerX (init 10 5)))).

(** The human holds [(5, 2)] .. [(5, 6)], the last of them just placed. *)
Definition board_five : GameBoard :=
  set_game_over true
    (set_turn_count 9
       (set_last_move (Some (5, 6))
          (with_cell 5 6 PlayerX
             (with_cell 5 5 PlayerX
                (with_cell 5 4 PlayerX
                   (with_cell 5 3 PlayerX
                      (with_cell 5 2 PlayerX
                         (with_cell 0 0 PlayerO
                            (with_cell 0 2 PlayerO
                               (with_cell 0 4 PlayerO
                                  (with_cell 0 6 PlayerO
                                     (init 10 5)))))))))))).

(** A standard board without a piece left, on which the centre was the
    last tile removed; the engine is to move and has spent its block, on
    the corner. *)
Definition board_vacated : GameBoard :=
  set_turn_count 12
    (set_last_removed_tile (Some (5, 5))
       (set_ai_blocks_remaining 0
          (set_turn TurnO (with_cell 0 0 Blocked (init 10 5))))).

(** The human threatens to complete [(5, 2)] .. [(5, 5)] at either end;
    the engine is to move and still has its block. *)
Definition board_threat : GameBoard :=
  set_turn_count 7
    (set_last_move (Some (5, 5))
       (set_turn TurnO
          (with_cell 5 5 PlayerX
             (with_cell 5 4 PlayerX
                (with_cell 5 3 PlayerX
                   (with_cell 5 2 PlayerX
                      (with_cell 6 4 PlayerO
                         (with_cell 4 3 PlayerO
                            (with_cell 4 2 PlayerO (init 10 5)))))))))).

(** The board after [block_tile(5, 5)] and [place_piece(0, 0)] from the
    initial position: the human has blocked the centre and placed in the
    corner, and the engine is to move. *)
Definition board_blocked_centre : GameBoard :=
  set_turn_count 1
    (set_turn TurnO
       (set_last_move (Some (0, 0))
          (with_cell 0 0 PlayerX
             (set_user_blocks_remaining 0
                (with_cell 5 5 Blocked (init 10 5)))))).

(** One stretch of five along each axis: ['X'] on the row [(0, 0)] ..
    [(0, 4)], ['O'] on the column [(2, 9)] .. [(6, 9)], ['X'] on the
    diagonal [(2, 0)] .. [(6, 4)] and ['O'] on the diagonal [(9, 3)] ..
    [(5, 7)]. *)
Definition board_axes : GameBoard :=
  foldr (λ '(c, x, y), with_cell x y c) (init 10 5)
    [(PlayerX, 0, 0); (PlayerX, 0, 1); (PlayerX, 0, 2); (PlayerX, 0, 3);
     (PlayerX, 0, 4);
     (PlayerO, 2, 9); (PlayerO, 3, 9); (PlayerO, 4, 9); (PlayerO, 5, 9);
     (PlayerO, 6, 9);
     (PlayerX, 2, 0); (PlayerX, 3, 1); (PlayerX, 4, 2); (PlayerX, 5, 3);
     (PlayerX, 6, 4);
     (PlayerO, 9, 3); (PlayerO, 8, 4); (PlayerO, 7, 5); (PlayerO, 6, 6);
     (PlayerO, 5, 7)].

(** Both sides hold four in a row, the human on [(5, 2)] .. [(5, 5)] and
    the engine on [(6, 3)] .. [(6, 6)]; the engine is to move and still
    has its block. *)
Definition board_chance : GameBoard :=
  set_turn_count 8
    (set_last_move (Some (5, 5))
       (set_turn TurnO
          (with_cell 5 5 PlayerX
             (with_cell 5 4 PlayerX
                (with_cell 5 3 PlayerX
                   (with_cell 5 2 PlayerX
                      (with_cell 6 6 PlayerO
                         (with_cell 6 5 PlayerO
                            (with_cell 6 4 PlayerO
                               (with_cell 6 3 PlayerO
                                  (init 10 5))))))))))).
(** * Properties *)

(** ** Indexing *)

Lemma py_index_in_range (len i : Z) :
  0 ≤ i < len → py_index len i = Ok (Z.to_nat i).
Proof.
  intros Hi. unfold py_index. rewrite bool_decide_eq_true_2; done.
Qed.

Lemma in_bounds_spec (s : GameBoard) (x y : Z) :
  in_bounds s x y = true ↔ 0 ≤ x < size s ∧ 0 ≤ y < size s.
Proof.
  unfold in_bounds. rewrite andb_true_iff, !bool_decide_eq_true. done.
Qed.

Lemma board_wf_row (s : GameBoard) (x : Z) :
  board_wf s → 0 ≤ x < size s →
  ∃ row, board s !! Z.to_nat x = Some row ∧ Z.of_nat (length row) = size s.
Proof.
  intros [Hlen Hrows] Hx.
  destruct (lookup_lt_is_Some_2 (board s) (Z.to_nat x)) as [row Hrow];
    [lia|].
  exists row. split; [done|].
  eapply (Forall_lookup_1 _ _ _ _ Hrows Hrow).
Qed.

Lemma board_wf_cell (s : GameBoard) (x y : Z) :
  board_wf s → in_bounds s x y = true →
  ∃ row, board s !! Z.to_nat x = Some row ∧
         Z.of_nat (length row) = size s ∧
         row !! Z.to_nat y = Some (cell_at (board s) x y).
Proof.
  intros Hwf [Hx Hy]%in_bounds_spec.
  destruct (board_wf_row s x Hwf Hx) as (row & Hrow & Hlen).
  exists row. split_and!; [done..|].
  unfold cell_at. rewrite Hrow.
  destruct (lookup_lt_is_Some_2 row (Z.to_nat y)) as [c Hc]; [lia|].
  by rewrite Hc.
Qed.

(** On a well-formed board a guarded read is the Python indexing
    expression, which does not raise. *)
Lemma getitem_cell_at (s : GameBoard) (x y : Z) :
  board_wf s → in_bounds s x y = true →
  getitem (board s) x y = Ok (cell_at (board s) x y).
Proof.
  intros Hwf Hin.
  destruct (board_wf_cell s x y Hwf Hin) as (row & Hrow & Hlen & Hc).
  apply in_bounds_spec in Hin as [Hx Hy]. destruct Hwf as [Hb _].
  unfold getitem. rewrite py_index_in_range by lia. simpl.
  rewrite Hrow, py_index_in_range by lia. simpl. by rewrite Hc.
Qed.

Lemma setitem_set_cell (s : GameBoard) (x y : Z) (v : Cell) :
  board_wf s → in_bounds s x y = true →
  setitem (board s) x y v = Ok (set_cell (board s) x y v).
Proof.
  intros Hwf Hin.
  destruct (board_wf_cell s x y Hwf Hin) as (row & Hrow & Hlen & Hc).
  apply in_bounds_spec in Hin as [Hx Hy]. destruct Hwf as [Hb _].
  unfold setitem, set_cell. rewrite py_index_in_range by lia. simpl.
  rewrite Hrow, py_index_in_range by lia. done.
Qed.

Lemma set_cell_wf (s : GameBoard) (x y : Z) (v : Cell) :
  board_wf s → board_wf (set_board (set_cell (board s) x y v) s).
Proof.
  intros [Hlen Hrows]. unfold board_wf, set_cell. simpl.
  destruct (board s !! Z.to_nat x) as [row|] eqn:Hrow; [|done].
  rewrite length_insert. split; [done|].
  apply Forall_insert; [done|]. rewrite length_insert.
  eapply (Forall_lookup_1 _ _ _ _ Hrows Hrow).
Qed.

Lemma cell_at_set_cell_eq (s : GameBoard) (x y : Z) (v : Cell) :
  board_wf s → in_bounds s x y = true →
  cell_at (set_cell (board s) x y v) x y = v.
Proof.
  intros Hwf Hin.
  destruct (board_wf_cell s x y Hwf Hin) as (row & Hrow & Hlen & Hc).
  unfold cell_at, set_cell. rewrite Hrow.
  rewrite list_lookup_insert_eq by (by eapply lookup_lt_Some).
  rewrite list_lookup_insert_eq by (by eapply lookup_lt_Some).
  done.
Qed.

(** Writing a cell and then writing back what it held gives the grid back,
    for any index the first write accepts. *)
Lemma setitem_restore (b b1 : list (list Cell)) (x y : Z) (c v : Cell) :
  getitem b x y = Ok c → setitem b x y v = Ok b1 → setitem b1 x y c = Ok b.
Proof.
  unfold getitem, setitem. intros Hget Hset.
  destruct (py_index (Z.of_nat (length b)) x) as [i|] eqn:Hi;
    simpl in *; [|done].
  destruct (b !! i) as [row|] eqn:Hrow; [|done].
  destruct (py_index (Z.of_nat (length row)) y) as [j|] eqn:Hj;
    simpl in *; [|done].
  destruct (row !! j) as [c'|] eqn:Hc; [|done].
  injection Hget as ->. injection Hset as <-.
  rewrite length_insert, Hi. simpl.
  rewrite list_lookup_insert_eq by (by eapply lookup_lt_Some).
  rewrite length_insert, Hj. simpl.
  rewrite !list_insert_insert_eq.
  by rewrite (list_insert_id row j c), (list_insert_id b i row).
Qed.

(** ** The scanning loop *)


(** [walk] makes some number [n] of iterations: the [n] cells passed all
    satisfy the loop condition, and the loop stopped on a cell that does
    not, unless the fuel ran out. *)
Lemma walk_spec (fuel : nat) (s : GameBoard) (p : Cell) (dx dy : Z) :
  ∀ (count : Z) (sequence : list (Z * Z)) (nx ny : Z),
  ∃ (n : nat) (sequence' : list (Z * Z)),
    (n ≤ fuel)%nat ∧
    walk fuel s p dx dy count sequence nx ny
      = (count + Z.of_nat n, sequence',
         nx + Z.of_nat n * dx, ny + Z.of_nat n * dy) ∧
    (∀ k, 0 ≤ k < Z.of_nat n →
          walk_cond s p (nx + k * dx) (ny + k * dy) = true) ∧
    ((n < fuel)%nat →
     walk_cond s p (nx + Z.of_nat n * dx) (ny + Z.of_nat n * dy) = false).
Proof.
  induction fuel as [|fuel IH]; intros count sequence nx ny.
  - exists 0%nat, sequence. split_and!; [lia| |intros; lia|lia].
    simpl. f_equal; [f_equal; [f_equal|]|]; lia.
  - simpl. fold (walk_cond s p nx ny).
    destruct (walk_cond s p nx ny) eqn:Hc.
    + destruct (IH (count + 1) (sequence ++ [(nx, ny)]) (nx + dx) (ny + dy))
        as (n & sequence' & Hn & Hw & Hall & Hstop).
      exists (S n), sequence'. split_and!; [lia| | |].
      * rewrite Hw. f_equal; [f_equal; [f_equal|]|]; lia.
      * intros k Hk. destruct (decide (k = 0)) as [->|Hk0].
        { by replace (nx + 0 * dx) with nx by lia;
            replace (ny + 0 * dy) with ny by lia. }
        specialize (Hall (k - 1) ltac:(lia)).
        by replace (nx + dx + (k - 1) * dx) with (nx + k * dx) in Hall by lia;
          replace (ny + dy + (k - 1) * dy) with (ny + k * dy) in Hall by lia.
      * intros Hlt. specialize (Hstop ltac:(lia)).
        by replace (nx + dx + Z.of_nat n * dx)
             with (nx + Z.of_nat (S n) * dx) in Hstop by lia;
          replace (ny + dy + Z.of_nat n * dy)
             with (ny + Z.of_nat (S n) * dy) in Hstop by lia.
    + exists 0%nat, sequence. split_and!; [lia| |intros; lia|].
      * f_equal; [f_equal; [f_equal|]|]; lia.
      * intros _.
        assert (nx + Z.of_nat 0 * dx = nx) as -> by lia.
        by assert (ny + Z.of_nat 0 * dy = ny) as -> by lia.
Qed.

(** With [size] units of fuel the loop always ends because its condition
    fails, never because the fuel ran out: [walk (loop_fuel s)] is the
    [while] loop. *)
Lemma walk_exits (s : GameBoard) (p : Cell) (dx dy : Z)
    (count : Z) (sequence : list (Z * Z)) (nx ny : Z) :
  dx ≠ 0 ∨ dy ≠ 0 →
  ∃ (n : nat) (sequence' : list (Z * Z)),
    walk (loop_fuel s) s p dx dy count sequence nx ny
      = (count + Z.of_nat n, sequence',
         nx + Z.of_nat n * dx, ny + Z.of_nat n * dy) ∧
    (∀ k, 0 ≤ k < Z.of_nat n →
          walk_cond s p (nx + k * dx) (ny + k * dy) = true) ∧
    walk_cond s p (nx + Z.of_nat n * dx) (ny + Z.of_nat n * dy) = false.
Proof.
  intros Hd.
  destruct (walk_spec (loop_fuel s) s p dx dy count sequence nx ny)
    as (n & sequence' & Hn & Hw & Hall & Hstop).
  exists n, sequence'. split_and!; [done..|].
  destruct (decide (n < loop_fuel s)%nat) as [Hlt|Hge]; [by apply Hstop|].
  assert (n = loop_fuel s) as Hn' by lia.
  unfold loop_fuel in Hn'.
  apply not_true_is_false. intros Hc.
  unfold walk_cond in Hc. apply andb_true_iff in Hc as [Hin _].
  apply in_bounds_spec in Hin as [Hx Hy].
  assert (0 < size s) as Hsz by lia.
  specialize (Hall 0 ltac:(lia)).
  unfold walk_cond in Hall. apply andb_true_iff in Hall as [Hin _].
  apply in_bounds_spec in Hin as [Hx0 Hy0].
  assert (Z.of_nat n = size s) as Hsize by lia.
  rewrite Hsize in Hx, Hy. destruct Hd; nia.
Qed.

(** ** Win detection *)


Lemma walk_cond_spec (s : GameBoard) (p : Cell) (nx ny : Z) :
  walk_cond s p nx ny = true ↔
  in_bounds s nx ny = true ∧ cell_at (board s) nx ny = p.
Proof.
  unfold walk_cond. by rewrite andb_true_iff, bool_decide_eq_true.
Qed.

Lemma directions_nonzero (dx dy : Z) :
  (dx, dy) ∈ directions → dx ≠ 0 ∨ dy ≠ 0.
Proof.
  unfold directions. rewrite !elem_of_cons, elem_of_nil.
  intros [H|[H|[H|[H|[]]]]]; injection H as -> ->; lia.
Qed.

(** The count of [line] is one plus the lengths of the two maximal
    stretches of [p] on either side of [(x, y)]. *)
Lemma line_spec (s : GameBoard) (p : Cell) (x y dx dy : Z) :
  dx ≠ 0 ∨ dy ≠ 0 →
  ∃ (n1 n2 : Z) (sequence : list (Z * Z)),
    0 ≤ n1 ∧ 0 ≤ n2 ∧
    line s p x y dx dy = (1 + n1 + n2, sequence) ∧
    (∀ k, 1 ≤ k ≤ n1 → walk_cond s p (x + k * dx) (y + k * dy) = true) ∧
    walk_cond s p (x + (n1 + 1) * dx) (y + (n1 + 1) * dy) = false ∧
    (∀ k, 1 ≤ k ≤ n2 → walk_cond s p (x - k * dx) (y - k * dy) = true) ∧
    walk_cond s p (x - (n2 + 1) * dx) (y - (n2 + 1) * dy) = false.
Proof.
  intros Hd. unfold line.
  destruct (walk_exits s p dx dy 1 [(x, y)] (x + dx) (y + dy) Hd)
    as (n1 & seq1 & -> & Hall1 & Hstop1).
  destruct (walk_exits s p (- dx) (- dy) (1 + Z.of_nat n1) seq1
              (x - dx) (y - dy) ltac:(lia))
    as (n2 & seq2 & -> & Hall2 & Hstop2).
  exists (Z.of_nat n1), (Z.of_nat n2), seq2.
  split_and!; [lia|lia|done| | | |].
  - intros k Hk. specialize (Hall1 (k - 1) ltac:(lia)).
    by replace (x + dx + (k - 1) * dx) with (x + k * dx) in Hall1 by lia;
      replace (y + dy + (k - 1) * dy) with (y + k * dy) in Hall1 by lia.
  - by replace (x + dx + Z.of_nat n1 * dx)
         with (x + (Z.of_nat n1 + 1) * dx) in Hstop1 by lia;
      replace (y + dy + Z.of_nat n1 * dy)
         with (y + (Z.of_nat n1 + 1) * dy) in Hstop1 by lia.
  - intros k Hk. specialize (Hall2 (k - 1) ltac:(lia)).
    by replace (x - dx + (k - 1) * - dx) with (x - k * dx) in Hall2 by lia;
      replace (y - dy + (k - 1) * - dy) with (y - k * dy) in Hall2 by lia.
  - by replace (x - dx + Z.of_nat n2 * - dx)
         with (x - (Z.of_nat n2 + 1) * dx) in Hstop2 by lia;
      replace (y - dy + Z.of_nat n2 * - dy)
         with (y - (Z.of_nat n2 + 1) * dy) in Hstop2 by lia.
Qed.

(** A run through [(x, y)] is counted in full. *)
Lemma line_complete (s : GameBoard) (p : Cell) (x y dx dy a b : Z) :
  dx ≠ 0 ∨ dy ≠ 0 → run_through s p x y dx dy a b →
  a + b + 1 ≤ (line s p x y dx dy).1.
Proof.
  intros Hd (Ha & Hb & Hrun).
  destruct (line_spec s p x y dx dy Hd)
    as (n1 & n2 & sequence & Hn1 & Hn2 & -> & _ & Hstop1 & _ & Hstop2).
  simpl.
  assert (b ≤ n1) as Hb1.
  { apply Z.le_ngt. intros Hlt.
    destruct (Hrun (n1 + 1) ltac:(lia)) as [Hin Hcell].
    pose proof (proj2 (walk_cond_spec s p _ _) (conj Hin Hcell)) as Hc.
    congruence. }
  assert (a ≤ n2) as Ha2.
  { apply Z.le_ngt. intros Hlt.
    destruct (Hrun (- (n2 + 1)) ltac:(lia)) as [Hin Hcell].
    replace (x + - (n2 + 1) * dx) with (x - (n2 + 1) * dx) in * by lia.
    replace (y + - (n2 + 1) * dy) with (y - (n2 + 1) * dy) in * by lia.
    pose proof (proj2 (walk_cond_spec s p _ _) (conj Hin Hcell)) as Hc.
    congruence. }
  lia.
Qed.

(** Whatever [line] counts is a run through [(x, y)] without a gap. *)
Lemma line_sound (s : GameBoard) (p : Cell) (x y dx dy : Z) :
  dx ≠ 0 ∨ dy ≠ 0 →
  in_bounds s x y = true → cell_at (board s) x y = p →
  ∃ a b, run_through s p x y dx dy a b ∧
         (line s p x y dx dy).1 = a + b + 1.
Proof.
  intros Hd Hin Hcell.
  destruct (line_spec s p x y dx dy Hd)
    as (n1 & n2 & sequence & Hn1 & Hn2 & -> & Hall1 & _ & Hall2 & _).
  exists n2, n1. split; [|simpl; lia].
  split_and!; [done..|]. intros k Hk.
  destruct (decide (k = 0)) as [->|Hk0].
  { by replace (x + 0 * dx) with x by lia;
      replace (y + 0 * dy) with y by lia. }
  apply walk_cond_spec.
  destruct (decide (0 < k)) as [Hpos|Hneg].
  - apply Hall1. lia.
  - specialize (Hall2 (- k) ltac:(lia)).
    by replace (x - - k * dx) with (x + k * dx) in Hall2 by lia;
      replace (y - - k * dy) with (y + k * dy) in Hall2 by lia.
Qed.

Lemma check_win_dirs_true (dirs : list (Z * Z)) (s : GameBoard) (p : Cell)
    (x y : Z) (upd : bool) :
  (check_win_dirs dirs s p x y upd).1 = true ↔
  ∃ dx dy, (dx, dy) ∈ dirs ∧ target s ≤ (line s p x y dx dy).1.
Proof.
  induction dirs as [|[dx dy] dirs IH]; simpl.
  - split; [done|]. intros (dx & dy & []%elem_of_nil & _).
  - destruct (line s p x y dx dy) as [count sequence] eqn:Hline.
    destruct (bool_decide (target s ≤ count)) eqn:Hc; simpl.
    + split; [|done]. intros _. exists dx, dy.
      split; [apply list_elem_of_here|].
      rewrite Hline. by apply bool_decide_eq_true in Hc.
    + rewrite IH. apply bool_decide_eq_false in Hc. split.
      * intros (dx' & dy' & Hin & Hle). exists dx', dy'.
        split; [by apply list_elem_of_further|done].
      * intros (dx' & dy' & Hin & Hle). exists dx', dy'.
        split; [|done].
        apply elem_of_cons in Hin as [Heq|Hin]; [|done].
        injection Heq as -> ->. rewrite Hline in Hle. simpl in Hle. lia.
Qed.

(** Without [update_winning_sequence], and whenever the answer is [False],
    [check_win] leaves the object as it found it. *)
Lemma check_win_dirs_state (dirs : list (Z * Z)) (s : GameBoard) (p : Cell)
    (x y : Z) (upd : bool) :
  upd = false ∨ (check_win_dirs dirs s p x y upd).1 = false →
  (check_win_dirs dirs s p x y upd).2 = s.
Proof.
  induction dirs as [|[dx dy] dirs IH]; simpl; [done|].
  destruct (line s p x y dx dy) as [count sequence].
  destruct (bool_decide (target s ≤ count)); simpl; [|done].
  intros [->|?]; done.
Qed.

Lemma check_win_no_update (x y : Z) (s : GameBoard) (w : bool)
    (s' : GameBoard) :
  check_win x y false s = Ok (w, s') → s' = s.
Proof.
  unfold check_win. destruct (getitem (board s) x y) as [c|]; [|done].
  cbn -[check_win_dirs]. destruct (_ || _); [by intros [= <- <-]|].
  intros Heq.
  assert (check_win_dirs directions s c x y false = (w, s')) as Heq'
    by congruence.
  pose proof (check_win_dirs_state directions s c x y false (or_introl eq_refl))
    as Hst.
  by rewrite Heq' in Hst.
Qed.

(** [check_win] only ever changes [winning_sequence]. *)
Lemma check_win_frame (x y : Z) (upd : bool) (s : GameBoard) (w : bool)
    (s' : GameBoard) :
  check_win x y upd s = Ok (w, s') →
  s' = set_winning_sequence (winning_sequence s') s.
Proof.
  unfold check_win. destruct (getitem (board s) x y) as [c|]; [|done].
  cbn -[check_win_dirs]. destruct (_ || _); [intros [= <- <-]; by destruct s|].
  intros Heq.
  assert (check_win_dirs directions s c x y upd = (w, s')) as Heq'
    by congruence.
  clear Heq. revert Heq'. generalize directions. intros dirs.
  induction dirs as [|[dx dy] dirs IH]; simpl.
  { intros [= <- <-]. by destruct s. }
  destruct (line s c x y dx dy) as [count sequence].
  destruct (bool_decide (target s ≤ count)); simpl; [|done].
  intros [= <- <-]. by destruct upd, s.
Qed.

(** ** The mutations [place_piece], [block_tile], [remove_tile] *)

(** A valid normal placement goes through: [check_win] is called on the
    cell just written, which is on the grid, and returns. *)
Lemma place_piece_normal_valid (x y : Z) (switch_turn : bool)
    (s : GameBoard) :
  board_wf s → game_over s = false → is_valid_move s x y = true →
  ∃ win s1,
    check_win x y true
      (set_last_move (Some (x, y))
         (set_board (set_cell (board s) x y (piece (turn s))) s))
      = Ok (win, s1) ∧
    place_piece x y switch_turn "normal" s
      = Ok (Some (true, win),
            set_turn_count (turn_count s + 1)
              (if win then set_game_over true s1
               else if switch_turn then set_turn (other (turn s)) s1
               else s1)).
Proof.
  intros Hwf Hgo Hvalid.
  pose proof Hvalid as [Hin _]%andb_true_iff.
  set (s0 := set_last_move (Some (x, y))
               (set_board (set_cell (board s) x y (piece (turn s))) s)).
  assert (board_wf s0) as Hwf0 by apply (set_cell_wf s x y _ Hwf).
  assert (∃ r, check_win x y true s0 = Ok r) as [[win s1] Hcw].
  { unfold check_win.
    rewrite (getitem_cell_at s0 x y Hwf0 Hin). simpl.
    destruct (_ || _); eauto. }
  exists win, s1. split; [done|].
  unfold place_piece. rewrite Hgo. simpl. rewrite Hvalid.
  fold s0. rewrite Hcw.
  pose proof (check_win_frame _ _ _ _ _ _ Hcw) as Hfr.
  assert (turn_count s1 = turn_count s) as Htc by (by rewrite Hfr).
  assert (turn s1 = turn s) as Ht by (by rewrite Hfr).
  destruct win; [|destruct switch_turn]; simpl; by rewrite ?Htc, ?Ht.
Qed.


(** [place_piece] always returns on a well-formed board, whatever its
    arguments. *)
Lemma place_piece_returns (x y : Z) (switch_turn : bool)
    (move_type : string) (s : GameBoard) :
  board_wf s →
  ∃ r s', place_piece x y switch_turn move_type s = Ok (r, s') ∧
          counters_step s s'.
Proof.
  intros Hwf.
  destruct (game_over s) eqn:Hgo.
  { exists (Some (false, false)), s. unfold place_piece. rewrite Hgo.
    split; [done|]. by left. }
  destruct (String.eqb move_type "normal") eqn:Hn.
  { apply String.eqb_eq in Hn as ->.
    destruct (is_valid_move s x y) eqn:Hv.
    - destruct (place_piece_normal_valid x y switch_turn s Hwf Hgo Hv)
        as (win & s1 & Hcw & ->).
      eexists _, _. split; [done|]. left.
      pose proof (check_win_frame _ _ _ _ _ _ Hcw) as ->.
      by destruct win, switch_turn.
    - exists (Some (false, false)), s. unfold place_piece.
      rewrite Hgo. simpl. rewrite Hv. split; [done|]. by left. }
  destruct (String.eqb move_type "block") eqn:Hb.
  { unfold place_piece. rewrite Hgo, Hn, Hb.
    destruct (is_valid_block s x y).
    - eexists _, _. split; [done|].
      destruct (turn s) eqn:Ht; simpl; rewrite Ht; simpl.
      + right. by left.
      + right. right. by left.
    - eexists _, _. split; [done|]. by left. }
  exists None, s. unfold place_piece. rewrite Hgo, Hn, Hb.
  split; [done|]. by left.
Qed.

Lemma board_wf_init (sz tg : Z) : 0 ≤ sz → board_wf (init sz tg).
Proof.
  intros Hsz. unfold board_wf, init. simpl. rewrite length_replicate.
  split; [lia|]. apply Forall_replicate. rewrite length_replicate. lia.
Qed.

Lemma board_wf_opening : board_wf board_opening.
Proof. apply (set_cell_wf (init 10 5)), board_wf_init. lia. Defined.

Lemma board_wf_five : board_wf board_five.
Proof. split; [reflexivity|]. repeat constructor. Defined.

Lemma board_wf_vacated : board_wf board_vacated.
Proof. split; [reflexivity|]. repeat constructor. Defined.

(** C5. When the validity predicate of a mutation is false at [(x, y)],
    whether the coordinates are off the grid or the cell is not of the
    required kind, the mutation returns normally, reports failure
    ([(False, False)] for [place_piece] and [block_tile], [False] for
    [remove_tile]) and leaves the whole object, grid included, as it was:
    no exception is raised. *)
Theorem invalid_mutations_are_noops (s : GameBoard) (x y : Z)
    (switch_turn : bool) :
  board_wf s →
  (is_valid_move s x y = false →
   place_piece x y switch_turn "normal" s = Ok (Some (false, false), s)) ∧
  (is_valid_block s x y = false →
   place_piece x y switch_turn "block" s = Ok (Some (false, false), s) ∧
   block_tile x y s = Ok (Some (false, false), s)) ∧
  (is_valid_remove s x y = false →
   remove_tile x y switch_turn s = (false, s)).
Proof.
  intros _. split_and!.
  - intros Hv. unfold place_piece. destruct (game_over s); [done|].
    simpl. by rewrite Hv.
  - intros Hv. unfold block_tile, place_piece.
    destruct (game_over s); [done|]. simpl. by rewrite Hv.
  - intros Hv. unfold remove_tile. by rewrite Hv.
Qed.

Lemma invalid_mutations_are_noops_witness :
  board_wf board_opening ∧
  is_valid_move board_opening 5 5 = false ∧
  is_valid_block board_opening (-1) 10 = false ∧
  is_valid_remove board_opening 3 3 = false ∧
  place_piece 5 5 true "normal" board_opening
    = Ok (Some (false, false), board_opening) ∧
  block_tile (-1) 10 board_opening = Ok (Some (false, false), board_opening) ∧
  remove_tile 3 3 true board_opening = (false, board_opening).
Proof.
  split; [exact board_wf_opening|].
  split; [reflexivity|]. split; [reflexivity|]. split; [reflexivity|].
  split; [|split].
  - apply (invalid_mutations_are_noops board_opening 5 5 true
             board_wf_opening). reflexivity.
  - apply (invalid_mutations_are_noops board_opening (-1) 10 true
             board_wf_opening). reflexivity.
  - apply (invalid_mutations_are_noops board_opening 3 3 true
             board_wf_opening). reflexivity.
Defined.

(** The four axes of [check_win], by name: [(0, 1)] runs along a row
    (horizontal), [(1, 0)] along a column (vertical), [(1, 1)] and
    [(-1, 1)] along the two diagonals. *)
Lemma elem_of_directions (dx dy : Z) :
  (dx, dy) ∈ directions ↔
  (dx, dy) = (0, 1) ∨ (dx, dy) = (1, 0) ∨ (dx, dy) = (1, 1)
  ∨ (dx, dy) = (-1, 1).
Proof. unfold directions. rewrite !elem_of_cons, elem_of_nil. tauto. Qed.

(** C6. On a well-formed board and for a cell [(x, y)] of the grid:
    [check_win(x, y)] answers [True] whenever [(x, y)] lies on a stretch of
    at least [target] cells of one owner along any of the four axes, the
    row through the cell (step [(0, 1)]), the column (step [(1, 0)]) and
    the two diagonals (steps [(1, 1)] and [(-1, 1)]), wherever on the
    board; it answers [True] only if such a stretch exists along one of
    these four, each of its cells holding the owner's piece, so that
    nothing is counted across a Blocked or Empty cell; and it answers
    [False] when [(x, y)] itself is Blocked or Empty. *)
Theorem check_win_detects_runs (s : GameBoard) (x y : Z) (upd : bool) :
  board_wf s → in_bounds s x y = true →
  (∀ p dx dy a b,
     p = PlayerX ∨ p = PlayerO →
     (dx, dy) = (0, 1) ∨ (dx, dy) = (1, 0) ∨ (dx, dy) = (1, 1)
     ∨ (dx, dy) = (-1, 1) →
     run_through s p x y dx dy a b → target s ≤ a + b + 1 →
     ∃ s', check_win x y upd s = Ok (true, s')) ∧
  (∀ s', check_win x y upd s = Ok (true, s') →
     ∃ p dx dy a b,
       (p = PlayerX ∨ p = PlayerO) ∧
       ((dx, dy) = (0, 1) ∨ (dx, dy) = (1, 0) ∨ (dx, dy) = (1, 1)
        ∨ (dx, dy) = (-1, 1)) ∧
       run_through s p x y dx dy a b ∧ target s ≤ a + b + 1) ∧
  (cell_at (board s) x y = Blocked ∨ cell_at (board s) x y = Empty →
   check_win x y upd s = Ok (false, s)).
Proof.
  intros Hwf Hin. unfold check_win.
  rewrite (getitem_cell_at s x y Hwf Hin). cbn -[check_win_dirs].
  split_and!.
  - intros p dx dy a b Hp Hdir%elem_of_directions Hrun Htarget.
    assert (cell_at (board s) x y = p) as Hcell.
    { destruct Hrun as (Ha & Hb & Hrun).
      destruct (Hrun 0 ltac:(lia)) as [_ Hc].
      by replace (x + 0 * dx) with x in Hc by lia;
        replace (y + 0 * dy) with y in Hc by lia. }
    rewrite Hcell.
    replace (bool_decide (p = Blocked) || bool_decide (p = Empty))
      with false by (by destruct Hp as [-> | ->]).
    pose proof (line_complete s p x y dx dy a b
                  (directions_nonzero dx dy Hdir) Hrun) as Hline.
    assert ((check_win_dirs directions s p x y upd).1 = true) as Hw.
    { apply check_win_dirs_true. exists dx, dy. split; [done|lia]. }
    destruct (check_win_dirs directions s p x y upd) as [w s'].
    simpl in Hw. subst w. by exists s'.
  - intros s' Hcw.
    destruct (bool_decide (cell_at (board s) x y = Blocked)
              || bool_decide (cell_at (board s) x y = Empty)) eqn:Hbe;
      [done|].
    apply orb_false_iff in Hbe as [Hb%bool_decide_eq_false
                                   He%bool_decide_eq_false].
    assert (check_win_dirs directions s (cell_at (board s) x y) x y upd
            = (true, s')) as Heq by congruence.
    assert ((check_win_dirs directions s (cell_at (board s) x y) x y upd).1
            = true) as Hw by (by rewrite Heq).
    apply check_win_dirs_true in Hw as (dx & dy & Hdir & Hle).
    destruct (line_sound s (cell_at (board s) x y) x y dx dy
                (directions_nonzero dx dy Hdir) Hin eq_refl)
      as (a & b & Hrun & Hcount).
    exists (cell_at (board s) x y), dx, dy, a, b.
    split_and!; [|by apply elem_of_directions|done|lia].
    destruct (cell_at (board s) x y); auto; done.
  - intros [-> | ->]; done.
Qed.

Lemma board_wf_axes : board_wf board_axes.
Proof.
  unfold board_wf. vm_compute. split; [reflexivity|repeat constructor].
Qed.

(** The five cells at offsets [-2 .. 2] from [(x, y)] along [(dx, dy)] on
    a sample board. *)
Ltac five_cells :=
  split; [lia|]; split; [lia|]; intros k Hk;
  assert (k = -2 ∨ k = -1 ∨ k = 0 ∨ k = 1 ∨ k = 2)
    as [-> | [-> | [-> | [-> | ->]]]] by lia; split; reflexivity.

Lemma check_win_detects_runs_witness :
  board_wf board_axes ∧
  (∃ s', check_win 0 2 false board_axes = Ok (true, s')) ∧
  (∃ s', check_win 4 9 false board_axes = Ok (true, s')) ∧
  (∃ s', check_win 4 2 false board_axes = Ok (true, s')) ∧
  (∃ s', check_win 7 5 false board_axes = Ok (true, s')) ∧
  check_win 5 5 false board_axes = Ok (false, board_axes).
Proof.
  split; [exact board_wf_axes|]. split_and!.
  - apply (check_win_detects_runs board_axes 0 2 false board_wf_axes
             eq_refl) with (p := PlayerX) (dx := 0) (dy := 1)
                           (a := 2) (b := 2).
    + by left.
    + by left.
    + five_cells.
    + simpl. lia.
  - apply (check_win_detects_runs board_axes 4 9 false board_wf_axes
             eq_refl) with (p := PlayerO) (dx := 1) (dy := 0)
                           (a := 2) (b := 2).
    + by right.
    + right. by left.
    + five_cells.
    + simpl. lia.
  - apply (check_win_detects_runs board_axes 4 2 false board_wf_axes
             eq_refl) with (p := PlayerX) (dx := 1) (dy := 1)
                           (a := 2) (b := 2).
    + by left.
    + do 2 right. by left.
    + five_cells.
    + simpl. lia.
  - apply (check_win_detects_runs board_axes 7 5 false board_wf_axes
             eq_refl) with (p := PlayerO) (dx := -1) (dy := 1)
                           (a := 2) (b := 2).
    + by right.
    + by do 3 right.
    + five_cells.
    + simpl. lia.
  - apply (check_win_detects_runs board_axes 5 5 false board_wf_axes
             eq_refl). by right.
Defined.

(** C8. Whatever the coordinates and whether it succeeds or fails, a call
    of [place_piece] (in any mode), [block_tile] or [remove_tile] returns
    and leaves the four counters [user_blocks_remaining],
    [ai_blocks_remaining], [user_power_moves_remaining] and
    [ai_power_moves_remaining] unchanged or takes one off exactly one of
    them: no counter ever goes up. *)
Theorem counters_never_increase (s : GameBoard) (x y : Z)
    (switch_turn : bool) (move_type : string) :
  board_wf s →
  (∃ r s', place_piece x y switch_turn move_type s = Ok (r, s') ∧
           counters_step s s') ∧
  (∃ r s', block_tile x y s = Ok (r, s') ∧ counters_step s s') ∧
  counters_step s (remove_tile x y switch_turn s).2.
Proof.
  intros Hwf. split_and!.
  - by apply place_piece_returns.
  - by apply place_piece_returns.
  - unfold remove_tile. destruct (is_valid_remove s x y); [|by left].
    destruct (turn s) eqn:Ht, switch_turn; simpl; rewrite Ht; simpl.
    + do 3 right. by left.
    + do 3 right. by left.
    + by do 4 right.
    + by do 4 right.
Qed.

Lemma counters_never_increase_witness :
  board_wf board_opening ∧
  (∃ r s', block_tile 4 4 board_opening = Ok (r, s') ∧
           counters_step board_opening s') ∧
  counters_step board_opening (remove_tile 5 5 true board_opening).2.
Proof.
  split; [exact board_wf_opening|].
  pose proof (counters_never_increase board_opening 4 4 true "normal"
                board_wf_opening) as (_ & Hblock & _).
  pose proof (counters_never_increase board_opening 5 5 true "normal"
                board_wf_opening) as (_ & _ & Hremove).
  split; [exact Hblock|exact Hremove].
Defined.

(** C9. Once [game_over] is set, [place_piece] answers [(False, False)]
    and changes nothing, for every coordinate and every [move_type], even
    on an Empty cell of the grid.  [remove_tile] does not look at
    [game_over]: on a cell held by the opponent of the player to move it
    still empties the cell, takes one off that player's
    [power_moves_remaining], records [last_removed_tile], adds one to
    [turn_count] and answers [True]. *)
Theorem game_over_stops_place_not_remove (s : GameBoard) (x y : Z)
    (switch_turn : bool) (move_type : string) :
  board_wf s → game_over s = true →
  place_piece x y switch_turn move_type s = Ok (Some (false, false), s) ∧
  (in_bounds s x y = true →
   cell_at (board s) x y = piece (other (turn s)) →
   let s' := (remove_tile x y switch_turn s).2 in
   (remove_tile x y switch_turn s).1 = true ∧
   cell_at (board s') x y = Empty ∧
   (turn s = TurnX →
    user_power_moves_remaining s' = user_power_moves_remaining s - 1 ∧
    ai_power_moves_remaining s' = ai_power_moves_remaining s) ∧
   (turn s = TurnO →
    ai_power_moves_remaining s' = ai_power_moves_remaining s - 1 ∧
    user_power_moves_remaining s' = user_power_moves_remaining s) ∧
   last_removed_tile s' = Some (x, y) ∧
   turn_count s' = turn_count s + 1).
Proof.
  intros Hwf Hgo. split.
  - unfold place_piece. by rewrite Hgo.
  - intros Hin Hcell. unfold remove_tile.
    assert (is_valid_remove s x y = true) as ->.
    { unfold is_valid_remove. rewrite Hin, Hcell. simpl.
      by apply bool_decide_eq_true. }
    pose proof (cell_at_set_cell_eq s x y Empty Hwf Hin) as Hset.
    destruct (turn s) eqn:Ht, switch_turn; simpl; rewrite ?Ht; simpl;
      split_and!; done.
Qed.

Lemma game_over_stops_place_not_remove_witness :
  board_wf board_five ∧ game_over board_five = true ∧
  place_piece 7 7 true "normal" board_five
    = Ok (Some (false, false), board_five) ∧
  (remove_tile 0 4 true board_five).1 = true ∧
  cell_at (board (remove_tile 0 4 true board_five).2) 0 4 = Empty ∧
  turn_count (remove_tile 0 4 true board_five).2 = 10.
Proof.
  split; [exact board_wf_five|]. split; [reflexivity|].
  pose proof (game_over_stops_place_not_remove board_five 7 7 true "normal"
                board_wf_five eq_refl) as [Hplace _].
  pose proof (game_over_stops_place_not_remove board_five 0 4 true "normal"
                board_wf_five eq_refl) as [_ Hremove].
  specialize (Hremove eq_refl eq_refl) as (Hr & Hc & _ & _ & _ & Ht).
  split; [exact Hplace|]. split; [exact Hr|]. split; [exact Hc|exact Ht].
Defined.

(** C10. A normal [place_piece] that succeeds and a [remove_tile] that
    succeeds each add exactly one to [turn_count]; a block that succeeds
    ([place_piece] in block mode, [block_tile]) leaves [turn_count] as it
    was and sets [last_move] to the blocked coordinate, although the turn
    stays with the same player. *)
Theorem turn_count_steps (s : GameBoard) (x y : Z) (switch_turn : bool) :
  board_wf s →
  (game_over s = false → is_valid_move s x y = true →
   ∃ win s', place_piece x y switch_turn "normal" s
               = Ok (Some (true, win), s') ∧
             turn_count s' = turn_count s + 1) ∧
  (is_valid_remove s x y = true →
   (remove_tile x y switch_turn s).1 = true ∧
   turn_count (remove_tile x y switch_turn s).2 = turn_count s + 1) ∧
  (game_over s = false → is_valid_block s x y = true →
   ∃ s', place_piece x y switch_turn "block" s = Ok (Some (true, true), s') ∧
         block_tile x y s = Ok (Some (true, true), s') ∧
         turn_count s' = turn_count s ∧
         last_move s' = Some (x, y) ∧
         turn s' = turn s).
Proof.
  intros Hwf. split_and!.
  - intros Hgo Hv.
    destruct (place_piece_normal_valid x y switch_turn s Hwf Hgo Hv)
      as (win & s1 & _ & ->).
    eexists _, _. split; [reflexivity|]. done.
  - intros Hv. unfold remove_tile. rewrite Hv.
    destruct (turn s) eqn:Ht, switch_turn; simpl; rewrite ?Ht; done.
  - intros Hgo Hv. unfold block_tile, place_piece. rewrite Hgo, Hv. simpl.
    eexists. split; [done|]. split; [done|].
    by destruct (turn s) eqn:Ht; simpl; rewrite Ht.
Qed.

Lemma turn_count_steps_witness :
  board_wf board_opening ∧
  (∃ win s', place_piece 4 4 true "normal" board_opening
               = Ok (Some (true, win), s') ∧ turn_count s' = 2) ∧
  turn_count (remove_tile 5 5 true board_opening).2 = 2 ∧
  (∃ s', block_tile 4 4 board_opening = Ok (Some (true, true), s') ∧
         turn_count s' = 1 ∧ last_move s' = Some (4, 4)).
Proof.
  split; [exact board_wf_opening|].
  pose proof (turn_count_steps board_opening 4 4 true board_wf_opening)
    as (Hplace & _ & Hblock).
  pose proof (turn_count_steps board_opening 5 5 true board_wf_opening)
    as (_ & Hremove & _).
  specialize (Hplace eq_refl eq_refl).
  specialize (Hremove eq_refl) as [_ Hremove].
  specialize (Hblock eq_refl eq_refl) as (s' & _ & Hb & Ht & Hl & _).
  split; [exact Hplace|]. split; [exact Hremove|].
  exists s'. split; [exact Hb|]. split; [exact Ht|exact Hl].
Defined.

(** ** Evaluation *)

Lemma position_sum_app (s : GameBoard) (p : Cell) (l1 l2 : list (Z * Z)) :
  position_sum s p (l1 ++ l2) = position_sum s p l1 + position_sum s p l2.
Proof.
  induction l1 as [|[x y] l1 IH]; simpl; [done|]. rewrite IH. lia.
Qed.

Lemma player_score_row (s : GameBoard) (p : Cell) (x : Z) (ys : list Z) :
  ∀ acc,
  fold_left (λ acc y,
    if bool_decide (cell_at (board s) x y = p)
    then acc + evaluate_position s x y p else acc) ys acc
  = acc + position_sum s p (map (λ y, (x, y)) ys).
Proof.
  induction ys as [|y ys IH]; intros acc; simpl; [lia|].
  rewrite IH. destruct (bool_decide _); lia.
Qed.

(** The nested loops of [heuristic_evaluation] add up [evaluate_position]
    over the cells held by the player. *)
Lemma player_score_sum (s : GameBoard) (p : Cell) :
  player_score s p = position_sum s p (grid_cells s).
Proof.
  unfold player_score, grid_cells.
  assert (∀ xs acc,
    fold_left (λ acc x,
      fold_left (λ acc y,
        if bool_decide (cell_at (board s) x y = p)
        then acc + evaluate_position s x y p else acc)
        (range (size s)) acc) xs acc
    = acc + position_sum s p
              (flat_map (λ x, map (λ y, (x, y)) (range (size s))) xs))
    as Hgen.
  { intros xs. induction xs as [|x xs IH]; intros acc; simpl; [lia|].
    rewrite IH, player_score_row, position_sum_app. lia. }
  rewrite Hgen. lia.
Qed.

(** C7. [evaluate()] returns 10000 when [last_move] is set, the cell there
    holds the engine's ['O'] and [check_win] at [last_move] is true;
    -10000 when that cell holds the human's ['X'] and [check_win] is true;
    and otherwise (no [last_move], or [check_win] false there) the value
    of [heuristic_evaluation()], which is the sum of [evaluate_position]
    over the cells held by the engine, minus that sum over the cells held
    by the human, minus 50 for each power move the engine has spent out of
    its 3, plus 50 for each power move the human has spent. *)
Theorem evaluate_spec (s : GameBoard) :
  board_wf s →
  (∀ lx ly,
     last_move s = Some (lx, ly) → getitem (board s) lx ly = Ok PlayerO →
     check_win lx ly false s = Ok (true, s) → evaluate s = Ok (10000, s)) ∧
  (∀ lx ly,
     last_move s = Some (lx, ly) → getitem (board s) lx ly = Ok PlayerX →
     check_win lx ly false s = Ok (true, s) → evaluate s = Ok (-10000, s)) ∧
  (last_move s = None ∨
   (∃ lx ly, last_move s = Some (lx, ly) ∧
             check_win lx ly false s = Ok (false, s)) →
   evaluate s = Ok (heuristic_evaluation s, s)) ∧
  heuristic_evaluation s
    = position_sum s PlayerO (grid_cells s)
      - position_sum s PlayerX (grid_cells s)
      - 50 * (3 - ai_power_moves_remaining s)
      + 50 * (3 - user_power_moves_remaining s).
Proof.
  intros _. split_and!.
  - intros lx ly Hlm Hget Hcw. unfold evaluate.
    rewrite Hlm, Hget. simpl. by rewrite Hcw.
  - intros lx ly Hlm Hget Hcw. unfold evaluate.
    rewrite Hlm, Hget. simpl. by rewrite Hcw.
  - intros [Hlm | (lx & ly & Hlm & Hcw)]; unfold evaluate; rewrite Hlm;
      [done|].
    destruct (getitem (board s) lx ly) as [c|] eqn:Hget.
    + destruct c; simpl; by rewrite ?Hcw.
    + unfold check_win in Hcw. by rewrite Hget in Hcw.
  - unfold heuristic_evaluation. simpl.
    rewrite !player_score_sum. lia.
Qed.

Lemma evaluate_spec_witness :
  board_wf board_five ∧ board_wf board_opening ∧
  evaluate board_five = Ok (-10000, board_five) ∧
  evaluate board_opening
    = Ok (heuristic_evaluation board_opening, board_opening) ∧
  heuristic_evaluation board_five
    = position_sum board_five PlayerO (grid_cells board_five)
      - position_sum board_five PlayerX (grid_cells board_five)
      - 50 * (3 - 3) + 50 * (3 - 3).
Proof.
  split; [exact board_wf_five|]. split; [exact board_wf_opening|].
  pose proof (evaluate_spec board_five board_wf_five) as (_ & Hx & _ & Hh).
  pose proof (evaluate_spec board_opening board_wf_opening)
    as (_ & _ & Hother & _).
  split; [|split].
  - apply (Hx 5 6); reflexivity.
  - apply Hother. right. exists 5, 5. split; reflexivity.
  - exact Hh.
Defined.

(** ** Move enumeration *)

Lemma elem_of_range (n k : Z) : k ∈ range n ↔ 0 ≤ k < n.
Proof. unfold range. rewrite elem_of_seqZ. lia. Qed.

Lemma elem_of_flat_map {A B : Type} (f : A → list B) (l : list A) (b : B) :
  b ∈ flat_map f l ↔ ∃ a, a ∈ l ∧ b ∈ f a.
Proof.
  rewrite list_elem_of_In, in_flat_map. split.
  - intros (a & Ha & Hb). exists a. by rewrite !list_elem_of_In.
  - intros (a & Ha & Hb). exists a. by rewrite <- !list_elem_of_In.
Qed.

Lemma elem_of_cells_holding (s : GameBoard) (c : Cell) (action : Action)
    (m : Move) :
  m ∈ cells_holding s c action ↔
  ∃ x y, m = (action, x, y) ∧ in_bounds s x y = true ∧
         cell_at (board s) x y = c.
Proof.
  unfold cells_holding. rewrite elem_of_flat_map. split.
  - intros (x & Hx%elem_of_range & Hm).
    apply elem_of_flat_map in Hm as (y & Hy%elem_of_range & Hm).
    destruct (bool_decide (cell_at (board s) x y = c)) eqn:Hc;
      [|by apply elem_of_nil in Hm].
    apply list_elem_of_singleton in Hm. apply bool_decide_eq_true in Hc.
    exists x, y. split_and!; [done| |done]. by apply in_bounds_spec.
  - intros (x & y & -> & [Hx Hy]%in_bounds_spec & Hc).
    exists x. split; [by apply elem_of_range|].
    apply elem_of_flat_map. exists y. split; [by apply elem_of_range|].
    rewrite bool_decide_eq_true_2 by done. by apply list_elem_of_singleton.
Qed.

(** The first loop of [get_valid_moves] only adds placements, on Empty
    cells of the grid. *)
Lemma elem_of_place_candidates (s : GameBoard) (m : Move) :
  m ∈ place_candidates s →
  ∃ x y, m = (Place, x, y) ∧ in_bounds s x y = true ∧
         cell_at (board s) x y = Empty.
Proof.
  unfold place_candidates.
  intros (x & _ & Hm)%elem_of_flat_map.
  apply elem_of_flat_map in Hm as (y & _ & Hm).
  destruct (_ && _); [|by apply elem_of_nil in Hm].
  apply elem_of_flat_map in Hm as (dx & _ & Hm).
  apply elem_of_flat_map in Hm as (dy & _ & Hm). simpl in Hm.
  destruct (in_bounds s (x + dx) (y + dy)) eqn:Hin; simpl in Hm;
    [|by apply elem_of_nil in Hm].
  destruct (bool_decide _) eqn:Hc; [|by apply elem_of_nil in Hm].
  apply list_elem_of_singleton in Hm. apply bool_decide_eq_true in Hc.
  by exists (x + dx), (y + dy).
Qed.

Lemma first_seen_order_elem (l : list Move) (m : Move) :
  m ∈ first_seen_order l ↔ m ∈ l.
Proof. apply elem_of_remove_dups. Qed.

(** ** Boards reached by the trials *)

Lemma elem_of_grid_cells (s : GameBoard) (x y : Z) :
  (x, y) ∈ grid_cells s ↔ in_bounds s x y = true.
Proof.
  unfold grid_cells. rewrite elem_of_flat_map, in_bounds_spec. split.
  - intros (x' & Hx%elem_of_range & Hy).
    apply list_elem_of_fmap in Hy as (y' & [= -> ->] & Hy%elem_of_range).
    done.
  - intros [Hx Hy]. exists x. split; [by apply elem_of_range|].
    apply list_elem_of_fmap. exists y. split; [done|by apply elem_of_range].
Qed.

Lemma place_candidates_ext (s t : GameBoard) :
  size t = size s → board t = board s →
  place_candidates t = place_candidates s.
Proof.
  intros Hsize Hboard. unfold place_candidates, in_bounds.
  by rewrite Hsize, Hboard.
Qed.

Lemma fallback_ok_ext (s t : GameBoard) :
  size t = size s → board t = board s → fallback_ok t = fallback_ok s.
Proof.
  intros Hsize Hboard. unfold fallback_ok.
  by rewrite (place_candidates_ext s t Hsize Hboard), Hsize, Hboard.
Qed.

Lemma fallback_ok_centre (s : GameBoard) :
  board_wf s → fallback_ok s = true → place_candidates s = [] →
  in_bounds s (Z.div (size s) 2) (Z.div (size s) 2) = true ∧
  cell_at (board s) (Z.div (size s) 2) (Z.div (size s) 2) = Empty.
Proof.
  intros Hwf Hok Hpc. unfold fallback_ok in Hok. rewrite Hpc in Hok.
  set (c := Z.div (size s) 2) in *.
  destruct (getitem (board s) c c) as [[]|] eqn:Hget; try done.
  assert (0 ≤ size s) as Hsize by (destruct Hwf as [<- _]; lia).
  assert (0 ≤ c) as Hc by (subst c; apply Z.div_pos; lia).
  assert (c < size s) as Hlt.
  { destruct Hwf as [Hlen _]. unfold getitem, py_index in Hget.
    rewrite Hlen in Hget.
    destruct (bool_decide (0 ≤ c < size s)) eqn:H1;
      [apply bool_decide_eq_true in H1; lia|].
    rewrite (bool_decide_eq_false_2 (- size s ≤ c < 0)) in Hget by lia.
    done. }
  assert (in_bounds s c c = true) as Hin by (apply in_bounds_spec; lia).
  split; [done|].
  rewrite (getitem_cell_at s c c Hwf Hin) in Hget. by injection Hget.
Qed.

Lemma is_terminal_state (s : GameBoard) (b : bool) (s' : GameBoard) :
  is_terminal s = Ok (b, s') → s' = s.
Proof.
  unfold is_terminal. destruct (last_move s) as [[lx ly]|]; [|congruence].
  destruct (check_win lx ly false s) as [[w s1]|] eqn:Hcw; [|done].
  apply check_win_no_update in Hcw as ->. destruct w; congruence.
Qed.

Section Enumeration.

Variable list_of_set : list Move → list Move.
Hypothesis list_of_set_elem : ∀ l m, m ∈ list_of_set l ↔ m ∈ l.

(** The moves of the set are placements; all of them target an Empty
    cell of the grid, except possibly the centre taken when the first
    loop found nothing. *)
Lemma set_moves_are_places (s : GameBoard) (m : Move) :
  m ∈ list_of_set
        match place_candidates s with
        | [] => [(Place, Z.div (size s) 2, Z.div (size s) 2)]
        | _ => place_candidates s
        end →
  ∃ x y, m = (Place, x, y).
Proof.
  rewrite list_of_set_elem.
  destruct (place_candidates s) as [|m0 l] eqn:Hpc.
  - intros ->%list_elem_of_singleton. eauto.
  - rewrite <- Hpc. intros (x & y & -> & _)%elem_of_place_candidates.
    eauto.
Qed.

(** The enumeration always offers a placement. *)
Lemma get_valid_moves_has_place (include_blocks include_removes : bool)
    (s : GameBoard) :
  ∃ x y, (Place, x, y) ∈ get_valid_moves list_of_set include_blocks
                           include_removes s.
Proof.
  assert (∃ x y, (Place, x, y) ∈ list_of_set
            match place_candidates s with
            | [] => [(Place, Z.div (size s) 2, Z.div (size s) 2)]
            | _ => place_candidates s
            end) as (x & y & Hin).
  { destruct (place_candidates s) as [|m0 l] eqn:Hpc.
    - eexists _, _. apply list_of_set_elem, list_elem_of_singleton.
      reflexivity.
    - assert (m0 ∈ place_candidates s) as Hm0
        by (rewrite Hpc; apply list_elem_of_here).
      destruct (elem_of_place_candidates s m0 Hm0) as (x & y & -> & _).
      exists x, y. apply list_of_set_elem. rewrite <- Hpc. done. }
  exists x, y. unfold get_valid_moves.
  repeat (match goal with
          | |- context [if ?b then _ else _] => destruct b
          end; rewrite ?elem_of_app; auto).
Qed.

(** The removals listed by [get_valid_moves(include_removes=True)]:
    one for each cell held by the opponent of the player to move,
    provided that player has a power move left.  [turn_count] plays no
    part. *)
Lemma remove_in_get_valid_moves (include_blocks : bool) (s : GameBoard)
    (x y : Z) :
  (Remove, x, y) ∈ get_valid_moves list_of_set include_blocks true s ↔
  0 < mover_power_moves_remaining s ∧ in_bounds s x y = true ∧
  cell_at (board s) x y = piece (other (turn s)).
Proof.
  unfold get_valid_moves, mover_power_moves_remaining.
  set (set_moves := list_of_set _).
  assert ((Remove, x, y) ∉ set_moves) as Hset.
  { intros (x' & y' & Heq)%set_moves_are_places. done. }
  assert (∀ c, (Remove, x, y) ∉ cells_holding s c Block) as Hblk.
  { intros c (x' & y' & Heq & _)%elem_of_cells_holding. done. }
  assert ((Remove, x, y) ∈ cells_holding s (piece (other (turn s))) Remove
          ↔ in_bounds s x y = true
            ∧ cell_at (board s) x y = piece (other (turn s))) as Hrem.
  { rewrite elem_of_cells_holding. split.
    - intros (x' & y' & [= -> ->] & H). done.
    - intros H. by exists x, y. }
  assert (∀ l, (Remove, x, y) ∈
            (if include_blocks
             then if bool_decide (turn s = TurnX)
                     && bool_decide (0 < user_blocks_remaining s)
                  then l ++ cells_holding s Empty Block
                  else if bool_decide (turn s = TurnO)
                          && bool_decide (0 < ai_blocks_remaining s)
                  then l ++ cells_holding s Empty Block
                  else l
             else l) ↔ (Remove, x, y) ∈ l) as Hskip.
  { intros l. destruct include_blocks; [|done].
    specialize (Hblk Empty).
    repeat (match goal with
            | |- context [if ?b then _ else _] => destruct b
            end; rewrite ?elem_of_app); tauto. }
  cbv zeta.
  destruct (bool_decide (turn s = TurnX)
            && bool_decide (0 < user_power_moves_remaining s)) eqn:H1.
  { apply andb_true_iff in H1 as [HtX%bool_decide_eq_true
                                  Hp%bool_decide_eq_true].
    rewrite elem_of_app, Hskip, Hrem, HtX. tauto. }
  destruct (bool_decide (turn s = TurnO)
            && bool_decide (0 < ai_power_moves_remaining s)) eqn:H2.
  { apply andb_true_iff in H2 as [HtO%bool_decide_eq_true
                                  Hp%bool_decide_eq_true].
    rewrite elem_of_app, Hskip, Hrem, HtO. tauto. }
  rewrite Hskip.
  apply andb_false_iff in H1, H2.
  rewrite !bool_decide_eq_false in H1, H2.
  split; [tauto|]. intros (Hp & _).
  destruct (turn s); [destruct H1|destruct H2]; done.
Qed.

(** Where an enumerated move comes from. *)
Lemma elem_of_get_valid_moves (include_blocks include_removes : bool)
    (s : GameBoard) (m : Move) :
  m ∈ get_valid_moves list_of_set include_blocks include_removes s →
  m ∈ list_of_set
        match place_candidates s with
        | [] => [(Place, Z.div (size s) 2, Z.div (size s) 2)]
        | _ => place_candidates s
        end
  ∨ m ∈ cells_holding s Empty Block
  ∨ m ∈ cells_holding s (piece (other (turn s))) Remove.
Proof.
  unfold get_valid_moves. cbv zeta.
  repeat (match goal with
          | |- context [if ?b then _ else _] => destruct b
          end; rewrite ?elem_of_app); tauto.
Qed.

(** On a well-formed board whose centre fallback is sound, every
    enumerated move is on the grid; a Place or a Block targets an Empty
    cell and a Remove a piece. *)
Lemma enumerated_moves_in_bounds (include_blocks include_removes : bool)
    (s : GameBoard) (action : Action) (x y : Z) :
  board_wf s → fallback_ok s = true →
  (action, x, y)
    ∈ get_valid_moves list_of_set include_blocks include_removes s →
  in_bounds s x y = true ∧
  match action with
  | Remove => cell_at (board s) x y = PlayerX
              ∨ cell_at (board s) x y = PlayerO
  | _ => cell_at (board s) x y = Empty
  end.
Proof.
  intros Hwf Hok [Hset | [Hblk | Hrem]]%elem_of_get_valid_moves.
  - apply (proj1 (list_of_set_elem _ _)) in Hset.
    destruct (place_candidates s) as [|m0 l] eqn:Hpc.
    + apply list_elem_of_singleton in Hset as [= -> -> ->].
      by apply fallback_ok_centre.
    + rewrite <- Hpc in Hset.
      by apply elem_of_place_candidates
        in Hset as (x' & y' & [= -> -> ->] & Hin & Hc).
  - by apply elem_of_cells_holding
      in Hblk as (x' & y' & [= -> -> ->] & Hin & Hc).
  - apply elem_of_cells_holding
      in Hrem as (x' & y' & [= -> -> ->] & Hin & Hc).
    split; [done|]. rewrite Hc. destruct (turn s); simpl; auto.
Qed.

End Enumeration.

(** ** The search *)

(** A candidate that meets one of the filters is passed over: nothing is
    written and the search is not called. *)
Lemma max_trial_skip (rec : search) (alpha beta : ext) (move : Move)
    (s : GameBoard) :
  max_skips s move = true → max_trial rec alpha beta move s = Ok (None, s).
Proof.
  destruct move as [[action x] y]. unfold max_skips, max_trial.
  destruct (is_last_removed s x y); [done|].
  destruct (bool_decide (turn_count s < 10)),
           (bool_decide (ai_blocks_remaining s ≤ 0)),
           (bool_decide (ai_power_moves_remaining s ≤ 0)), action;
    simpl; done.
Qed.

Lemma max_loop_all_skipped (rec : search) (moves : list Move)
    (max_eval alpha beta : ext) (s : GameBoard) :
  (∀ m, m ∈ moves → max_skips s m = true) →
  max_loop rec moves max_eval alpha beta s = Ok (max_eval, s).
Proof.
  induction moves as [|m moves IH]; intros Hall; simpl; [done|].
  rewrite max_trial_skip by apply Hall, list_elem_of_here.
  apply IH. intros m' Hm'. by apply Hall, list_elem_of_further.
Qed.

Lemma restore_power_moves_id (s : GameBoard) :
  set_user_power_moves_remaining (user_power_moves_remaining s)
    (set_ai_power_moves_remaining (ai_power_moves_remaining s) s) = s.
Proof. by destruct s. Qed.

(** [evaluate] does not change the object. *)
Lemma evaluate_state (s : GameBoard) (v : Z) (s' : GameBoard) :
  evaluate s = Ok (v, s') → s' = s.
Proof.
  unfold evaluate. destruct (last_move s) as [[lx ly]|]; [|congruence].
  destruct (getitem (board s) lx ly) as [c|]; [|done].
  destruct (bool_decide (c = PlayerO)).
  - destruct (check_win lx ly false s) as [[w s1]|] eqn:Hcw; [|done].
    apply check_win_no_update in Hcw as ->.
    destruct w; [congruence|].
    destruct (bool_decide (c = PlayerX)); [|congruence].
    destruct (check_win lx ly false s) as [[w s1]|] eqn:Hcw; [|done].
    apply check_win_no_update in Hcw as ->. destruct w; congruence.
  - destruct (bool_decide (c = PlayerX)); [|congruence].
    destruct (check_win lx ly false s) as [[w s1]|] eqn:Hcw; [|done].
    apply check_win_no_update in Hcw as ->. destruct w; congruence.
Qed.

Lemma restores_minimax_0 (list_of_set : list Move → list Move) :
  restores (minimax list_of_set 0).
Proof.
  intros alpha beta maximizing t v t'. simpl. unfold evaluate_node.
  destruct (evaluate t) as [[z t1]|] eqn:Hev; [|done].
  apply evaluate_state in Hev as ->. by intros [= _ ->].
Qed.

(** What [restores] says field by field. *)
Lemma set_last_move_None_eq (t t' : GameBoard) :
  set_last_move None t' = set_last_move None t →
  t' = set_last_move (last_move t') t.
Proof. destruct t, t'. unfold set_last_move. simpl. by intros [= -> -> -> -> -> -> -> -> -> -> -> ->]. Qed.

(** The end of each branch of a trial: the recursive call has returned in
    [Hrec], after [v] was written, and the undo statements are in the
    goal. *)
Ltac undo_statements s v Hrestores Hget Hset Hrec :=
  apply Hrestores in Hrec;
    [|split; [reflexivity|exists v; split; [simpl; auto|exact Hset]]];
  apply set_last_move_None_eq in Hrec;
  rewrite Hrec; cbn [board set_last_move set_board set_turn_count
                     set_ai_blocks_remaining set_user_blocks_remaining
                     set_ai_power_moves_remaining
                     set_user_power_moves_remaining];
  rewrite (setitem_restore _ _ _ _ _ _ Hget Hset);
  intros [= <- <-]; split; [done|];
  destruct s as [sz tg bd tr lm go ub ab up ap ws lr tc];
  cbv [set_last_move set_board set_turn_count set_ai_blocks_remaining
       set_user_blocks_remaining set_ai_power_moves_remaining
       set_user_power_moves_remaining
       size target board turn last_move game_over user_blocks_remaining
       ai_blocks_remaining user_power_moves_remaining
       ai_power_moves_remaining winning_sequence last_removed_tile
       turn_count];
  f_equal; lia.

(** A trial move at a coordinate that indexes the grid, on an Empty cell
    if the move is a Place or a Block, around a nested search that hands
    back, up to [last_move], the boards one write away from [s]: the apply
    statements followed by the undo statements give every attribute back
    except [last_move]. *)
Lemma trial_restores_on (rec : search) (alpha beta : ext)
    (action : Action) (x y : Z) (s : GameBoard) (c : Cell) :
  (∀ a b mx t v t',
     one_write action x y s t → rec a b mx t = Ok (v, t') →
     set_last_move None t' = set_last_move None t) →
  getitem (board s) x y = Ok c →
  (action ≠ Remove → c = Empty) →
  (∀ r s', max_trial rec alpha beta (action, x, y) s = Ok (r, s') →
           (r = None → s' = s) ∧
           set_last_move None s' = set_last_move None s) ∧
  (∀ r s', min_trial rec alpha beta (action, x, y) s = Ok (r, s') →
           (r = None → s' = s) ∧
           set_last_move None s' = set_last_move None s).
Proof.
  intros Hrestores Hget Hempty. split; intros r s'.
  - unfold max_trial.
    destruct (is_last_removed s x y); [by intros [= <- <-]|].
    destruct (_ && _); [by intros [= <- <-]|].
    destruct action.
    + rewrite (Hempty ltac:(done)) in Hget.
      destruct (setitem (board s) x y PlayerO) as [b1|] eqn:Hset; [|done].
      cbn [mbind result_bind].
      destruct (rec _ _ _ _) as [[eval t]|] eqn:Hrec; [|done].
      undo_statements s PlayerO Hrestores Hget Hset Hrec.
    + rewrite (Hempty ltac:(done)) in Hget.
      destruct (bool_decide _); [by intros [= <- <-]|].
      destruct (setitem (board s) x y Blocked) as [b1|] eqn:Hset; [|done].
      cbn [mbind result_bind].
      destruct (rec _ _ _ _) as [[eval t]|] eqn:Hrec; [|done].
      undo_statements s Blocked Hrestores Hget Hset Hrec.
    + destruct (bool_decide _); [by intros [= <- <-]|].
      rewrite Hget. cbn [mbind result_bind].
      destruct (setitem (board s) x y Empty) as [b1|] eqn:Hset; [|done].
      cbn [mbind result_bind].
      destruct (rec _ _ _ _) as [[eval t]|] eqn:Hrec; [|done].
      undo_statements s Empty Hrestores Hget Hset Hrec.
  - unfold min_trial.
    destruct action.
    + rewrite (Hempty ltac:(done)) in Hget.
      destruct (setitem (board s) x y PlayerX) as [b1|] eqn:Hset; [|done].
      cbn [mbind result_bind].
      destruct (rec _ _ _ _) as [[eval t]|] eqn:Hrec; [|done].
      undo_statements s PlayerX Hrestores Hget Hset Hrec.
    + rewrite (Hempty ltac:(done)) in Hget.
      destruct (bool_decide _); [by intros [= <- <-]|].
      destruct (setitem (board s) x y Blocked) as [b1|] eqn:Hset; [|done].
      cbn [mbind result_bind].
      destruct (rec _ _ _ _) as [[eval t]|] eqn:Hrec; [|done].
      undo_statements s Blocked Hrestores Hget Hset Hrec.
    + destruct (bool_decide _); [by intros [= <- <-]|].
      rewrite Hget. cbn [mbind result_bind].
      destruct (setitem (board s) x y Empty) as [b1|] eqn:Hset; [|done].
      cbn [mbind result_bind].
      destruct (rec _ _ _ _) as [[eval t]|] eqn:Hrec; [|done].
      undo_statements s Empty Hrestores Hget Hset Hrec.
Qed.

(** The same around any nested search that hands every board back. *)
Lemma trial_restores_at (rec : search) (alpha beta : ext)
    (action : Action) (x y : Z) (s : GameBoard) (c : Cell) :
  restores rec → getitem (board s) x y = Ok c →
  (action ≠ Remove → c = Empty) →
  (∀ r s', max_trial rec alpha beta (action, x, y) s = Ok (r, s') →
           (r = None → s' = s) ∧
           set_last_move None s' = set_last_move None s) ∧
  (∀ r s', min_trial rec alpha beta (action, x, y) s = Ok (r, s') →
           (r = None → s' = s) ∧
           set_last_move None s' = set_last_move None s).
Proof.
  intros Hrestores. apply trial_restores_on.
  intros a b mx t v t' _. apply Hrestores.
Qed.

(** C1, as stated, fails on [last_move]: after the engine tries a Place
    at [(4, 4)] in answer to the opening move at [(5, 5)], the apply and
    undo statements leave [last_move] at [(4, 4)], and the statement that
    follows them sets it to [None]; it held [(5, 5)] before. *)
Lemma trial_loses_last_move :
  ∃ v s',
    max_trial (minimax first_seen_order 0) NegInf PosInf (Place, 4, 4)
      board_opening = Ok (Some v, s') ∧
    last_move board_opening = Some (5, 5) ∧
    last_move s' = Some (4, 4) ∧
    last_move (set_last_move None s') = None.
Proof.
  eexists _, _. split; [vm_compute; reflexivity|].
  split; [reflexivity|]. split; reflexivity.
Qed.

(** A trial at a maximizing node consults the nested search in the
    minimizing role only, whatever the move; a trial at a minimizing node
    in the maximizing role only. *)
Lemma max_trial_calls_minimizing (rec rec' : search) (alpha beta : ext)
    (m : Move) (s : GameBoard) :
  (∀ a b t, rec a b false t = rec' a b false t) →
  max_trial rec alpha beta m s = max_trial rec' alpha beta m s.
Proof.
  intros Hrec. destruct m as [[action x] y]. unfold max_trial.
  destruct (is_last_removed s x y); [done|].
  destruct (_ && _); [done|].
  destruct action.
  - destruct (setitem (board s) x y PlayerO); [|done].
    cbn [mbind result_bind]. by rewrite Hrec.
  - destruct (bool_decide _); [done|].
    destruct (setitem (board s) x y Blocked); [|done].
    cbn [mbind result_bind]. by rewrite Hrec.
  - destruct (bool_decide _); [done|].
    destruct (getitem (board s) x y); [|done]. cbn [mbind result_bind].
    destruct (setitem (board s) x y Empty); [|done].
    cbn [mbind result_bind]. by rewrite Hrec.
Qed.

Lemma min_trial_calls_maximizing (rec rec' : search) (alpha beta : ext)
    (m : Move) (s : GameBoard) :
  (∀ a b t, rec a b true t = rec' a b true t) →
  min_trial rec alpha beta m s = min_trial rec' alpha beta m s.
Proof.
  intros Hrec. destruct m as [[action x] y]. unfold min_trial.
  destruct action.
  - destruct (setitem (board s) x y PlayerX); [|done].
    cbn [mbind result_bind]. by rewrite Hrec.
  - destruct (bool_decide _); [done|].
    destruct (setitem (board s) x y Blocked); [|done].
    cbn [mbind result_bind]. by rewrite Hrec.
  - destruct (bool_decide _); [done|].
    destruct (getitem (board s) x y); [|done]. cbn [mbind result_bind].
    destruct (setitem (board s) x y Empty); [|done].
    cbn [mbind result_bind]. by rewrite Hrec.
Qed.

Lemma set_last_move_twice (a b : option (Z * Z)) (s : GameBoard) :
  set_last_move a (set_last_move b s) = set_last_move a s.
Proof. reflexivity. Qed.

Lemma board_wf_ext (s t : GameBoard) :
  size t = size s → board t = board s → board_wf s → board_wf t.
Proof. unfold board_wf. by intros -> ->. Qed.

Lemma same_but_last_move_fields (s s' : GameBoard) :
  set_last_move None s' = set_last_move None s →
  size s' = size s ∧ board s' = board s.
Proof.
  intros Heq. split.
  - by apply (f_equal size) in Heq.
  - by apply (f_equal board) in Heq.
Qed.

(** A board one write away from a well-formed board is well formed. *)
Lemma one_write_wf (s cur t : GameBoard) (action : Action) (x y : Z) :
  board_wf s → size cur = size s → board cur = board s →
  in_bounds s x y = true → one_write action x y cur t → board_wf t.
Proof.
  intros Hwf Hsize Hboard Hin (Hsz & v & Hv & Hset).
  rewrite Hboard, (setitem_set_cell s x y v Hwf Hin) in Hset.
  injection Hset as Hset.
  apply (board_wf_ext (with_cell x y v s) t); [simpl; congruence|done|].
  by apply set_cell_wf.
Qed.

(** A trial, a loop and a node consult the nested search through the
    results it returns: they return the same with any search that returns
    at least the same. *)
Lemma max_trial_mono (rec rec' : search) (alpha beta : ext) (m : Move)
    (s : GameBoard) (r : option ext * GameBoard) :
  (∀ a b mx t q, rec a b mx t = Ok q → rec' a b mx t = Ok q) →
  max_trial rec alpha beta m s = Ok r → max_trial rec' alpha beta m s = Ok r.
Proof.
  intros Hrec. destruct m as [[action x] y]. unfold max_trial.
  destruct (is_last_removed s x y); [done|].
  destruct (_ && _); [done|].
  destruct action.
  - destruct (setitem (board s) x y PlayerO); [|done].
    cbn [mbind result_bind].
    destruct (rec _ _ _ _) as [[eval t]|] eqn:Hcall; [|done].
    by rewrite (Hrec _ _ _ _ _ Hcall).
  - destruct (bool_decide _); [done|].
    destruct (setitem (board s) x y Blocked); [|done].
    cbn [mbind result_bind].
    destruct (rec _ _ _ _) as [[eval t]|] eqn:Hcall; [|done].
    by rewrite (Hrec _ _ _ _ _ Hcall).
  - destruct (bool_decide _); [done|].
    destruct (getitem (board s) x y); [|done]. cbn [mbind result_bind].
    destruct (setitem (board s) x y Empty); [|done].
    cbn [mbind result_bind].
    destruct (rec _ _ _ _) as [[eval t]|] eqn:Hcall; [|done].
    by rewrite (Hrec _ _ _ _ _ Hcall).
Qed.

Lemma min_trial_mono (rec rec' : search) (alpha beta : ext) (m : Move)
    (s : GameBoard) (r : option ext * GameBoard) :
  (∀ a b mx t q, rec a b mx t = Ok q → rec' a b mx t = Ok q) →
  min_trial rec alpha beta m s = Ok r → min_trial rec' alpha beta m s = Ok r.
Proof.
  intros Hrec. destruct m as [[action x] y]. unfold min_trial.
  destruct action.
  - destruct (setitem (board s) x y PlayerX); [|done].
    cbn [mbind result_bind].
    destruct (rec _ _ _ _) as [[eval t]|] eqn:Hcall; [|done].
    by rewrite (Hrec _ _ _ _ _ Hcall).
  - destruct (bool_decide _); [done|].
    destruct (setitem (board s) x y Blocked); [|done].
    cbn [mbind result_bind].
    destruct (rec _ _ _ _) as [[eval t]|] eqn:Hcall; [|done].
    by rewrite (Hrec _ _ _ _ _ Hcall).
  - destruct (bool_decide _); [done|].
    destruct (getitem (board s) x y); [|done]. cbn [mbind result_bind].
    destruct (setitem (board s) x y Empty); [|done].
    cbn [mbind result_bind].
    destruct (rec _ _ _ _) as [[eval t]|] eqn:Hcall; [|done].
    by rewrite (Hrec _ _ _ _ _ Hcall).
Qed.

Lemma max_loop_mono (rec rec' : search) (beta : ext) :
  (∀ a b mx t q, rec a b mx t = Ok q → rec' a b mx t = Ok q) →
  ∀ moves max_eval alpha s r,
    max_loop rec moves max_eval alpha beta s = Ok r →
    max_loop rec' moves max_eval alpha beta s = Ok r.
Proof.
  intros Hrec moves.
  induction moves as [|m moves IH]; intros max_eval alpha s r; simpl; [done|].
  destruct (max_trial rec alpha beta m s) as [[q s1]|] eqn:Htrial; [|done].
  rewrite (max_trial_mono rec rec' alpha beta m s _ Hrec Htrial).
  destruct q as [eval|]; [|apply IH].
  destruct (ext_le beta (py_max alpha eval)); [done|apply IH].
Qed.

Lemma min_loop_mono (rec rec' : search) (alpha : ext) :
  (∀ a b mx t q, rec a b mx t = Ok q → rec' a b mx t = Ok q) →
  ∀ moves min_eval beta s r,
    min_loop rec moves min_eval alpha beta s = Ok r →
    min_loop rec' moves min_eval alpha beta s = Ok r.
Proof.
  intros Hrec moves.
  induction moves as [|m moves IH]; intros min_eval beta s r; simpl; [done|].
  destruct (min_trial rec alpha beta m s) as [[q s1]|] eqn:Htrial; [|done].
  rewrite (min_trial_mono rec rec' alpha beta m s _ Hrec Htrial).
  destruct q as [eval|]; [|apply IH].
  destruct (ext_le (py_min beta eval) alpha); [done|apply IH].
Qed.

Lemma decision_loop_mono (rec rec' : search) :
  (∀ a b mx t q, rec a b mx t = Ok q → rec' a b mx t = Ok q) →
  ∀ moves best_score best_move s r,
    decision_loop rec moves best_score best_move s = Ok r →
    decision_loop rec' moves best_score best_move s = Ok r.
Proof.
  intros Hrec moves.
  induction moves as [|m moves IH]; intros best_score best_move s r; simpl;
    [done|].
  destruct (max_trial rec NegInf PosInf m s) as [[q s1]|] eqn:Htrial;
    [|done].
  rewrite (max_trial_mono rec rec' NegInf PosInf m s _ Hrec Htrial).
  destruct q as [score|]; [|apply IH].
  destruct (ext_lt best_score score); apply IH.
Qed.

(** A run of the guarded search that returns is a run of the search, with
    the same result. *)
Lemma minimax_checked_erase (list_of_set : list Move → list Move)
    (depth : nat) :
  ∀ alpha beta maximizing s r,
    minimax_checked list_of_set depth alpha beta maximizing s = Ok r →
    minimax list_of_set depth alpha beta maximizing s = Ok r.
Proof.
  induction depth as [|depth IH]; intros alpha beta maximizing s r; [done|].
  cbn [minimax_checked minimax].
  destruct (is_terminal s) as [[[|] s1]|]; [done| |done].
  destruct (fallback_ok s1); [|done].
  unfold minimax_node. destruct maximizing.
  - destruct (max_loop (minimax_checked _ _) _ _ _ _ _)
      as [[max_eval s2]|] eqn:Hloop; [|done].
    by rewrite (max_loop_mono _ (minimax list_of_set depth) beta IH _ _ _ _ _
                  Hloop).
  - destruct (min_loop (minimax_checked _ _) _ _ _ _ _)
      as [[min_eval s2]|] eqn:Hloop; [|done].
    by rewrite (min_loop_mono _ (minimax list_of_set depth) alpha IH _ _ _ _
                  _ Hloop).
Qed.

(** The guard does nothing else: the guarded search agrees with the search
    or is cut short. *)
Lemma minimax_checked_cases (list_of_set : list Move → list Move)
    (depth : nat) (alpha beta : ext) (maximizing : bool) (s : GameBoard) :
  minimax_checked list_of_set depth alpha beta maximizing s
  = minimax list_of_set depth alpha beta maximizing s
  ∨ minimax_checked list_of_set depth alpha beta maximizing s
    = Raise IndexError.
Proof.
  destruct (minimax_checked list_of_set depth alpha beta maximizing s)
    as [r|[]] eqn:Hchecked; [left|by right].
  symmetry. by apply minimax_checked_erase.
Qed.

Lemma ai_move_decision_checked_erase (list_of_set : list Move → list Move)
    (depth_minus_1 : nat) (s : GameBoard) (r : option Move * GameBoard) :
  ai_move_decision_checked list_of_set depth_minus_1 s = Ok r →
  ai_move_decision list_of_set depth_minus_1 s = Ok r.
Proof.
  unfold ai_move_decision_checked, ai_move_decision.
  destruct (fallback_ok s); [|done].
  apply decision_loop_mono, minimax_checked_erase.
Qed.

Section SearchProperties.

Variable list_of_set : list Move → list Move.
Hypothesis list_of_set_elem : ∀ l m, m ∈ list_of_set l ↔ m ∈ l.

(** One iteration of a search loop at a node whose centre fallback is
    sound: [s0] is the board on entry to the node, where the moves were
    enumerated, and [cur] the board at the start of the iteration. *)
Lemma trial_in_sound_node (rec : search) (alpha beta : ext)
    (s0 cur : GameBoard) (m : Move) :
  (∀ a b mx t v t',
     board_wf t → rec a b mx t = Ok (v, t') →
     set_last_move None t' = set_last_move None t) →
  board_wf s0 → fallback_ok s0 = true →
  set_last_move None cur = set_last_move None s0 →
  m ∈ get_valid_moves list_of_set true true s0 →
  (∀ r s', max_trial rec alpha beta m cur = Ok (r, s') →
           (r = None → s' = cur) ∧
           set_last_move None s' = set_last_move None cur) ∧
  (∀ r s', min_trial rec alpha beta m cur = Ok (r, s') →
           (r = None → s' = cur) ∧
           set_last_move None s' = set_last_move None cur).
Proof.
  intros Hrec Hwf Hok Hcur Hm. destruct m as [[action x] y].
  destruct (same_but_last_move_fields s0 cur Hcur) as [Hsize Hboard].
  destruct (enumerated_moves_in_bounds list_of_set list_of_set_elem true
              true s0 action x y Hwf Hok Hm) as [Hin Hcell].
  apply (trial_restores_on rec alpha beta action x y cur
           (cell_at (board s0) x y)).
  - intros a b mx t v t' Hwrite. apply Hrec.
    by apply (one_write_wf s0 cur t action x y).
  - rewrite Hboard. by apply getitem_cell_at.
  - intros Hne. by destruct action.
Qed.

Lemma max_loop_restores (rec : search) (s0 : GameBoard) (beta : ext) :
  (∀ a b mx t v t',
     board_wf t → rec a b mx t = Ok (v, t') →
     set_last_move None t' = set_last_move None t) →
  board_wf s0 → fallback_ok s0 = true →
  ∀ moves, (∀ m, m ∈ moves → m ∈ get_valid_moves list_of_set true true s0) →
  ∀ max_eval alpha cur v s',
    set_last_move None cur = set_last_move None s0 →
    max_loop rec moves max_eval alpha beta cur = Ok (v, s') →
    set_last_move None s' = set_last_move None s0.
Proof.
  intros Hrec Hwf Hok moves.
  induction moves as [|m moves IH]; intros Hmoves max_eval alpha cur v s' Hcur;
    simpl.
  { by intros [= _ <-]. }
  destruct (max_trial rec alpha beta m cur) as [[r s1]|] eqn:Htrial; [|done].
  destruct (trial_in_sound_node rec alpha beta s0 cur m Hrec Hwf Hok
              Hcur (Hmoves m (list_elem_of_here _ _))) as [Hmax _].
  destruct (Hmax r s1 Htrial) as [Hnone Hs1].
  assert (∀ m', m' ∈ moves →
                m' ∈ get_valid_moves list_of_set true true s0) as Hrest
    by (intros m' Hm'; by apply Hmoves, list_elem_of_further).
  destruct r as [eval|].
  - assert (set_last_move None (set_last_move None s1)
            = set_last_move None s0) as Hs2
      by (rewrite set_last_move_twice; congruence).
    destruct (ext_le beta (py_max alpha eval)).
    + by intros [= _ <-].
    + by apply IH.
  - rewrite (Hnone eq_refl). by apply IH.
Qed.

Lemma min_loop_restores (rec : search) (s0 : GameBoard) (alpha : ext) :
  (∀ a b mx t v t',
     board_wf t → rec a b mx t = Ok (v, t') →
     set_last_move None t' = set_last_move None t) →
  board_wf s0 → fallback_ok s0 = true →
  ∀ moves, (∀ m, m ∈ moves → m ∈ get_valid_moves list_of_set true true s0) →
  ∀ min_eval beta cur v s',
    set_last_move None cur = set_last_move None s0 →
    min_loop rec moves min_eval alpha beta cur = Ok (v, s') →
    set_last_move None s' = set_last_move None s0.
Proof.
  intros Hrec Hwf Hok moves.
  induction moves as [|m moves IH]; intros Hmoves min_eval beta cur v s' Hcur;
    simpl.
  { by intros [= _ <-]. }
  destruct (min_trial rec alpha beta m cur) as [[r s1]|] eqn:Htrial; [|done].
  destruct (trial_in_sound_node rec alpha beta s0 cur m Hrec Hwf Hok
              Hcur (Hmoves m (list_elem_of_here _ _))) as [_ Hmin].
  destruct (Hmin r s1 Htrial) as [Hnone Hs1].
  assert (∀ m', m' ∈ moves →
                m' ∈ get_valid_moves list_of_set true true s0) as Hrest
    by (intros m' Hm'; by apply Hmoves, list_elem_of_further).
  destruct r as [eval|].
  - assert (set_last_move None (set_last_move None s1)
            = set_last_move None s0) as Hs2
      by (rewrite set_last_move_twice; congruence).
    destruct (ext_le (py_min beta eval) alpha).
    + by intros [= _ <-].
    + by apply IH.
  - rewrite (Hnone eq_refl). by apply IH.
Qed.

(** The statements that put the two power-move counters back after the
    loop change nothing on a board that already agrees with the entry
    board. *)
Lemma restore_power_moves_same (s s2 : GameBoard) :
  set_last_move None s2 = set_last_move None s →
  set_last_move None
    (set_user_power_moves_remaining (user_power_moves_remaining s)
       (set_ai_power_moves_remaining (ai_power_moves_remaining s) s2))
  = set_last_move None s.
Proof.
  intros ->%set_last_move_None_eq.
  by destruct s as [sz tg bd tr lm go ub ab up ap ws lr tc].
Qed.

(** A run of the guarded search that returns hands the object back, up to
    [last_move], from any well-formed board. *)
Lemma minimax_checked_restores (depth : nat) :
  ∀ alpha beta maximizing s v s',
    board_wf s →
    minimax_checked list_of_set depth alpha beta maximizing s = Ok (v, s') →
    set_last_move None s' = set_last_move None s.
Proof.
  induction depth as [|depth IH]; intros alpha beta maximizing s v s' Hwf.
  { exact (restores_minimax_0 list_of_set alpha beta maximizing s v s'). }
  cbn [minimax_checked].
  destruct (is_terminal s) as [[term s1]|] eqn:Hterm; [|done].
  apply is_terminal_state in Hterm as ->.
  destruct term.
  { apply (restores_minimax_0 list_of_set alpha beta maximizing). }
  destruct (fallback_ok s) eqn:Hok; [|done].
  unfold minimax_node. destruct maximizing.
  - destruct (max_loop _ _ _ _ _ _) as [[max_eval s2]|] eqn:Hloop; [|done].
    intros [= _ <-]. apply restore_power_moves_same.
    by apply (max_loop_restores (minimax_checked list_of_set depth) s beta
                IH Hwf Hok _ (λ m Hm, Hm) NegInf alpha s max_eval s2).
  - destruct (min_loop _ _ _ _ _ _) as [[min_eval s2]|] eqn:Hloop; [|done].
    intros [= _ <-]. apply restore_power_moves_same.
    by apply (min_loop_restores (minimax_checked list_of_set depth) s alpha
                IH Hwf Hok _ (λ m Hm, Hm) PosInf beta s min_eval s2).
Qed.

Lemma decision_loop_restores (rec : search) (s0 : GameBoard) :
  (∀ a b mx t v t',
     board_wf t → rec a b mx t = Ok (v, t') →
     set_last_move None t' = set_last_move None t) →
  board_wf s0 → fallback_ok s0 = true →
  ∀ moves, (∀ m, m ∈ moves → m ∈ get_valid_moves list_of_set true true s0) →
  ∀ best_score best_move cur v s',
    set_last_move None cur = set_last_move None s0 →
    decision_loop rec moves best_score best_move cur = Ok (v, s') →
    set_last_move None s' = set_last_move None s0.
Proof.
  intros Hrec Hwf Hok moves.
  induction moves as [|m moves IH];
    intros Hmoves best_score best_move cur v s' Hcur; simpl.
  { by intros [= _ <-]. }
  destruct (max_trial rec NegInf PosInf m cur) as [[r s1]|] eqn:Htrial;
    [|done].
  destruct (trial_in_sound_node rec NegInf PosInf s0 cur m Hrec Hwf
              Hok Hcur (Hmoves m (list_elem_of_here _ _))) as [Hmax _].
  destruct (Hmax r s1 Htrial) as [Hnone Hs1].
  assert (∀ m', m' ∈ moves →
                m' ∈ get_valid_moves list_of_set true true s0) as Hrest
    by (intros m' Hm'; by apply Hmoves, list_elem_of_further).
  destruct r as [score|].
  - assert (set_last_move None (set_last_move None s1)
            = set_last_move None s0) as Hs2
      by (rewrite set_last_move_twice; congruence).
    destruct (ext_lt best_score score); by apply IH.
  - rewrite (Hnone eq_refl). by apply IH.
Qed.

(** A run of the guarded [ai_move_decision] that returns hands the object
    back, up to [last_move], from any well-formed board. *)
Lemma ai_move_decision_checked_restores (depth_minus_1 : nat)
    (s : GameBoard) (best : option Move) (s' : GameBoard) :
  board_wf s →
  ai_move_decision_checked list_of_set depth_minus_1 s = Ok (best, s') →
  set_last_move None s' = set_last_move None s.
Proof.
  intros Hwf. unfold ai_move_decision_checked.
  destruct (fallback_ok s) eqn:Hok; [|done].
  by apply (decision_loop_restores (minimax_checked list_of_set depth_minus_1)
              s (minimax_checked_restores depth_minus_1) Hwf Hok _
              (λ m Hm, Hm) NegInf None s best s').
Qed.

(** C1 (as amended). Take a well-formed board at which [get_valid_moves]
    does not take the centre for want of a candidate while the centre is
    not Empty, and any move [(action, x, y)] that [get_valid_moves]
    enumerates there for a search loop (maximizing or minimizing branch of
    [minimax], and [ai_move_decision], whose loop body is that of the
    maximizing branch).  Whenever the trial of the move returns and its
    nested search has met no node at which [get_valid_moves] takes the
    centre on a non-Empty cell (the trial returns under the guarded
    search, and then returns the same under the search), the apply
    statements, the nested search and the paired undo statements give
    back the grid, the four counters [blocks_remaining] and
    [power_moves_remaining], [turn_count] and [last_removed_tile] (indeed
    every attribute) exactly as before the apply, except [last_move]: it
    is not put back but set to [None] by the statement
    [self.last_move = None] that follows the undo.  A candidate passed
    over by [continue] changes nothing at all. *)
Theorem trial_undo_restores (depth : nat) (alpha beta : ext)
    (action : Action) (x y : Z) (s : GameBoard) :
  board_wf s → fallback_ok s = true →
  (action, x, y) ∈ get_valid_moves list_of_set true true s →
  (∀ r s',
     max_trial (minimax_checked list_of_set depth) alpha beta
       (action, x, y) s = Ok (r, s') →
     max_trial (minimax list_of_set depth) alpha beta (action, x, y) s
       = Ok (r, s') ∧
     (r = None → s' = s) ∧
     set_last_move None s' = set_last_move None s) ∧
  (∀ r s',
     min_trial (minimax_checked list_of_set depth) alpha beta
       (action, x, y) s = Ok (r, s') →
     min_trial (minimax list_of_set depth) alpha beta (action, x, y) s
       = Ok (r, s') ∧
     (r = None → s' = s) ∧
     set_last_move None s' = set_last_move None s).
Proof.
  intros Hwf Hok Hin.
  destruct (trial_in_sound_node (minimax_checked list_of_set depth) alpha
              beta s s (action, x, y) (minimax_checked_restores depth) Hwf
              Hok eq_refl Hin) as [Hmax Hmin].
  split; intros r s' Htrial.
  - split; [|by apply Hmax].
    exact (max_trial_mono _ (minimax list_of_set depth) alpha beta _ s _
             (minimax_checked_erase list_of_set depth) Htrial).
  - split; [|by apply Hmin].
    exact (min_trial_mono _ (minimax list_of_set depth) alpha beta _ s _
             (minimax_checked_erase list_of_set depth) Htrial).
Qed.

(** C3 (as amended). While [turn_count < 10] no Remove is tried by the
    engine's own loops: the maximizing branch of [minimax] and
    [ai_move_decision] pass over every Remove candidate, writing nothing
    and not calling the search.  [get_valid_moves] itself does not look
    at [turn_count]: with [include_removes] it lists a Remove for each
    cell held by the opponent of the player to move as soon as that
    player's [power_moves_remaining] is positive. *)
Theorem early_removes_skipped_by_loops (s : GameBoard)
    (include_blocks : bool) (x y : Z) :
  board_wf s → turn_count s < 10 →
  (∀ rec alpha beta,
     max_trial rec alpha beta (Remove, x, y) s = Ok (None, s)) ∧
  ((Remove, x, y) ∈ get_valid_moves list_of_set include_blocks true s ↔
   0 < mover_power_moves_remaining s ∧ in_bounds s x y = true ∧
   cell_at (board s) x y = piece (other (turn s))).
Proof.
  intros _ Hearly. split.
  - intros rec alpha beta. apply max_trial_skip. unfold max_skips.
    rewrite (bool_decide_eq_true_2 (turn_count s < 10)) by done.
    rewrite (bool_decide_eq_true_2 (Remove = Remove)) by done.
    simpl. by rewrite orb_true_r.
  - by apply remove_in_get_valid_moves.
Qed.

(** C4 (as amended). At a node that is not terminal, with [depth >= 1],
    if every enumerated candidate is passed over by the loop of the
    maximizing branch (by the [last_removed_tile] filter, the
    early-remove filter or an exhausted counter), [minimax] returns
    [float('-inf')], the initial value of [max_eval], whatever the
    window, and leaves the object unchanged.  In the minimizing branch the
    case does not arise: the enumeration always holds a Place candidate,
    the trial of a Place in that branch never ends in [continue], whatever
    the board and the nested search, and so the loop of that branch cannot
    pass over every candidate. *)
Theorem no_move_explored_returns_neg_inf (depth : nat) (alpha beta : ext)
    (s : GameBoard) :
  is_terminal s = Ok (false, s) →
  (∀ m, m ∈ get_valid_moves list_of_set true true s →
        max_skips s m = true) →
  minimax list_of_set (S depth) alpha beta true s = Ok (NegInf, s) ∧
  (∃ x y, (Place, x, y) ∈ get_valid_moves list_of_set true true s) ∧
  (∀ rec a b x y t r t',
     min_trial rec a b (Place, x, y) t = Ok (r, t') → ∃ eval, r = Some eval) ∧
  (∀ rec a b,
     ¬ ∀ m, m ∈ get_valid_moves list_of_set true true s →
            ∃ t', min_trial rec a b m s = Ok (None, t')).
Proof.
  intros Hterm Hall.
  assert (∀ rec a b x y t r t',
            min_trial rec a b (Place, x, y) t = Ok (r, t') →
            ∃ eval, r = Some eval) as Hplace.
  { intros rec a b x y t r t'. unfold min_trial.
    destruct (setitem (board t) x y PlayerX) as [b1|]; [|done].
    cbn [mbind result_bind].
    destruct (rec _ _ _ _) as [[eval t1]|]; [|done].
    destruct (setitem (board t1) x y Empty) as [b2|]; [|done].
    cbn [mbind result_bind]. intros [= <- _]. by exists eval. }
  destruct (get_valid_moves_has_place list_of_set list_of_set_elem true true
              s) as (px & py & Hin).
  split_and!.
  - simpl. rewrite Hterm. unfold minimax_node.
    rewrite max_loop_all_skipped by done.
    by rewrite restore_power_moves_id.
  - by exists px, py.
  - exact Hplace.
  - intros rec a b Hskipped.
    destruct (Hskipped _ Hin) as [t' Htrial].
    by destruct (Hplace _ _ _ _ _ _ _ _ Htrial).
Qed.

(** C2 (as amended). When the move tried at a node is a Block, the
    recursive call at [depth - 1] is made in the opposite role, exactly
    as for a Place or a Remove: the value explored for a Block at a
    maximizing node of depth [depth + 1] is the value of the minimizing
    search of depth [depth] on the board with the block applied, and at
    a minimizing node it is the value of the maximizing search.  For
    every kind of move the trial of a maximizing node depends on the
    nested search through its minimizing role only, and the trial of a
    minimizing node through its maximizing role only. *)
Theorem block_recursion_flips_role (depth : nat) (alpha beta : ext)
    (x y : Z) (s : GameBoard) (b1 : list (list Cell)) :
  setitem (board s) x y Blocked = Ok b1 →
  (is_last_removed s x y = false → 0 < ai_blocks_remaining s →
   max_trial (minimax list_of_set depth) alpha beta (Block, x, y) s
   = match minimax list_of_set depth alpha beta false
             (set_ai_blocks_remaining (ai_blocks_remaining s - 1)
                (set_board b1 s)) with
     | Raise e => Raise e
     | Ok (eval, t) =>
         b ← setitem (board t) x y Empty;
         Ok (Some eval,
             set_ai_blocks_remaining (ai_blocks_remaining t + 1)
               (set_board b t))
     end) ∧
  (0 < user_blocks_remaining s →
   min_trial (minimax list_of_set depth) alpha beta (Block, x, y) s
   = match minimax list_of_set depth alpha beta true
             (set_user_blocks_remaining (user_blocks_remaining s - 1)
                (set_board b1 s)) with
     | Raise e => Raise e
     | Ok (eval, t) =>
         b ← setitem (board t) x y Empty;
         Ok (Some eval,
             set_user_blocks_remaining (user_blocks_remaining t + 1)
               (set_board b t))
     end) ∧
  (∀ rec' m,
     (∀ a b t, minimax list_of_set depth a b false t = rec' a b false t) →
     max_trial (minimax list_of_set depth) alpha beta m s
     = max_trial rec' alpha beta m s) ∧
  (∀ rec' m,
     (∀ a b t, minimax list_of_set depth a b true t = rec' a b true t) →
     min_trial (minimax list_of_set depth) alpha beta m s
     = min_trial rec' alpha beta m s).
Proof.
  intros Hset. split_and!.
  - intros Hlast Hblocks. unfold max_trial. rewrite Hlast, Hset.
    rewrite (bool_decide_eq_false_2 (Block = Remove)) by done.
    rewrite (bool_decide_eq_false_2 (ai_blocks_remaining s ≤ 0)) by lia.
    done.
  - intros Hblocks. unfold min_trial. rewrite Hset.
    rewrite (bool_decide_eq_false_2 (user_blocks_remaining s ≤ 0)) by lia.
    done.
  - intros rec' m. apply max_trial_calls_minimizing.
  - intros rec' m. apply min_trial_calls_maximizing.
Qed.

End SearchProperties.

Lemma trial_undo_restores_witness :
  board_wf board_opening ∧
  fallback_ok board_opening = true ∧
  (Place, 4, 4) ∈ get_valid_moves first_seen_order true true board_opening ∧
  ∃ v s',
    max_trial (minimax_checked first_seen_order 2) NegInf PosInf
      (Place, 4, 4) board_opening = Ok (Some v, s') ∧
    max_trial (minimax first_seen_order 2) NegInf PosInf (Place, 4, 4)
      board_opening = Ok (Some v, s') ∧
    set_last_move None s' = set_last_move None board_opening.
Proof.
  assert ((Place, 4, 4)
            ∈ get_valid_moves first_seen_order true true board_opening)
    as Hin.
  { apply list_elem_of_In. vm_compute. by left. }
  eassert (max_trial (minimax_checked first_seen_order 2) NegInf PosInf
             (Place, 4, 4) board_opening = Ok (Some _, _)) as Htrial
    by (vm_compute; reflexivity).
  split; [exact board_wf_opening|]. split; [reflexivity|].
  split; [exact Hin|].
  pose proof (trial_undo_restores first_seen_order first_seen_order_elem
                2 NegInf PosInf Place 4 4 board_opening board_wf_opening
                eq_refl Hin) as [Hmax _].
  destruct (Hmax _ _ Htrial) as (Hplain & _ & Hrestored).
  eexists _, _. split; [exact Htrial|]. split; [exact Hplain|].
  exact Hrestored.
Defined.

(** The centre taken for want of a candidate is not tested: on a board
    without a piece whose centre is Blocked, the trial of the Place at the
    centre overwrites the block and its undo leaves the cell Empty. *)
Remark centre_fallback_overwrites :
  let s := set_turn TurnO (with_cell 5 5 Blocked (init 10 5)) in
  ∃ v s',
    get_valid_moves first_seen_order false false s = [(Place, 5, 5)] ∧
    max_trial (minimax first_seen_order 0) NegInf PosInf (Place, 5, 5) s
      = Ok (Some v, s') ∧
    cell_at (board s) 5 5 = Blocked ∧ cell_at (board s') 5 5 = Empty.
Proof.
  eexists _, _. split; [vm_compute; reflexivity|].
  split; [vm_compute; reflexivity|]. split; reflexivity.
Qed.

Lemma early_removes_skipped_by_loops_witness :
  board_wf board_opening ∧ turn_count board_opening < 10 ∧
  max_trial (minimax first_seen_order 2) NegInf PosInf (Remove, 5, 5)
    board_opening = Ok (None, board_opening) ∧
  (Remove, 5, 5) ∈ get_valid_moves first_seen_order true true board_opening.
Proof.
  split; [exact board_wf_opening|]. split; [reflexivity|].
  pose proof (early_removes_skipped_by_loops first_seen_order
                first_seen_order_elem board_opening true 5 5
                board_wf_opening eq_refl) as [Hskip Hlist].
  split; [apply Hskip|]. apply Hlist.
  split; [reflexivity|]. split; reflexivity.
Defined.

(** C3, as stated, fails: one turn into the game, with [turn_count = 1],
    [get_valid_moves(include_removes=True)] called for the engine lists
    the removal of the human's piece at [(5, 5)]. *)
Lemma early_remove_is_listed :
  turn_count board_opening < 10 ∧
  get_valid_moves first_seen_order false true board_opening
  = [(Place, 4, 4); (Place, 4, 5); (Place, 4, 6); (Place, 5, 4);
     (Place, 5, 6); (Place, 6, 4); (Place, 6, 5); (Place, 6, 6);
     (Remove, 5, 5)] ∧
  (Remove, 5, 5) ∈ get_valid_moves first_seen_order false true board_opening.
Proof.
  split; [reflexivity|].
  assert (get_valid_moves first_seen_order false true board_opening
          = [(Place, 4, 4); (Place, 4, 5); (Place, 4, 6); (Place, 5, 4);
             (Place, 5, 6); (Place, 6, 4); (Place, 6, 5); (Place, 6, 6);
             (Remove, 5, 5)]) as Heq by (vm_compute; reflexivity).
  split; [exact Heq|]. rewrite Heq.
  do 8 apply list_elem_of_further. apply list_elem_of_here.
Qed.

Lemma no_move_explored_returns_neg_inf_witness :
  is_terminal board_vacated = Ok (false, board_vacated) ∧
  (∀ m, m ∈ get_valid_moves first_seen_order true true board_vacated →
        max_skips board_vacated m = true) ∧
  minimax first_seen_order 3 (Fin (-7)) (Fin 7) true board_vacated
  = Ok (NegInf, board_vacated).
Proof.
  assert (∀ m, m ∈ get_valid_moves first_seen_order true true board_vacated →
               max_skips board_vacated m = true) as Hall.
  { assert (get_valid_moves first_seen_order true true board_vacated
            = [(Place, 5, 5)]) as -> by (vm_compute; reflexivity).
    intros m ->%list_elem_of_singleton. reflexivity. }
  split; [reflexivity|]. split; [exact Hall|].
  exact (proj1 (no_move_explored_returns_neg_inf first_seen_order
                  first_seen_order_elem 2 (Fin (-7)) (Fin 7) board_vacated
                  eq_refl Hall)).
Defined.

(** C4, as stated, fails: on a board without a piece whose centre was the
    last tile removed, the engine having spent its block, the only
    candidate is the centre and the loop passes over it; [minimax] at depth
    1 then returns [float('-inf')], not 0. *)
Lemma no_move_explored_is_not_zero :
  is_terminal board_vacated = Ok (false, board_vacated) ∧
  forallb (max_skips board_vacated)
    (get_valid_moves first_seen_order true true board_vacated) = true ∧
  minimax first_seen_order 1 NegInf PosInf true board_vacated
  = Ok (NegInf, board_vacated) ∧
  NegInf ≠ Fin 0.
Proof.
  split; [reflexivity|]. split; [vm_compute; reflexivity|].
  split; [vm_compute; reflexivity|]. discriminate.
Qed.

Lemma block_recursion_flips_role_witness :
  setitem (board board_threat) 5 6 Blocked
  = Ok (set_cell (board board_threat) 5 6 Blocked) ∧
  is_last_removed board_threat 5 6 = false ∧
  0 < ai_blocks_remaining board_threat ∧
  max_trial (minimax first_seen_order 1) NegInf PosInf (Block, 5, 6)
    board_threat
  = match minimax first_seen_order 1 NegInf PosInf false
            (set_ai_blocks_remaining (ai_blocks_remaining board_threat - 1)
               (set_board (set_cell (board board_threat) 5 6 Blocked)
                  board_threat)) with
    | Raise e => Raise e
    | Ok (eval, t) =>
        b ← setitem (board t) 5 6 Empty;
        Ok (Some eval,
            set_ai_blocks_remaining (ai_blocks_remaining t + 1)
              (set_board b t))
    end.
Proof.
  split; [reflexivity|]. split; [reflexivity|]. split; [reflexivity|].
  pose proof (block_recursion_flips_role first_seen_order 1 NegInf PosInf
                5 6 board_threat (set_cell (board board_threat) 5 6 Blocked)
                eq_refl) as [Hmax _].
  apply Hmax; reflexivity.
Defined.

(** C2, as stated, fails: with the human threatening [(5, 2)] ..
    [(5, 5)], the engine's trial of a Block at [(5, 6)] at a maximizing
    node is worth -10000, the value of the search one level down in the
    minimizing role (the human completes the line at [(5, 1)]); the search
    one level down in the maximizing role, which the trial would have
    called had the role been kept, is worth 20. *)
Lemma block_trial_changes_role :
  let blocked :=
    set_ai_blocks_remaining 0
      (set_board (set_cell (board board_threat) 5 6 Blocked) board_threat) in
  ∃ s' t_min t_max,
    max_trial (minimax first_seen_order 1) NegInf PosInf (Block, 5, 6)
      board_threat = Ok (Some (Fin (-10000)), s') ∧
    minimax first_seen_order 1 NegInf PosInf false blocked
      = Ok (Fin (-10000), t_min) ∧
    minimax first_seen_order 1 NegInf PosInf true blocked
      = Ok (Fin 20, t_max).
Proof.
  eexists _, _, _. split; [vm_compute; reflexivity|].
  split; vm_compute; reflexivity.
Qed.

(** * Further properties of the engine *)

(** ** Reading and writing cells *)

Lemma cell_at_set_cell_ne (b : list (list Cell)) (x y x' y' : Z) (v : Cell) :
  0 ≤ x → 0 ≤ y → 0 ≤ x' → 0 ≤ y' → (x', y') ≠ (x, y) →
  cell_at (set_cell b x y v) x' y' = cell_at b x' y'.
Proof.
  intros Hx Hy Hx' Hy' Hne. unfold cell_at, set_cell.
  destruct (b !! Z.to_nat x) as [row|] eqn:Hrow; [|done].
  destruct (decide (Z.to_nat x' = Z.to_nat x)) as [Heq|Hnx].
  - rewrite Heq, Hrow.
    rewrite list_lookup_insert_eq by (by eapply lookup_lt_Some).
    assert (Z.to_nat y ≠ Z.to_nat y') as Hny.
    { intros Hyy. apply Hne. f_equal; lia. }
    by rewrite list_lookup_insert_ne.
  - by rewrite list_lookup_insert_ne.
Qed.

(** Writing back what a cell held undoes a write, wherever the cell is. *)
Lemma set_cell_restore (b : list (list Cell)) (x y : Z) (v : Cell) :
  set_cell (set_cell b x y v) x y (cell_at b x y) = b.
Proof.
  unfold set_cell, cell_at.
  destruct (b !! Z.to_nat x) as [row|] eqn:Hrow; [|by rewrite Hrow].
  rewrite list_lookup_insert_eq by (by eapply lookup_lt_Some).
  rewrite !list_insert_insert_eq.
  destruct (row !! Z.to_nat y) as [c|] eqn:Hc.
  - by rewrite (list_insert_id row _ c), (list_insert_id b _ row).
  - apply lookup_ge_None in Hc.
    rewrite (list_insert_ge row) by done. by apply list_insert_id.
Qed.

Lemma with_cell_wf (x y : Z) (v : Cell) (s : GameBoard) :
  board_wf s → board_wf (with_cell x y v s).
Proof. apply set_cell_wf. Qed.

(** ** What [check_win] reads and writes *)

Lemma walk_ext (s t : GameBoard) (p : Cell) (dx dy : Z) (fuel : nat) :
  size t = size s → board t = board s →
  ∀ count sequence nx ny,
    walk fuel t p dx dy count sequence nx ny
    = walk fuel s p dx dy count sequence nx ny.
Proof.
  intros Hsize Hboard. induction fuel as [|fuel IH];
    intros count sequence nx ny; simpl; [done|].
  unfold in_bounds. rewrite Hsize, Hboard. by rewrite IH.
Qed.

Lemma line_ext (s t : GameBoard) (p : Cell) (x y dx dy : Z) :
  size t = size s → board t = board s →
  line t p x y dx dy = line s p x y dx dy.
Proof.
  intros Hsize Hboard. unfold line, loop_fuel. rewrite Hsize.
  rewrite (walk_ext s t p dx dy _ Hsize Hboard).
  destruct (walk _ s p dx dy 1 [(x, y)] (x + dx) (y + dy))
    as [[[count sequence] nx] ny].
  by rewrite (walk_ext s t p (- dx) (- dy) _ Hsize Hboard).
Qed.

Lemma check_win_dirs_ext (dirs : list (Z * Z)) (s t : GameBoard) (p : Cell)
    (x y : Z) (upd upd' : bool) :
  size t = size s → target t = target s → board t = board s →
  (check_win_dirs dirs t p x y upd').1 = (check_win_dirs dirs s p x y upd).1.
Proof.
  intros Hsize Htarget Hboard.
  induction dirs as [|[dx dy] dirs IH]; simpl; [done|].
  rewrite (line_ext s t p x y dx dy Hsize Hboard), Htarget.
  destruct (line s p x y dx dy) as [count sequence].
  by destruct (bool_decide (target s ≤ count)).
Qed.

(** The verdict only depends on the grid, [size] and [target]. *)
Lemma wins_ext (s t : GameBoard) (x y : Z) :
  size t = size s → target t = target s → board t = board s →
  wins t x y = wins s x y.
Proof.
  intros Hsize Htarget Hboard. unfold wins, check_win. rewrite Hboard.
  destruct (getitem (board s) x y) as [c|]; [|done].
  cbn -[check_win_dirs]. destruct (_ || _); [done|].
  pose proof (check_win_dirs_ext directions s t c x y false false
                Hsize Htarget Hboard) as Heq.
  destruct (check_win_dirs directions t c x y false) as [w1 s1],
           (check_win_dirs directions s c x y false) as [w2 s2].
  simpl in Heq. by subst.
Qed.

Lemma check_win_wins (x y : Z) (upd : bool) (s : GameBoard) (w : bool)
    (s' : GameBoard) :
  check_win x y upd s = Ok (w, s') → wins s x y = Ok w.
Proof.
  unfold wins, check_win.
  destruct (getitem (board s) x y) as [c|]; [|done].
  cbn -[check_win_dirs]. destruct (_ || _); [by intros [= <- _]|].
  intros Heq.
  assert (check_win_dirs directions s c x y upd = (w, s')) as Heq'
    by congruence.
  pose proof (check_win_dirs_ext directions s s c x y upd false
                eq_refl eq_refl eq_refl) as Hfst.
  rewrite Heq' in Hfst.
  destruct (check_win_dirs directions s c x y false) as [w2 s2].
  simpl in Hfst. by subst.
Qed.

Lemma wins_check_win (x y : Z) (upd : bool) (s : GameBoard) (w : bool) :
  wins s x y = Ok w → ∃ s', check_win x y upd s = Ok (w, s').
Proof.
  intros Hw.
  destruct (check_win x y upd s) as [[w' s']|] eqn:Hcw.
  - apply check_win_wins in Hcw. exists s'. congruence.
  - unfold wins, check_win in *.
    destruct (getitem (board s) x y) as [c|]; [|done].
    revert Hcw. cbn -[check_win_dirs]. by destruct (_ || _).
Qed.

Lemma wins_in_bounds (s : GameBoard) (x y : Z) :
  board_wf s → in_bounds s x y = true → ∃ w, wins s x y = Ok w.
Proof.
  intros Hwf Hin. unfold wins, check_win.
  rewrite (getitem_cell_at s x y Hwf Hin). cbn -[check_win_dirs].
  destruct (_ || _); [by eexists|].
  destruct (check_win_dirs _ _ _ _ _ _) as [w s']. by eexists.
Qed.

Lemma check_win_false_state (x y : Z) (upd : bool) (s s' : GameBoard) :
  check_win x y upd s = Ok (false, s') → s' = s.
Proof.
  unfold check_win.
  destruct (getitem (board s) x y) as [c|]; [|done].
  cbn -[check_win_dirs]. destruct (_ || _); [by intros [= <-]|].
  intros Heq.
  assert (check_win_dirs directions s c x y upd = (false, s')) as Heq'
    by congruence.
  pose proof (check_win_dirs_state directions s c x y upd) as Hst.
  rewrite Heq' in Hst. simpl in Hst. apply Hst. by right.
Qed.

(** X1. [check_win] writes nothing but [winning_sequence], and writes it
    only when it answers [True] and was asked to update. *)
Theorem check_win_only_writes_winning_sequence (x y : Z) (upd : bool)
    (s : GameBoard) (w : bool) (s' : GameBoard) :
  check_win x y upd s = Ok (w, s') →
  s' = set_winning_sequence (winning_sequence s') s ∧
  (upd = false ∨ w = false → s' = s).
Proof.
  intros Hcw. split; [by eapply check_win_frame|].
  intros [-> | ->]; [by eapply check_win_no_update|].
  by eapply check_win_false_state.
Qed.

Lemma check_win_only_writes_winning_sequence_witness :
  ∃ s', check_win 5 4 true board_five = Ok (true, s') ∧
        s' = set_winning_sequence (winning_sequence s') board_five ∧
        winning_sequence s' = [(5, 4); (5, 5); (5, 6); (5, 3); (5, 2)].
Proof.
  eexists. split; [vm_compute; reflexivity|].
  split; [|reflexivity].
  refine (proj1 (check_win_only_writes_winning_sequence 5 4 true board_five
                   true _ _)).
  vm_compute. reflexivity.
Defined.

(** ** The winning sequence *)

(** The cells that [walk] appends to the sequence: as many as it counts,
    each of them a cell passed on the way, for which the loop condition
    held. *)
Lemma walk_sequence (fuel : nat) (s : GameBoard) (p : Cell) (dx dy : Z) :
  ∀ (count : Z) (sequence : list (Z * Z)) (nx ny : Z),
  ∃ (cells : list (Z * Z)),
    (walk fuel s p dx dy count sequence nx ny).1.1
      = (count + Z.of_nat (length cells), sequence ++ cells) ∧
    ∀ c, c ∈ cells →
         ∃ k, 0 ≤ k ∧ c = (nx + k * dx, ny + k * dy) ∧
              walk_cond s p c.1 c.2 = true.
Proof.
  induction fuel as [|fuel IH]; intros count sequence nx ny; simpl.
  { exists []. split; [|by intros c []%elem_of_nil].
    rewrite app_nil_r. simpl. f_equal. lia. }
  fold (walk_cond s p nx ny). destruct (walk_cond s p nx ny) eqn:Hc.
  - destruct (IH (count + 1) (sequence ++ [(nx, ny)]) (nx + dx) (ny + dy))
      as (cells & Hw & Hall).
    exists ((nx, ny) :: cells). split.
    + rewrite Hw, <- app_assoc. simpl. f_equal. lia.
    + intros c [-> | Hin]%elem_of_cons.
      * exists 0. split; [lia|]. split; [f_equal; lia|done].
      * destruct (Hall c Hin) as (k & Hk & -> & Hcond).
        exists (k + 1). split; [lia|]. split; [f_equal; lia|done].
  - exists []. split; [|by intros c []%elem_of_nil].
    rewrite app_nil_r. simpl. f_equal. lia.
Qed.

(** The sequence of [line]: [(x, y)] first, as long as the count, made of
    cells of the line through [(x, y)] that hold [p]. *)
Lemma line_sequence (s : GameBoard) (p : Cell) (x y dx dy : Z) :
  in_bounds s x y = true → cell_at (board s) x y = p →
  ∃ rest,
    (line s p x y dx dy).2 = (x, y) :: rest ∧
    (line s p x y dx dy).1 = Z.of_nat (length ((x, y) :: rest)) ∧
    ∀ c, c ∈ (x, y) :: rest →
         ∃ k, c = (x + k * dx, y + k * dy) ∧
              in_bounds s c.1 c.2 = true ∧ cell_at (board s) c.1 c.2 = p.
Proof.
  intros Hin Hcell. unfold line.
  destruct (walk_sequence (loop_fuel s) s p dx dy 1 [(x, y)]
              (x + dx) (y + dy)) as (cells1 & Hw1 & Hall1).
  destruct (walk (loop_fuel s) s p dx dy 1 [(x, y)] (x + dx) (y + dy))
    as [[[count1 seq1] nx1] ny1].
  simpl in Hw1. injection Hw1 as -> ->.
  destruct (walk_sequence (loop_fuel s) s p (- dx) (- dy)
              (1 + Z.of_nat (length cells1)) ([(x, y)] ++ cells1)
              (x - dx) (y - dy)) as (cells2 & Hw2 & Hall2).
  destruct (walk (loop_fuel s) s p (- dx) (- dy) _ _ (x - dx) (y - dy))
    as [[[count2 seq2] nx2] ny2].
  simpl in Hw2. injection Hw2 as -> ->.
  exists (cells1 ++ cells2). simpl. split; [done|]. split.
  { rewrite length_app. lia. }
  intros c [-> | [Hc | Hc]%elem_of_app]%elem_of_cons.
  - exists 0. split; [f_equal; lia|done].
  - destruct (Hall1 c Hc) as (k & Hk & -> & Hcond).
    apply walk_cond_spec in Hcond.
    exists (k + 1). split; [f_equal; lia|done].
  - destruct (Hall2 c Hc) as (k & Hk & -> & Hcond).
    apply walk_cond_spec in Hcond.
    exists (- (k + 1)). split; [f_equal; lia|done].
Qed.

Lemma check_win_dirs_sequence (dirs : list (Z * Z)) (s : GameBoard)
    (p : Cell) (x y : Z) (s' : GameBoard) :
  check_win_dirs dirs s p x y true = (true, s') →
  ∃ dx dy, (dx, dy) ∈ dirs ∧
           target s ≤ (line s p x y dx dy).1 ∧
           winning_sequence s' = (line s p x y dx dy).2.
Proof.
  induction dirs as [|[dx dy] dirs IH]; simpl; [done|].
  destruct (line s p x y dx dy) as [count sequence] eqn:Hline.
  destruct (bool_decide (target s ≤ count)) eqn:Hc.
  - intros [= <-]. exists dx, dy. rewrite Hline.
    apply bool_decide_eq_true in Hc.
    split; [apply list_elem_of_here|done].
  - intros (dx' & dy' & Hin & H)%IH. exists dx', dy'.
    split; [by apply list_elem_of_further|done].
Qed.

(** X2. When [check_win(x, y)] answers [True] on a cell of the grid and
    updates [winning_sequence], the sequence starts with [(x, y)], has at
    least [target] entries, and all its entries are cells of the grid on
    one line through [(x, y)], along one of the four directions, that hold
    the same piece as [(x, y)]. *)
Theorem winning_sequence_is_a_line (s : GameBoard) (x y : Z)
    (s' : GameBoard) :
  board_wf s → in_bounds s x y = true →
  check_win x y true s = Ok (true, s') →
  ∃ dx dy rest,
    (dx, dy) ∈ directions ∧
    winning_sequence s' = (x, y) :: rest ∧
    target s ≤ Z.of_nat (length (winning_sequence s')) ∧
    (cell_at (board s) x y = PlayerX ∨ cell_at (board s) x y = PlayerO) ∧
    ∀ c, c ∈ winning_sequence s' →
         ∃ k, c = (x + k * dx, y + k * dy) ∧
              in_bounds s c.1 c.2 = true ∧
              cell_at (board s) c.1 c.2 = cell_at (board s) x y.
Proof.
  intros Hwf Hin. unfold check_win.
  rewrite (getitem_cell_at s x y Hwf Hin). cbn -[check_win_dirs].
  destruct (bool_decide (cell_at (board s) x y = Blocked)
            || bool_decide (cell_at (board s) x y = Empty)) eqn:Hbe;
    [done|].
  apply orb_false_iff in Hbe as [Hb%bool_decide_eq_false
                                 He%bool_decide_eq_false].
  intros Heq.
  assert (check_win_dirs directions s (cell_at (board s) x y) x y true
          = (true, s')) as Heq' by congruence.
  apply check_win_dirs_sequence in Heq' as (dx & dy & Hdir & Hle & Hseq).
  destruct (line_sequence s (cell_at (board s) x y) x y dx dy Hin eq_refl)
    as (rest & Hl2 & Hl1 & Hall).
  exists dx, dy, rest. rewrite Hseq, Hl2.
  split_and!; [done|done|lia| |done].
  destruct (cell_at (board s) x y); auto; done.
Qed.

Lemma winning_sequence_is_a_line_witness :
  board_wf board_five ∧ in_bounds board_five 5 4 = true ∧
  ∃ s' dx dy rest,
    check_win 5 4 true board_five = Ok (true, s') ∧
    (dx, dy) ∈ directions ∧
    winning_sequence s' = (5, 4) :: rest ∧
    target board_five ≤ Z.of_nat (length (winning_sequence s')).
Proof.
  split; [exact board_wf_five|]. split; [reflexivity|].
  destruct (check_win 5 4 true board_five) as [[[] s']|] eqn:Hcw;
    try (vm_compute in Hcw; discriminate Hcw).
  destruct (winning_sequence_is_a_line board_five 5 4 s' board_wf_five
              eq_refl Hcw) as (dx & dy & rest & Hdir & Hseq & Hlen & _).
  exists s', dx, dy, rest. split; [reflexivity|].
  split; [exact Hdir|]. split; [exact Hseq|exact Hlen].
Defined.

(** ** Effects of the mutations on the grid *)

Lemma in_bounds_nonneg (s : GameBoard) (x y : Z) :
  in_bounds s x y = true → 0 ≤ x ∧ 0 ≤ y.
Proof. intros [Hx Hy]%in_bounds_spec. lia. Qed.

(** The grid after [place_piece]: untouched, or the grid before with the
    cell [(x, y)], which was valid for the move, written. *)
Lemma place_piece_board (x y : Z) (switch_turn : bool) (move_type : string)
    (s : GameBoard) (r : option (bool * bool)) (s' : GameBoard) :
  board_wf s →
  place_piece x y switch_turn move_type s = Ok (r, s') →
  size s' = size s ∧ target s' = target s ∧
  (board s' = board s ∨
   is_valid_move s x y = true ∧
   (board s' = set_cell (board s) x y (piece (turn s)) ∨
    board s' = set_cell (board s) x y Blocked)).
Proof.
  intros Hwf. destruct (game_over s) eqn:Hgo.
  { unfold place_piece. rewrite Hgo. intros [= _ <-]. auto. }
  destruct (String.eqb move_type "normal") eqn:Hn.
  { apply String.eqb_eq in Hn as ->.
    destruct (is_valid_move s x y) eqn:Hv.
    - destruct (place_piece_normal_valid x y switch_turn s Hwf Hgo Hv)
        as (win & s1 & Hcw & ->).
      intros [= _ <-].
      pose proof (check_win_frame _ _ _ _ _ _ Hcw) as ->.
      split_and!; [by destruct win, switch_turn..|].
      right. split; [done|]. left. by destruct win, switch_turn.
    - unfold place_piece. rewrite Hgo. simpl. rewrite Hv.
      intros [= _ <-]. auto. }
  unfold place_piece. rewrite Hgo, Hn.
  destruct (String.eqb move_type "block"); [|intros [= _ <-]; auto].
  unfold is_valid_block. destruct (is_valid_move s x y) eqn:Hv;
    [|intros [= _ <-]; auto].
  intros [= _ <-]. split_and!; [by destruct (turn s)..|].
  right. split; [done|]. right. by destruct (turn s).
Qed.

(** X3. What a successful normal [place_piece] does: the cell holds the
    mover's piece and no other cell changed; [last_move] is the
    coordinate; the returned flag is the verdict of [check_win] on the new
    grid and [game_over] is set exactly when it is true; the turn goes to
    the other player only if there is no win and [switch_turn] is set;
    without a win [winning_sequence] is left alone. *)
Theorem place_piece_effects (s : GameBoard) (x y : Z) (switch_turn : bool) :
  board_wf s → game_over s = false → is_valid_move s x y = true →
  ∃ win s',
    place_piece x y switch_turn "normal" s = Ok (Some (true, win), s') ∧
    wins (with_cell x y (piece (turn s)) s) x y = Ok win ∧
    cell_at (board s') x y = piece (turn s) ∧
    (∀ x' y', 0 ≤ x' → 0 ≤ y' → (x', y') ≠ (x, y) →
              cell_at (board s') x' y' = cell_at (board s) x' y') ∧
    last_move s' = Some (x, y) ∧
    game_over s' = win ∧
    turn s' = (if win then turn s
               else if switch_turn then other (turn s) else turn s) ∧
    (win = false → winning_sequence s' = winning_sequence s).
Proof.
  intros Hwf Hgo Hv.
  pose proof Hv as [Hin _]%andb_true_iff.
  destruct (in_bounds_nonneg s x y Hin) as [Hx Hy].
  destruct (place_piece_normal_valid x y switch_turn s Hwf Hgo Hv)
    as (win & s1 & Hcw & Hpp).
  exists win. eexists. split; [exact Hpp|].
  pose proof (check_win_wins _ _ _ _ _ _ Hcw) as Hwins.
  pose proof (check_win_frame _ _ _ _ _ _ Hcw) as Hfr.
  split_and!.
  - rewrite <- Hwins. by apply wins_ext.
  - rewrite Hfr. destruct win, switch_turn; simpl;
      by apply cell_at_set_cell_eq.
  - intros x' y' Hx' Hy' Hne. rewrite Hfr.
    destruct win, switch_turn; simpl; by apply cell_at_set_cell_ne.
  - rewrite Hfr. by destruct win, switch_turn.
  - rewrite Hfr. destruct win, switch_turn; simpl; done.
  - rewrite Hfr. by destruct win, switch_turn.
  - intros ->. apply check_win_false_state in Hcw as ->.
    by destruct switch_turn.
Qed.

Lemma place_piece_effects_witness :
  board_wf board_opening ∧ game_over board_opening = false ∧
  is_valid_move board_opening 4 4 = true ∧
  ∃ win s',
    place_piece 4 4 true "normal" board_opening
      = Ok (Some (true, win), s') ∧
    cell_at (board s') 4 4 = PlayerO ∧
    cell_at (board s') 5 5 = PlayerX ∧
    last_move s' = Some (4, 4) ∧ game_over s' = win.
Proof.
  split; [exact board_wf_opening|]. split; [reflexivity|].
  split; [reflexivity|].
  destruct (place_piece_effects board_opening 4 4 true board_wf_opening
              eq_refl eq_refl)
    as (win & s' & Hpp & _ & Hcell & Hothers & Hlast & Hgo & _).
  exists win, s'. split; [exact Hpp|]. split; [exact Hcell|].
  split; [|split; [exact Hlast|exact Hgo]].
  rewrite (Hothers 5 5) by (lia || discriminate). reflexivity.
Defined.

Lemma remove_tile_board (x y : Z) (switch_turn : bool) (s : GameBoard) :
  board (remove_tile x y switch_turn s).2
  = if is_valid_remove s x y then set_cell (board s) x y Empty
    else board s.
Proof.
  unfold remove_tile. destruct (is_valid_remove s x y); [|done].
  destruct (turn s) eqn:Ht, switch_turn; simpl; rewrite ?Ht; done.
Qed.

Lemma remove_tile_size_target (x y : Z) (switch_turn : bool)
    (s : GameBoard) :
  size (remove_tile x y switch_turn s).2 = size s ∧
  target (remove_tile x y switch_turn s).2 = target s.
Proof.
  unfold remove_tile. destruct (is_valid_remove s x y); [|done].
  destruct (turn s) eqn:Ht, switch_turn; simpl; rewrite ?Ht; done.
Qed.

Lemma remove_tile_valid (x y : Z) (switch_turn : bool) (s : GameBoard) :
  is_valid_remove s x y = true →
  (remove_tile x y switch_turn s).1 = true ∧
  turn (remove_tile x y switch_turn s).2
    = (if switch_turn then other (turn s) else turn s) ∧
  turn_count (remove_tile x y switch_turn s).2 = turn_count s + 1 ∧
  last_removed_tile (remove_tile x y switch_turn s).2 = Some (x, y) ∧
  user_power_moves_remaining (remove_tile x y switch_turn s).2
    = match turn s with
      | TurnX => user_power_moves_remaining s - 1
      | TurnO => user_power_moves_remaining s
      end ∧
  ai_power_moves_remaining (remove_tile x y switch_turn s).2
    = match turn s with
      | TurnX => ai_power_moves_remaining s
      | TurnO => ai_power_moves_remaining s - 1
      end ∧
  last_move (remove_tile x y switch_turn s).2 = last_move s ∧
  game_over (remove_tile x y switch_turn s).2 = game_over s.
Proof.
  unfold remove_tile. intros ->.
  destruct (turn s) eqn:Ht, switch_turn; simpl; rewrite ?Ht; simpl;
    rewrite ?Ht; split_and!; done.
Qed.

(** X4. The mutations never touch more than the cell they are given, and
    only a cell that is valid for them: if a cell differs after
    [place_piece] (in any mode) it is [(x, y)], it was Empty and it now
    holds the mover's piece or a block; if a cell differs after
    [remove_tile] it is [(x, y)], it held the opponent's piece and it is
    now Empty.  In particular a Blocked cell stays Blocked and a piece is
    never overwritten. *)
Theorem mutations_change_one_valid_cell (s : GameBoard) (x y : Z)
    (switch_turn : bool) (move_type : string) (x' y' : Z) :
  board_wf s → 0 ≤ x' → 0 ≤ y' →
  (∀ r s', place_piece x y switch_turn move_type s = Ok (r, s') →
           cell_at (board s') x' y' ≠ cell_at (board s) x' y' →
           (x', y') = (x, y) ∧ cell_at (board s) x y = Empty ∧
           (cell_at (board s') x y = piece (turn s)
            ∨ cell_at (board s') x y = Blocked)) ∧
  (cell_at (board (remove_tile x y switch_turn s).2) x' y'
     ≠ cell_at (board s) x' y' →
   (x', y') = (x, y) ∧ cell_at (board s) x y = piece (other (turn s)) ∧
   cell_at (board (remove_tile x y switch_turn s).2) x y = Empty).
Proof.
  intros Hwf Hx' Hy'. split.
  - intros r s' Hpp Hdiff.
    destruct (place_piece_board x y switch_turn move_type s r s' Hwf Hpp)
      as (_ & _ & [Hb | [Hv Hb]]); [by rewrite Hb in Hdiff|].
    pose proof Hv as [Hin He%bool_decide_eq_true]%andb_true_iff.
    destruct (in_bounds_nonneg s x y Hin) as [Hx Hy].
    destruct (decide ((x', y') = (x, y))) as [Heq | Hne].
    + split; [done|]. split; [done|].
      destruct Hb as [-> | ->]; [left|right];
        by apply cell_at_set_cell_eq.
    + destruct Hb as [Hb | Hb]; rewrite Hb in Hdiff;
        by rewrite cell_at_set_cell_ne in Hdiff.
  - rewrite remove_tile_board.
    destruct (is_valid_remove s x y) eqn:Hv; [|done].
    pose proof Hv as [Hin Hc%bool_decide_eq_true]%andb_true_iff.
    destruct (in_bounds_nonneg s x y Hin) as [Hx Hy].
    destruct (decide ((x', y') = (x, y))) as [Heq | Hne].
    + intros _. split; [done|]. split; [done|].
      by apply cell_at_set_cell_eq.
    + by rewrite cell_at_set_cell_ne.
Qed.

Lemma mutations_change_one_valid_cell_witness :
  board_wf board_opening ∧
  ∃ r s',
    block_tile 4 4 board_opening = Ok (r, s') ∧
    cell_at (board s') 4 4 ≠ cell_at (board board_opening) 4 4 ∧
    cell_at (board board_opening) 4 4 = Empty ∧
    (cell_at (board s') 4 4 = piece (turn board_opening)
     ∨ cell_at (board s') 4 4 = Blocked).
Proof.
  split; [exact board_wf_opening|].
  destruct (block_tile 4 4 board_opening) as [[r s']|] eqn:Hb;
    [|vm_compute in Hb; discriminate Hb].
  assert (cell_at (board s') 4 4 ≠ cell_at (board board_opening) 4 4)
    as Hdiff.
  { vm_compute in Hb. injection Hb as _ <-. discriminate. }
  destruct (mutations_change_one_valid_cell board_opening 4 4 true "block"
              4 4 board_wf_opening ltac:(lia) ltac:(lia)) as [Hplace _].
  destruct (Hplace r s' Hb Hdiff) as (_ & Hempty & Hnew).
  exists r, s'. split; [reflexivity|]. split; [exact Hdiff|].
  split; [exact Hempty|exact Hnew].
Defined.

(** X5. The mutations keep the board well formed: after [place_piece] (in
    any mode), [block_tile] or [remove_tile] the grid still has [size]
    rows of [size] cells, and [size] and [target] are unchanged. *)
Theorem mutations_keep_board_wf (s : GameBoard) (x y : Z)
    (switch_turn : bool) (move_type : string) :
  board_wf s →
  (∀ r s', place_piece x y switch_turn move_type s = Ok (r, s') →
           board_wf s' ∧ size s' = size s ∧ target s' = target s) ∧
  (∀ r s', block_tile x y s = Ok (r, s') →
           board_wf s' ∧ size s' = size s ∧ target s' = target s) ∧
  board_wf (remove_tile x y switch_turn s).2 ∧
  size (remove_tile x y switch_turn s).2 = size s ∧
  target (remove_tile x y switch_turn s).2 = target s.
Proof.
  intros Hwf.
  assert (∀ sw mt r s', place_piece x y sw mt s = Ok (r, s') →
            board_wf s' ∧ size s' = size s ∧ target s' = target s) as Hpp.
  { intros sw mt r s' Hpp.
    destruct (place_piece_board x y sw mt s r s' Hwf Hpp)
      as (Hsize & Htarget & Hb).
    split; [|done].
    destruct Hb as [Hb | [_ [Hb | Hb]]].
    - by apply (board_wf_ext s s').
    - apply (board_wf_ext (with_cell x y (piece (turn s)) s) s');
        [done..|by apply with_cell_wf].
    - apply (board_wf_ext (with_cell x y Blocked s) s');
        [done..|by apply with_cell_wf]. }
  destruct (remove_tile_size_target x y switch_turn s) as [Hsize Htarget].
  split_and!; [apply Hpp|apply Hpp| |done|done].
  pose proof (remove_tile_board x y switch_turn s) as Hboard.
  destruct (is_valid_remove s x y).
  - apply (board_wf_ext (with_cell x y Empty s)); [done..|].
    by apply with_cell_wf.
  - by apply (board_wf_ext s).
Qed.

Lemma mutations_keep_board_wf_witness :
  board_wf board_opening ∧
  board_wf (remove_tile 5 5 true board_opening).2 ∧
  (remove_tile 5 5 true board_opening).1 = true.
Proof.
  split; [exact board_wf_opening|]. split; [|reflexivity].
  apply (mutations_keep_board_wf board_opening 5 5 true "normal"
           board_wf_opening).
Defined.

(** X6. Placing and removing are inverse on the grid: when a player
    places a piece without winning and the other player then removes it,
    the grid is the one before the placement; the two moves have added 2
    to [turn_count], taken one power move from the remover, recorded the
    coordinate in [last_removed_tile] and, if the removal switches the
    turn, given the turn back to the first player. *)
Theorem place_then_remove_restores_grid (s : GameBoard) (x y : Z)
    (s1 : GameBoard) :
  board_wf s → game_over s = false → is_valid_move s x y = true →
  place_piece x y true "normal" s = Ok (Some (true, false), s1) →
  let s2 := (remove_tile x y true s1).2 in
  (remove_tile x y true s1).1 = true ∧
  board s2 = board s ∧
  turn s2 = turn s ∧
  turn_count s2 = turn_count s + 2 ∧
  last_removed_tile s2 = Some (x, y) ∧
  (turn s = TurnX →
   ai_power_moves_remaining s2 = ai_power_moves_remaining s - 1 ∧
   user_power_moves_remaining s2 = user_power_moves_remaining s) ∧
  (turn s = TurnO →
   user_power_moves_remaining s2 = user_power_moves_remaining s - 1 ∧
   ai_power_moves_remaining s2 = ai_power_moves_remaining s).
Proof.
  intros Hwf Hgo Hv Hpp.
  pose proof Hv as [Hin He%bool_decide_eq_true]%andb_true_iff.
  destruct (place_piece_normal_valid x y true s Hwf Hgo Hv)
    as (win & s0 & Hcw & Hpp').
  rewrite Hpp' in Hpp. injection Hpp as -> <-.
  apply check_win_false_state in Hcw as ->.
  set (s1 := set_turn_count _ _).
  assert (is_valid_remove s1 x y = true) as Hvr.
  { unfold is_valid_remove.
    change (in_bounds s1 x y) with (in_bounds s x y).
    change (cell_at (board s1) x y)
      with (cell_at (set_cell (board s) x y (piece (turn s))) x y).
    change (turn s1) with (other (turn s)).
    rewrite Hin, (cell_at_set_cell_eq s x y _ Hwf Hin). simpl.
    apply bool_decide_eq_true. by destruct (turn s). }
  destruct (remove_tile_valid x y true s1 Hvr)
    as (Hr & Hturn & Hcount & Hlast & Huser & Hai & _).
  pose proof (remove_tile_board x y true s1) as Hboard.
  rewrite Hvr in Hboard.
  change (board s1) with (set_cell (board s) x y (piece (turn s)))
    in Hboard.
  rewrite <- He, set_cell_restore in Hboard.
  change (turn s1) with (other (turn s)) in Hturn, Huser, Hai.
  change (turn_count s1) with (turn_count s + 1) in Hcount.
  change (user_power_moves_remaining s1)
    with (user_power_moves_remaining s) in Huser.
  change (ai_power_moves_remaining s1)
    with (ai_power_moves_remaining s) in Hai.
  cbv zeta. split_and!; [done|done| |lia|done| |].
  - rewrite Hturn. by destruct (turn s).
  - intros Ht. rewrite Ht in Huser, Hai. done.
  - intros Ht. rewrite Ht in Huser, Hai. done.
Qed.

Lemma place_then_remove_restores_grid_witness :
  board_wf board_opening ∧ game_over board_opening = false ∧
  is_valid_move board_opening 4 4 = true ∧
  ∃ s1,
    place_piece 4 4 true "normal" board_opening
      = Ok (Some (true, false), s1) ∧
    board (remove_tile 4 4 true s1).2 = board board_opening ∧
    turn_count (remove_tile 4 4 true s1).2 = 3.
Proof.
  split; [exact board_wf_opening|]. split; [reflexivity|].
  split; [reflexivity|].
  destruct (place_piece 4 4 true "normal" board_opening)
    as [[[[[] []]|] s1]|] eqn:Hpp;
    try (vm_compute in Hpp; discriminate Hpp).
  destruct (place_then_remove_restores_grid board_opening 4 4 s1
              board_wf_opening eq_refl eq_refl Hpp)
    as (_ & Hboard & _ & Hcount & _).
  exists s1. split; [reflexivity|]. split; [exact Hboard|exact Hcount].
Defined.

(** ** Terminal positions and their value *)

Lemma any_empty_spec (s : GameBoard) :
  any_empty s = true ↔
  ∃ x y, in_bounds s x y = true ∧ cell_at (board s) x y = Empty.
Proof.
  unfold any_empty. rewrite existsb_exists. split.
  - intros (x & Hx & Hrow). apply existsb_exists in Hrow as (y & Hy & Hc).
    apply list_elem_of_In, elem_of_range in Hx, Hy.
    apply bool_decide_eq_true in Hc.
    exists x, y. split; [by apply in_bounds_spec|done].
  - intros (x & y & [Hx Hy]%in_bounds_spec & Hc).
    exists x. split; [by apply list_elem_of_In, elem_of_range|].
    apply existsb_exists. exists y.
    split; [by apply list_elem_of_In, elem_of_range|].
    by apply bool_decide_eq_true.
Qed.

Lemma wins_is_terminal (s : GameBoard) (lx ly : Z) :
  last_move s = Some (lx, ly) → wins s lx ly = Ok true →
  is_terminal s = Ok (true, s).
Proof.
  intros Hlm Hw. unfold is_terminal. rewrite Hlm.
  destruct (wins_check_win lx ly false s true Hw) as [s' Hcw].
  rewrite Hcw. by apply check_win_no_update in Hcw as ->.
Qed.

(** X7. A winning placement makes the position terminal and decides its
    value: when a normal [place_piece] reports a win, [is_terminal()]
    then answers [True] and [evaluate()] returns 10000 if the engine
    placed the piece and -10000 if the human did. *)
Theorem winning_placement_is_terminal (s : GameBoard) (x y : Z)
    (switch_turn : bool) (s' : GameBoard) :
  board_wf s → game_over s = false → is_valid_move s x y = true →
  place_piece x y switch_turn "normal" s = Ok (Some (true, true), s') →
  is_terminal s' = Ok (true, s') ∧
  evaluate s'
  = Ok (match turn s with TurnO => 10000 | TurnX => -10000 end, s').
Proof.
  intros Hwf Hgo Hv Hpp.
  pose proof Hv as [Hin _]%andb_true_iff.
  destruct (place_piece_normal_valid x y switch_turn s Hwf Hgo Hv)
    as (win & s1 & Hcw & Hpp').
  rewrite Hpp' in Hpp. injection Hpp as -> <-.
  pose proof (check_win_wins _ _ _ _ _ _ Hcw) as Hwins.
  pose proof (check_win_frame _ _ _ _ _ _ Hcw) as Hfr.
  set (s' := set_turn_count _ _).
  assert (size s' = size s) as Hsize by (subst s'; by rewrite Hfr).
  assert (board s' = set_cell (board s) x y (piece (turn s))) as Hboard
    by (subst s'; by rewrite Hfr).
  assert (last_move s' = Some (x, y)) as Hlm by (subst s'; by rewrite Hfr).
  assert (wins s' x y = Ok true) as Hw'.
  { rewrite <- Hwins. apply wins_ext; subst s'; by rewrite Hfr. }
  assert (board_wf s') as Hwf'.
  { apply (board_wf_ext (with_cell x y (piece (turn s)) s)); [done..|].
    by apply with_cell_wf. }
  assert (in_bounds s' x y = true) as Hin'
    by (unfold in_bounds; by rewrite Hsize).
  split; [by apply (wins_is_terminal s' x y)|].
  destruct (wins_check_win x y false s' true Hw') as [s2 Hcw2].
  pose proof (check_win_no_update _ _ _ _ _ Hcw2) as ->.
  unfold evaluate. rewrite Hlm, (getitem_cell_at s' x y Hwf' Hin'), Hboard.
  rewrite (cell_at_set_cell_eq s x y _ Hwf Hin).
  destruct (turn s); simpl; by rewrite Hcw2.
Qed.

Lemma winning_placement_is_terminal_witness :
  let s := set_game_over false (with_cell 5 6 Empty board_five) in
  board_wf s ∧ is_valid_move s 5 6 = true ∧
  ∃ s', place_piece 5 6 true "normal" s = Ok (Some (true, true), s') ∧
        is_terminal s' = Ok (true, s') ∧ evaluate s' = Ok (-10000, s').
Proof.
  set (s := set_game_over false (with_cell 5 6 Empty board_five)).
  assert (board_wf s) as Hwf by (split; [reflexivity|repeat constructor]).
  split; [exact Hwf|]. split; [reflexivity|].
  destruct (place_piece 5 6 true "normal" s)
    as [[[[[] []]|] s']|] eqn:Hpp;
    try (vm_compute in Hpp; discriminate Hpp).
  exists s'. split; [reflexivity|].
  exact (winning_placement_is_terminal s 5 6 true s' Hwf eq_refl eq_refl
           Hpp).
Defined.

(** X8. [is_terminal()] leaves the object alone and answers [True]
    exactly when [check_win] holds at [last_move] or no cell of the grid
    is Empty. *)
Theorem is_terminal_spec (s : GameBoard) (b : bool) (s' : GameBoard) :
  is_terminal s = Ok (b, s') →
  s' = s ∧
  (b = true ↔
   (∃ lx ly, last_move s = Some (lx, ly) ∧ wins s lx ly = Ok true)
   ∨ ¬ ∃ x y, in_bounds s x y = true ∧ cell_at (board s) x y = Empty).
Proof.
  intros Hterm. split; [by eapply is_terminal_state|].
  revert Hterm. unfold is_terminal.
  assert (negb (any_empty s) = true ↔
          ¬ ∃ x y, in_bounds s x y = true ∧ cell_at (board s) x y = Empty)
    as Hfull.
  { rewrite <- any_empty_spec. destruct (any_empty s); simpl; split;
      try done; intros H; by destruct H. }
  destruct (last_move s) as [[lx ly]|].
  - destruct (check_win lx ly false s) as [[w s1]|] eqn:Hcw; [|done].
    pose proof (check_win_wins _ _ _ _ _ _ Hcw) as Hw.
    apply check_win_no_update in Hcw as ->.
    destruct w.
    + intros [= <- _]. split; [|done]. intros _. left. by exists lx, ly.
    + intros [= <- _]. rewrite Hfull. split; [by right|].
      intros [(lx' & ly' & [= <- <-] & Hw') | Hne]; [congruence|done].
  - intros [= <- _]. rewrite Hfull. split; [by right|].
    by intros [(lx & ly & Hlm & _) | Hne].
Qed.

Lemma is_terminal_spec_witness :
  is_terminal board_opening = Ok (false, board_opening) ∧
  ¬ ((∃ lx ly, last_move board_opening = Some (lx, ly) ∧
               wins board_opening lx ly = Ok true)
     ∨ ¬ ∃ x y, in_bounds board_opening x y = true ∧
                cell_at (board board_opening) x y = Empty).
Proof.
  split; [reflexivity|].
  destruct (is_terminal_spec board_opening false board_opening eq_refl)
    as [_ Hiff].
  intros H. apply Hiff in H. discriminate H.
Defined.

(** ** The positional score *)

(** The counters and the end position of [walk] do not depend on the
    sequence it is given. *)
Lemma walk_sequence_irrelevant (fuel : nat) (s : GameBoard) (p : Cell)
    (dx dy : Z) :
  ∀ count sequence sequence' nx ny,
    let r := walk fuel s p dx dy count sequence nx ny in
    let r' := walk fuel s p dx dy count sequence' nx ny in
    (r.1.1.1, r.1.2, r.2) = (r'.1.1.1, r'.1.2, r'.2).
Proof.
  induction fuel as [|fuel IH]; intros count sequence sequence' nx ny;
    simpl; [done|].
  destruct (in_bounds s nx ny && _); [|done]. apply IH.
Qed.

(** The count on which [evaluate_position] decides along one direction is
    the count of [check_win]. *)
Lemma direction_score_spec (s : GameBoard) (p : Cell) (x y dx dy : Z) :
  (target s ≤ (line s p x y dx dy).1 →
   direction_score s p x y dx dy = 1000) ∧
  (¬ target s ≤ (line s p x y dx dy).1 →
   0 ≤ direction_score s p x y dx dy ≤ 100).
Proof.
  unfold direction_score, line.
  pose proof (walk_sequence_irrelevant (loop_fuel s) s p dx dy 1
                [] [(x, y)] (x + dx) (y + dy)) as H1.
  destruct (walk (loop_fuel s) s p dx dy 1 [] (x + dx) (y + dy))
    as [[[c1 q1] a1] b1].
  destruct (walk (loop_fuel s) s p dx dy 1 [(x, y)] (x + dx) (y + dy))
    as [[[c1' q1'] a1'] b1'].
  simpl in H1. injection H1 as -> -> ->.
  pose proof (walk_sequence_irrelevant (loop_fuel s) s p (- dx) (- dy) c1'
                [] q1' (x - dx) (y - dy)) as H2.
  destruct (walk (loop_fuel s) s p (- dx) (- dy) c1' [] (x - dx) (y - dy))
    as [[[c2 q2] a2] b2].
  destruct (walk (loop_fuel s) s p (- dx) (- dy) c1' q1' (x - dx) (y - dy))
    as [[[c2' q2'] a2'] b2'].
  simpl in H2. injection H2 as -> -> ->. simpl.
  split.
  - intros Hle. by rewrite bool_decide_eq_true_2.
  - intros Hnle. rewrite bool_decide_eq_false_2 by done.
    repeat (match goal with
            | |- context [if ?b then _ else _] => destruct b
            end; simpl); lia.
Qed.

Lemma wins_on_piece (s : GameBoard) (x y : Z) (p : Cell) :
  board_wf s → in_bounds s x y = true → cell_at (board s) x y = p →
  p = PlayerX ∨ p = PlayerO →
  ∀ w, wins s x y = Ok w ↔
       (w = true ↔ ∃ dx dy, (dx, dy) ∈ directions ∧
                            target s ≤ (line s p x y dx dy).1).
Proof.
  intros Hwf Hin Hcell Hp w. unfold wins, check_win.
  rewrite (getitem_cell_at s x y Hwf Hin), Hcell. cbn -[check_win_dirs].
  replace (bool_decide (p = Blocked) || bool_decide (p = Empty))
    with false by (by destruct Hp as [-> | ->]).
  rewrite <- (check_win_dirs_true directions s p x y false).
  destruct (check_win_dirs directions s p x y false) as [w' s']. simpl.
  split.
  - by intros [= ->].
  - intros Hiff. f_equal. destruct w, w'; try done.
    + by apply Hiff.
    + symmetry. by apply Hiff.
Qed.

Lemma directions_elems :
  (0, 1) ∈ [(0, 1); (1, 0); (1, 1); (-1, 1)] ∧
  (1, 0) ∈ [(0, 1); (1, 0); (1, 1); (-1, 1)] ∧
  (1, 1) ∈ [(0, 1); (1, 0); (1, 1); (-1, 1)] ∧
  (-1, 1) ∈ [(0, 1); (1, 0); (1, 1); (-1, 1)].
Proof.
  split_and!.
  - apply list_elem_of_here.
  - apply list_elem_of_further, list_elem_of_here.
  - do 2 apply list_elem_of_further. apply list_elem_of_here.
  - do 3 apply list_elem_of_further. apply list_elem_of_here.
Qed.

(** X9. The score of [evaluate_position] for a cell of the grid that holds
    the player's piece lies between 0 and 4000, and tells a win apart: it
    is at least 1000 when [check_win] holds at the cell and at most 400
    when it does not. *)
Theorem evaluate_position_spec (s : GameBoard) (x y : Z) (p : Cell) :
  board_wf s → in_bounds s x y = true → cell_at (board s) x y = p →
  p = PlayerX ∨ p = PlayerO →
  0 ≤ evaluate_position s x y p ≤ 4000 ∧
  (wins s x y = Ok true → 1000 ≤ evaluate_position s x y p) ∧
  (wins s x y = Ok false → evaluate_position s x y p ≤ 400).
Proof.
  intros Hwf Hin Hcell Hp.
  pose proof (wins_on_piece s x y p Hwf Hin Hcell Hp) as Hwins.
  unfold evaluate_position, directions in *. simpl.
  pose proof (direction_score_spec s p x y 0 1) as [H1 H1'].
  pose proof (direction_score_spec s p x y 1 0) as [H2 H2'].
  pose proof (direction_score_spec s p x y 1 1) as [H3 H3'].
  pose proof (direction_score_spec s p x y (-1) 1) as [H4 H4'].
  assert (∀ dx dy, 0 ≤ direction_score s p x y dx dy ≤ 1000) as Hbound.
  { intros dx dy.
    destruct (direction_score_spec s p x y dx dy) as [Hwin Hnot].
    destruct (decide (target s ≤ (line s p x y dx dy).1)) as [L|L];
      [rewrite (Hwin L)|specialize (Hnot L)]; lia. }
  pose proof (Hbound 0 1) as B1. pose proof (Hbound 1 0) as B2.
  pose proof (Hbound 1 1) as B3. pose proof (Hbound (-1) 1) as B4.
  destruct directions_elems as (E1 & E2 & E3 & E4).
  split; [lia|]. split.
  - intros Hw. apply Hwins in Hw.
    destruct (proj1 Hw eq_refl) as (dx & dy & Hdir & Hle).
    rewrite !elem_of_cons, elem_of_nil in Hdir.
    destruct Hdir as [H|[H|[H|[H|[]]]]]; injection H as -> ->.
    + rewrite (H1 Hle). lia.
    + rewrite (H2 Hle). lia.
    + rewrite (H3 Hle). lia.
    + rewrite (H4 Hle). lia.
  - intros Hw. apply Hwins in Hw.
    assert (∀ dx dy, (dx, dy) ∈ [(0, 1); (1, 0); (1, 1); (-1, 1)] →
                     ¬ target s ≤ (line s p x y dx dy).1) as Hnone.
    { intros dx dy Hdir Hle.
      assert (false = true) as Hf; [|done].
      apply Hw. by exists dx, dy. }
    specialize (H1' (Hnone 0 1 E1)). specialize (H2' (Hnone 1 0 E2)).
    specialize (H3' (Hnone 1 1 E3)). specialize (H4' (Hnone (-1) 1 E4)).
    lia.
Qed.

Lemma evaluate_position_spec_witness :
  board_wf board_five ∧ in_bounds board_five 5 4 = true ∧
  cell_at (board board_five) 5 4 = PlayerX ∧
  wins board_five 5 4 = Ok true ∧
  1000 ≤ evaluate_position board_five 5 4 PlayerX ≤ 4000.
Proof.
  split; [exact board_wf_five|]. split; [reflexivity|].
  split; [reflexivity|]. split; [reflexivity|].
  destruct (evaluate_position_spec board_five 5 4 PlayerX board_wf_five
              eq_refl eq_refl (or_introl eq_refl)) as (Hb & Hw & _).
  assert (wins board_five 5 4 = Ok true) as Hwins
    by (vm_compute; reflexivity).
  specialize (Hw Hwins). revert Hb Hw.
  generalize (evaluate_position board_five 5 4 PlayerX). intros v Hb Hw.
  lia.
Defined.


(** ** The enumeration of the moves *)

Lemma elem_of_neighbourhood (d : Z) : d ∈ [-1; 0; 1] ↔ -1 ≤ d ≤ 1.
Proof.
  rewrite !elem_of_cons, elem_of_nil. lia.
Qed.

(** The placements found by the first loop of [get_valid_moves] are the
    Empty cells of the grid beside a piece. *)
Lemma elem_of_place_candidates_iff (s : GameBoard) (x y : Z) :
  (Place, x, y) ∈ place_candidates s ↔ beside_a_piece s x y.
Proof.
  unfold place_candidates, beside_a_piece. rewrite elem_of_flat_map. split.
  - intros (px & Hpx%elem_of_range & Hm).
    apply elem_of_flat_map in Hm as (py & Hpy%elem_of_range & Hm).
    destruct (bool_decide (cell_at (board s) px py ≠ Empty)
              && bool_decide (cell_at (board s) px py ≠ Blocked))
      eqn:Hpiece; [|by apply elem_of_nil in Hm].
    apply andb_true_iff in Hpiece as [Hne%bool_decide_eq_true
                                      Hnb%bool_decide_eq_true].
    apply elem_of_flat_map in Hm as (dx & Hdx%elem_of_neighbourhood & Hm).
    apply elem_of_flat_map in Hm as (dy & Hdy%elem_of_neighbourhood & Hm).
    cbv zeta in Hm.
    destruct (in_bounds s (px + dx) (py + dy)) eqn:Hin; cbn [andb] in Hm;
      [|by apply elem_of_nil in Hm].
    destruct (bool_decide _) eqn:Hc; [|by apply elem_of_nil in Hm].
    apply list_elem_of_singleton in Hm as [= -> ->].
    apply bool_decide_eq_true in Hc.
    split; [done|]. split; [done|]. exists px, py.
    split; [by apply in_bounds_spec|].
    split; [destruct (cell_at (board s) px py); auto; done|lia].
  - intros (Hin & Hc & px & py & [Hpx Hpy]%in_bounds_spec & Hp & Hdx & Hdy).
    exists px. split; [by apply elem_of_range|].
    apply elem_of_flat_map. exists py. split; [by apply elem_of_range|].
    rewrite !bool_decide_eq_true_2
      by (destruct Hp as [-> | ->]; done).
    cbn [andb]. apply elem_of_flat_map. exists (x - px).
    split; [by apply elem_of_neighbourhood|].
    apply elem_of_flat_map. exists (y - py).
    split; [by apply elem_of_neighbourhood|]. cbv zeta.
    replace (px + (x - px)) with x by lia.
    replace (py + (y - py)) with y by lia.
    rewrite Hin, bool_decide_eq_true_2 by done.
    by apply list_elem_of_singleton.
Qed.

Lemma place_candidates_nil (s : GameBoard) :
  place_candidates s = [] ↔ ∀ x y, ¬ beside_a_piece s x y.
Proof.
  split.
  - intros Hnil x y Hb. apply elem_of_place_candidates_iff in Hb.
    rewrite Hnil in Hb. by apply elem_of_nil in Hb.
  - intros Hnone. destruct (place_candidates s) as [|m l] eqn:Hpc; [done|].
    assert (m ∈ place_candidates s) as Hm
      by (rewrite Hpc; apply list_elem_of_here).
    pose proof Hm as (x & y & -> & _)%elem_of_place_candidates.
    apply elem_of_place_candidates_iff in Hm. by destruct (Hnone x y).
Qed.

Lemma list_of_singleton {A : Type} (l : list A) (a : A) :
  NoDup l → (∀ m, m ∈ l ↔ m = a) → l = [a].
Proof.
  intros Hnd Hel. destruct l as [|b [|c l]].
  - assert (a ∈ @nil A) as []%elem_of_nil by (by apply Hel).
  - f_equal. apply Hel, list_elem_of_here.
  - assert (b = a) as -> by apply Hel, list_elem_of_here.
    assert (c = a) as ->
      by apply Hel, list_elem_of_further, list_elem_of_here.
    apply NoDup_cons in Hnd as [Hnin _]. destruct Hnin.
    apply list_elem_of_here.
Qed.

Lemma first_seen_order_NoDup (l : list Move) : NoDup (first_seen_order l).
Proof. apply NoDup_remove_dups. Qed.

(** The pattern by which [get_valid_moves] appends the blocks and the
    removals: only for the player to move, and only if the counter of that
    player is positive. *)
Lemma elem_of_append_for_mover {A : Type} (t : Player) (cu ca : Z)
    (l e : list A) (m : A) :
  m ∈ (if bool_decide (t = TurnX) && bool_decide (0 < cu) then l ++ e
       else if bool_decide (t = TurnO) && bool_decide (0 < ca) then l ++ e
       else l)
  ↔ m ∈ l ∨ (0 < match t with TurnX => cu | TurnO => ca end ∧ m ∈ e).
Proof.
  destruct t.
  - rewrite (bool_decide_eq_true_2 (TurnX = TurnX)) by done.
    rewrite (bool_decide_eq_false_2 (TurnX = TurnO)) by done.
    destruct (bool_decide_reflect (0 < cu)); cbn [andb];
      rewrite ?elem_of_app; tauto.
  - rewrite (bool_decide_eq_false_2 (TurnO = TurnX)) by done.
    rewrite (bool_decide_eq_true_2 (TurnO = TurnO)) by done.
    destruct (bool_decide_reflect (0 < ca)); cbn [andb];
      rewrite ?elem_of_app; tauto.
Qed.

Section EnumerationSpec.

Variable list_of_set : list Move → list Move.
Hypothesis list_of_set_elem : ∀ l m, m ∈ list_of_set l ↔ m ∈ l.
Hypothesis list_of_set_NoDup : ∀ l, NoDup (list_of_set l).

(** X10. On a board without a piece, Blocked cells or not,
    [get_valid_moves()] returns the centre cell [(size // 2, size // 2)]
    as its only move, without looking at what the centre holds. *)
Theorem get_valid_moves_without_pieces (s : GameBoard) :
  (∀ x y, in_bounds s x y = true →
          cell_at (board s) x y = Empty ∨ cell_at (board s) x y = Blocked) →
  get_valid_moves list_of_set false false s
  = [(Place, Z.div (size s) 2, Z.div (size s) 2)].
Proof.
  intros Hnone. unfold get_valid_moves.
  assert (place_candidates s = []) as ->.
  { apply place_candidates_nil.
    intros x y (_ & _ & px & py & Hin & Hp & _).
    destruct (Hnone px py Hin) as [Hc | Hc]; rewrite Hc in Hp;
      by destruct Hp. }
  apply list_of_singleton; [done|].
  intros m. by rewrite list_of_set_elem, list_elem_of_singleton.
Qed.

(** X11. The placements and the blocks that [get_valid_moves] lists.  A
    Place is listed for exactly the Empty cells of the grid that have a
    piece on a neighbouring cell, or, when there is no such cell at all,
    for the centre alone.  A Block is listed, when blocks are asked for
    and the player to move has one left, for exactly the Empty cells of
    the grid. *)
Theorem get_valid_moves_places_and_blocks (s : GameBoard)
    (include_blocks include_removes : bool) (x y : Z) :
  ((Place, x, y)
     ∈ get_valid_moves list_of_set include_blocks include_removes s ↔
   beside_a_piece s x y ∨
   (∀ x' y', ¬ beside_a_piece s x' y') ∧
   x = Z.div (size s) 2 ∧ y = Z.div (size s) 2) ∧
  ((Block, x, y)
     ∈ get_valid_moves list_of_set include_blocks include_removes s ↔
   include_blocks = true ∧ 0 < mover_blocks_remaining s ∧
   in_bounds s x y = true ∧ cell_at (board s) x y = Empty).
Proof.
  assert (∀ a c, (a, x, y) ∈ cells_holding s c a ↔
                 in_bounds s x y = true ∧ cell_at (board s) x y = c)
    as Hcells.
  { intros a c. rewrite elem_of_cells_holding. split.
    - by intros (x' & y' & [= <- <-] & H).
    - intros H. by exists x, y. }
  assert (∀ a a' c, a ≠ a' → (a, x, y) ∉ cells_holding s c a') as Hother.
  { intros a a' c Hne (x' & y' & [= -> _ _] & _)%elem_of_cells_holding.
    done. }
  set (set_moves := list_of_set
         match place_candidates s with
         | [] => [(Place, Z.div (size s) 2, Z.div (size s) 2)]
         | _ => place_candidates s
         end).
  assert ((Place, x, y) ∈ set_moves ↔
          beside_a_piece s x y ∨
          (∀ x' y', ¬ beside_a_piece s x' y') ∧
          x = Z.div (size s) 2 ∧ y = Z.div (size s) 2) as Hplace.
  { subst set_moves. rewrite list_of_set_elem.
    pose proof (place_candidates_nil s) as Hnil.
    pose proof (elem_of_place_candidates_iff s x y) as Hiff.
    destruct (place_candidates s) as [|m0 l].
    - rewrite list_elem_of_singleton. split.
      + intros [= -> ->]. right. split; [by apply Hnil|done].
      + intros [Hb | (_ & -> & ->)]; [|done].
        apply Hiff in Hb. by apply elem_of_nil in Hb.
    - rewrite Hiff. split; [by left|].
      intros [Hb | (Hnone & _)]; [done|].
      by apply Hnil in Hnone. }
  assert ((Block, x, y) ∉ set_moves) as Hnoblock.
  { subst set_moves.
    intros (x' & y' & Heq)%(set_moves_are_places list_of_set
                              list_of_set_elem). done. }
  pose proof (Hother Place Block Empty ltac:(done)) as HnPB.
  pose proof (Hother Place Remove (piece (other (turn s))) ltac:(done))
    as HnPR.
  pose proof (Hother Block Remove (piece (other (turn s))) ltac:(done))
    as HnBR.
  pose proof (Hcells Block Empty) as HB.
  assert (∀ m, m ∈ get_valid_moves list_of_set include_blocks
                     include_removes s ↔
               m ∈ set_moves
               ∨ (include_blocks = true ∧ 0 < mover_blocks_remaining s
                  ∧ m ∈ cells_holding s Empty Block)
               ∨ (include_removes = true ∧ 0 < mover_power_moves_remaining s
                  ∧ m ∈ cells_holding s (piece (other (turn s))) Remove))
    as Hall.
  { intros m. unfold get_valid_moves, mover_blocks_remaining,
      mover_power_moves_remaining. fold set_moves. cbv zeta.
    destruct include_blocks, include_removes;
      rewrite ?elem_of_append_for_mover; intuition congruence. }
  rewrite !Hall, Hplace, HB. split; tauto.
Qed.

End EnumerationSpec.

Lemma no_piece_check (s : GameBoard) :
  forallb (λ '(x, y),
    bool_decide (cell_at (board s) x y = Empty)
    || bool_decide (cell_at (board s) x y = Blocked)) (grid_cells s) = true →
  ∀ x y, in_bounds s x y = true →
         cell_at (board s) x y = Empty ∨ cell_at (board s) x y = Blocked.
Proof.
  rewrite forallb_forall. intros Hall x y Hin.
  apply elem_of_grid_cells, list_elem_of_In in Hin.
  specialize (Hall (x, y) Hin). simpl in Hall.
  apply orb_true_iff in Hall as [H | H]; apply bool_decide_eq_true in H;
    auto.
Qed.

Lemma get_valid_moves_without_pieces_witness :
  cell_at (board board_vacated) 0 0 = Blocked ∧
  (∀ x y, in_bounds board_vacated x y = true →
          cell_at (board board_vacated) x y = Empty
          ∨ cell_at (board board_vacated) x y = Blocked) ∧
  get_valid_moves first_seen_order false false board_vacated
  = [(Place, 5, 5)].
Proof.
  assert (∀ x y, in_bounds board_vacated x y = true →
                 cell_at (board board_vacated) x y = Empty
                 ∨ cell_at (board board_vacated) x y = Blocked) as Hnone.
  { apply no_piece_check. vm_compute. reflexivity. }
  split; [reflexivity|]. split; [exact Hnone|].
  exact (get_valid_moves_without_pieces first_seen_order
           first_seen_order_elem first_seen_order_NoDup board_vacated
           Hnone).
Defined.

Lemma get_valid_moves_places_and_blocks_witness :
  beside_a_piece board_opening 4 4 ∧
  (Place, 4, 4) ∈ get_valid_moves first_seen_order true true board_opening ∧
  (Block, 0, 0) ∈ get_valid_moves first_seen_order true true board_opening ∧
  (Block, 5, 5) ∉ get_valid_moves first_seen_order true true board_opening.
Proof.
  assert (beside_a_piece board_opening 4 4) as Hbeside.
  { split; [reflexivity|]. split; [reflexivity|]. exists 5, 5.
    split; [reflexivity|]. split; [by left|lia]. }
  split; [exact Hbeside|].
  pose proof (get_valid_moves_places_and_blocks first_seen_order
                first_seen_order_elem board_opening true true 4 4)
    as [Hplace _].
  pose proof (get_valid_moves_places_and_blocks first_seen_order
                first_seen_order_elem board_opening true true 0 0)
    as [_ Hblock].
  pose proof (get_valid_moves_places_and_blocks first_seen_order
                first_seen_order_elem board_opening true true 5 5)
    as [_ Hcentre].
  split; [apply Hplace; by left|]. split.
  - apply Hblock. split; [reflexivity|]. split; [reflexivity|].
    split; reflexivity.
  - intros (_ & _ & _ & Hc)%Hcentre. discriminate Hc.
Defined.

(** ** What the search leaves alone, whatever the position *)

Lemma setitem_shape (b b1 : list (list Cell)) (x y : Z) (v : Cell) :
  setitem b x y v = Ok b1 → same_shape b b1.
Proof.
  unfold setitem, same_shape. intros Hset.
  destruct (py_index (Z.of_nat (length b)) x) as [i|]; simpl in *; [|done].
  destruct (b !! i) as [row|] eqn:Hrow; [|done].
  destruct (py_index (Z.of_nat (length row)) y) as [j|];
    simpl in *; [|done].
  injection Hset as <-.
  rewrite list_fmap_insert, length_insert.
  apply list_insert_id. by rewrite list_lookup_fmap, Hrow.
Qed.

Lemma same_shape_wf (s s' : GameBoard) :
  size s' = size s → same_shape (board s) (board s') →
  board_wf s → board_wf s'.
Proof.
  unfold same_shape, board_wf. intros Hsize Hshape [Hlen Hrows].
  rewrite Hsize. split.
  - rewrite <- Hlen, <- (length_fmap length (board s')), Hshape.
    by rewrite length_fmap.
  - apply (Forall_fmap length (λ n, Z.of_nat n = size s)).
    rewrite Hshape. by apply Forall_fmap.
Qed.

Lemma same_off_grid_eq (s s' : GameBoard) :
  same_off_grid s s' →
  s' = set_board (board s') (set_last_move (last_move s') s).
Proof.
  unfold same_off_grid. destruct s, s'.
  cbv [set_board set_last_move size target board turn last_move game_over
       user_blocks_remaining ai_blocks_remaining
       user_power_moves_remaining ai_power_moves_remaining
       winning_sequence last_removed_tile turn_count].
  by intros [= -> -> -> -> -> -> -> -> -> -> ->].
Qed.

Lemma same_off_grid_refl (s : GameBoard) : same_off_grid s s.
Proof. done. Qed.

Lemma same_off_grid_trans (s1 s2 s3 : GameBoard) :
  same_off_grid s1 s2 → same_off_grid s2 s3 → same_off_grid s1 s3.
Proof. unfold same_off_grid. congruence. Qed.

Lemma same_off_grid_set_last_move (s s' : GameBoard) (v : option (Z * Z)) :
  same_off_grid s s' → same_off_grid s (set_last_move v s').
Proof. unfold same_off_grid. by intros <-. Qed.

Lemma same_shape_trans (b1 b2 b3 : list (list Cell)) :
  same_shape b1 b2 → same_shape b2 b3 → same_shape b1 b3.
Proof. unfold same_shape. congruence. Qed.

(** The end of each branch of a trial, for what lies off the grid: the
    recursive call has returned in [Hrec] and the second write is about to
    be made. *)
Ltac off_grid_undo s Hkeeps Hset Hrec :=
  let Hoff := fresh "Hoff" in
  let Hshape := fresh "Hshape" in
  let Hset2 := fresh "Hset2" in
  apply Hkeeps in Hrec as [Hoff Hshape];
  apply same_off_grid_eq in Hoff;
  match goal with
  | |- context [setitem ?b ?x ?y ?v] =>
      destruct (setitem b x y v) as [?b2|] eqn:Hset2; [|done]
  end;
  cbn [mbind result_bind]; intros [= <- <-]; split;
  [ rewrite Hoff; unfold same_off_grid;
    destruct s as [sz tg bd tr lm go ub ab up ap ws lr tc];
    cbv [set_last_move set_board set_turn_count set_ai_blocks_remaining
         set_user_blocks_remaining set_ai_power_moves_remaining
         set_user_power_moves_remaining
         size target turn game_over user_blocks_remaining
         ai_blocks_remaining user_power_moves_remaining
         ai_power_moves_remaining winning_sequence last_removed_tile
         turn_count];
    f_equal; lia
  | apply setitem_shape in Hset, Hset2;
    exact (same_shape_trans _ _ _ (same_shape_trans _ _ _ Hset Hshape)
             Hset2) ].

Lemma max_trial_off_grid (rec : search) (alpha beta : ext) (m : Move)
    (s : GameBoard) (r : option ext) (s' : GameBoard) :
  keeps_off_grid rec →
  max_trial rec alpha beta m s = Ok (r, s') →
  same_off_grid s s' ∧ same_shape (board s) (board s').
Proof.
  intros Hkeeps. destruct m as [[action x] y]. unfold max_trial.
  destruct (is_last_removed s x y); [by intros [= _ <-]|].
  destruct (_ && _); [by intros [= _ <-]|].
  destruct action.
  - destruct (setitem (board s) x y PlayerO) as [b1|] eqn:Hset; [|done].
    cbn [mbind result_bind].
    destruct (rec _ _ _ _) as [[eval t]|] eqn:Hrec; [|done].
    off_grid_undo s Hkeeps Hset Hrec.
  - destruct (bool_decide _); [by intros [= _ <-]|].
    destruct (setitem (board s) x y Blocked) as [b1|] eqn:Hset; [|done].
    cbn [mbind result_bind].
    destruct (rec _ _ _ _) as [[eval t]|] eqn:Hrec; [|done].
    off_grid_undo s Hkeeps Hset Hrec.
  - destruct (bool_decide _); [by intros [= _ <-]|].
    destruct (getitem (board s) x y) as [removed_piece|]; [|done].
    cbn [mbind result_bind].
    destruct (setitem (board s) x y Empty) as [b1|] eqn:Hset; [|done].
    cbn [mbind result_bind].
    destruct (rec _ _ _ _) as [[eval t]|] eqn:Hrec; [|done].
    off_grid_undo s Hkeeps Hset Hrec.
Qed.

Lemma min_trial_off_grid (rec : search) (alpha beta : ext) (m : Move)
    (s : GameBoard) (r : option ext) (s' : GameBoard) :
  keeps_off_grid rec →
  min_trial rec alpha beta m s = Ok (r, s') →
  same_off_grid s s' ∧ same_shape (board s) (board s').
Proof.
  intros Hkeeps. destruct m as [[action x] y]. unfold min_trial.
  destruct action.
  - destruct (setitem (board s) x y PlayerX) as [b1|] eqn:Hset; [|done].
    cbn [mbind result_bind].
    destruct (rec _ _ _ _) as [[eval t]|] eqn:Hrec; [|done].
    off_grid_undo s Hkeeps Hset Hrec.
  - destruct (bool_decide _); [by intros [= _ <-]|].
    destruct (setitem (board s) x y Blocked) as [b1|] eqn:Hset; [|done].
    cbn [mbind result_bind].
    destruct (rec _ _ _ _) as [[eval t]|] eqn:Hrec; [|done].
    off_grid_undo s Hkeeps Hset Hrec.
  - destruct (bool_decide _); [by intros [= _ <-]|].
    destruct (getitem (board s) x y) as [removed_piece|]; [|done].
    cbn [mbind result_bind].
    destruct (setitem (board s) x y Empty) as [b1|] eqn:Hset; [|done].
    cbn [mbind result_bind].
    destruct (rec _ _ _ _) as [[eval t]|] eqn:Hrec; [|done].
    off_grid_undo s Hkeeps Hset Hrec.
Qed.

Lemma max_loop_off_grid (rec : search) (beta : ext) :
  keeps_off_grid rec →
  ∀ moves max_eval alpha s v s',
    max_loop rec moves max_eval alpha beta s = Ok (v, s') →
    same_off_grid s s' ∧ same_shape (board s) (board s').
Proof.
  intros Hkeeps moves.
  induction moves as [|m moves IH]; intros max_eval alpha s v s'; simpl.
  { by intros [= _ <-]. }
  destruct (max_trial rec alpha beta m s) as [[r s1]|] eqn:Htrial; [|done].
  destruct (max_trial_off_grid rec alpha beta m s r s1 Hkeeps Htrial)
    as [Hoff Hshape].
  destruct r as [eval|].
  - destruct (ext_le beta (py_max alpha eval)).
    + intros [= _ <-]. split; [|done].
      by apply same_off_grid_set_last_move.
    + intros [Hoff' Hshape']%IH. split.
      * eapply same_off_grid_trans; [|exact Hoff'].
        by apply same_off_grid_set_last_move.
      * by eapply same_shape_trans.
  - intros [Hoff' Hshape']%IH. split.
    + by eapply same_off_grid_trans.
    + by eapply same_shape_trans.
Qed.

Lemma min_loop_off_grid (rec : search) (alpha : ext) :
  keeps_off_grid rec →
  ∀ moves min_eval beta s v s',
    min_loop rec moves min_eval alpha beta s = Ok (v, s') →
    same_off_grid s s' ∧ same_shape (board s) (board s').
Proof.
  intros Hkeeps moves.
  induction moves as [|m moves IH]; intros min_eval beta s v s'; simpl.
  { by intros [= _ <-]. }
  destruct (min_trial rec alpha beta m s) as [[r s1]|] eqn:Htrial; [|done].
  destruct (min_trial_off_grid rec alpha beta m s r s1 Hkeeps Htrial)
    as [Hoff Hshape].
  destruct r as [eval|].
  - destruct (ext_le (py_min beta eval) alpha).
    + intros [= _ <-]. split; [|done].
      by apply same_off_grid_set_last_move.
    + intros [Hoff' Hshape']%IH. split.
      * eapply same_off_grid_trans; [|exact Hoff'].
        by apply same_off_grid_set_last_move.
      * by eapply same_shape_trans.
  - intros [Hoff' Hshape']%IH. split.
    + by eapply same_off_grid_trans.
    + by eapply same_shape_trans.
Qed.

Lemma restore_power_moves_off_grid (s s2 : GameBoard) :
  same_off_grid s s2 →
  same_off_grid s
    (set_user_power_moves_remaining (user_power_moves_remaining s)
       (set_ai_power_moves_remaining (ai_power_moves_remaining s) s2)).
Proof.
  intros ->%same_off_grid_eq.
  by destruct s as [sz tg bd tr lm go ub ab up ap ws lr tc].
Qed.

Lemma minimax_off_grid (list_of_set : list Move → list Move)
    (depth : nat) :
  keeps_off_grid (minimax list_of_set depth).
Proof.
  assert (keeps_off_grid (minimax list_of_set 0)) as Hbase.
  { intros alpha beta maximizing t v t'. simpl. unfold evaluate_node.
    destruct (evaluate t) as [[z t1]|] eqn:Hev; [|done].
    apply evaluate_state in Hev as ->. by intros [= _ <-]. }
  induction depth as [|depth IH]; [exact Hbase|].
  intros alpha beta maximizing s v s'. cbn [minimax].
  destruct (is_terminal s) as [[term s1]|] eqn:Hterm; [|done].
  apply is_terminal_state in Hterm as ->.
  destruct term; [apply (Hbase alpha beta maximizing)|].
  unfold minimax_node. destruct maximizing.
  - destruct (max_loop _ _ _ _ _ _) as [[max_eval s2]|] eqn:Hloop; [|done].
    pose proof (max_loop_off_grid (minimax list_of_set depth) beta IH
                  _ _ _ _ _ _ Hloop) as [Hoff Hshape].
    intros [= _ <-]. split; [by apply restore_power_moves_off_grid|done].
  - destruct (min_loop _ _ _ _ _ _) as [[min_eval s2]|] eqn:Hloop; [|done].
    pose proof (min_loop_off_grid (minimax list_of_set depth) alpha IH
                  _ _ _ _ _ _ Hloop) as [Hoff Hshape].
    intros [= _ <-]. split; [by apply restore_power_moves_off_grid|done].
Qed.

Lemma max_skips_off_grid (s s' : GameBoard) (m : Move) :
  same_off_grid s s' → max_skips s' m = max_skips s m.
Proof.
  intros ->%same_off_grid_eq. by destruct m as [[action x] y].
Qed.

(** The loop of [ai_move_decision] keeps what lies off the grid, and the
    move it has chosen so far is always a candidate that it tried. *)
Lemma decision_loop_choice (rec : search) (s0 : GameBoard)
    (all : list Move) :
  keeps_off_grid rec →
  ∀ moves, (∀ m, m ∈ moves → m ∈ all) →
  ∀ best_score best_move cur best s',
    same_off_grid s0 cur ∧ same_shape (board s0) (board cur) →
    (∀ m, best_move = Some m → m ∈ all ∧ max_skips s0 m = false) →
    decision_loop rec moves best_score best_move cur = Ok (best, s') →
    (same_off_grid s0 s' ∧ same_shape (board s0) (board s')) ∧
    ∀ m, best = Some m → m ∈ all ∧ max_skips s0 m = false.
Proof.
  intros Hkeeps moves.
  induction moves as [|m moves IH];
    intros Hmoves best_score best_move cur best s' [Hcur Hshape] Hbest; simpl.
  { by intros [= <- <-]. }
  destruct (max_trial rec NegInf PosInf m cur) as [[r s1]|] eqn:Htrial;
    [|done].
  destruct (max_trial_off_grid rec NegInf PosInf m cur r s1 Hkeeps Htrial)
    as [Hoff Hshape1].
  assert (∀ m', m' ∈ moves → m' ∈ all) as Hrest
    by (intros m' Hm'; by apply Hmoves, list_elem_of_further).
  assert (same_off_grid s0 s1) as Hs1 by (by eapply same_off_grid_trans).
  assert (same_shape (board s0) (board s1)) as Hsh1
    by (by eapply same_shape_trans).
  destruct r as [score|].
  - assert (max_skips s0 m = false) as Hnoskip.
    { rewrite <- (max_skips_off_grid s0 cur m Hcur).
      destruct (max_skips cur m) eqn:Hskip; [|done].
      by rewrite (max_trial_skip rec NegInf PosInf m cur Hskip) in Htrial. }
    pose proof (same_off_grid_set_last_move s0 s1 None Hs1) as Hs2.
    destruct (ext_lt best_score score).
    + apply IH; [done|done|].
      intros m' [= <-]. split; [apply Hmoves, list_elem_of_here|done].
    + by apply IH.
  - by apply IH.
Qed.

Section SearchInvariants.

Variable list_of_set : list Move → list Move.

(** X12. Whatever the position and the depth, [minimax] and
    [ai_move_decision] change nothing but the contents of the grid and
    [last_move]: on return the turn, the four counters, [turn_count],
    [game_over], [winning_sequence], [last_removed_tile], [size] and
    [target] are what they were, and the grid has kept its shape, so that
    a well-formed board stays well formed. *)
Theorem search_keeps_off_grid (depth : nat) (s : GameBoard) :
  (∀ alpha beta maximizing v s',
     minimax list_of_set depth alpha beta maximizing s = Ok (v, s') →
     s' = set_board (board s') (set_last_move (last_move s') s) ∧
     (board_wf s → board_wf s')) ∧
  (∀ best s',
     ai_move_decision list_of_set depth s = Ok (best, s') →
     s' = set_board (board s') (set_last_move (last_move s') s) ∧
     (board_wf s → board_wf s')).
Proof.
  assert (∀ s', same_off_grid s s' ∧ same_shape (board s) (board s') →
                s' = set_board (board s') (set_last_move (last_move s') s) ∧
                (board_wf s → board_wf s')) as Hfin.
  { intros s' [Hoff Hshape]. split; [by apply same_off_grid_eq|].
    apply same_shape_wf; [|done].
    apply same_off_grid_eq in Hoff. by rewrite Hoff. }
  split.
  - intros alpha beta maximizing v s' Hmm.
    apply Hfin.
    exact (minimax_off_grid list_of_set depth alpha beta maximizing s v s'
             Hmm).
  - intros best s' Hdec. apply Hfin.
    unfold ai_move_decision in Hdec.
    by apply (decision_loop_choice (minimax list_of_set depth) s
                (get_valid_moves list_of_set true true s)
                (minimax_off_grid list_of_set depth) _ (λ m Hm, Hm)
                NegInf None s best s').
Qed.

(** X13. A move returned by [ai_move_decision] is one of the candidates of
    [get_valid_moves] that its loop did not pass over: its coordinate is
    not [last_removed_tile]; if it is a Remove then [turn_count] is at
    least 10 and the engine has a power move left; if it is a Block the
    engine has a block left. *)
Theorem ai_move_decision_choice (depth_minus_1 : nat) (s : GameBoard)
    (action : Action) (x y : Z) (s' : GameBoard) :
  ai_move_decision list_of_set depth_minus_1 s
    = Ok (Some (action, x, y), s') →
  (action, x, y) ∈ get_valid_moves list_of_set true true s ∧
  is_last_removed s x y = false ∧
  (action = Remove →
   10 ≤ turn_count s ∧ 0 < ai_power_moves_remaining s) ∧
  (action = Block → 0 < ai_blocks_remaining s).
Proof.
  intros Hdec. unfold ai_move_decision in Hdec.
  destruct (decision_loop_choice (minimax list_of_set depth_minus_1) s
              (get_valid_moves list_of_set true true s)
              (minimax_off_grid list_of_set depth_minus_1) _ (λ m Hm, Hm)
              NegInf None s (Some (action, x, y)) s'
              (conj (same_off_grid_refl s) eq_refl)
              ltac:(done) Hdec) as [_ Hbest].
  destruct (Hbest _ eq_refl) as [Hin Hskip]. split; [done|].
  unfold max_skips in Hskip.
  apply orb_false_iff in Hskip as [Hskip Hpower].
  apply orb_false_iff in Hskip as [Hskip Hblock].
  apply orb_false_iff in Hskip as [Hlast Hearly].
  split; [done|]. split.
  - intros ->.
    rewrite (bool_decide_eq_true_2 (Remove = Remove)) in Hearly, Hpower
      by done.
    simpl in Hearly, Hpower.
    apply bool_decide_eq_false in Hearly, Hpower. lia.
  - intros ->.
    rewrite (bool_decide_eq_true_2 (Block = Block)) in Hblock by done.
    simpl in Hblock. apply bool_decide_eq_false in Hblock. lia.
Qed.

End SearchInvariants.

Lemma search_keeps_off_grid_witness :
  ∃ v s',
    minimax first_seen_order 2 NegInf PosInf true board_opening
      = Ok (v, s') ∧
    s' = set_board (board s') (set_last_move (last_move s') board_opening).
Proof.
  eassert (minimax first_seen_order 2 NegInf PosInf true board_opening
           = Ok (_, _)) as Hmm by (vm_compute; reflexivity).
  eexists _, _. split; [exact Hmm|].
  exact (proj1 (proj1 (search_keeps_off_grid first_seen_order 2
                         board_opening) NegInf PosInf true _ _ Hmm)).
Defined.

Lemma ai_move_decision_choice_witness :
  ∃ action x y s',
    ai_move_decision first_seen_order 1 board_opening
      = Ok (Some (action, x, y), s') ∧
    (action, x, y) ∈ get_valid_moves first_seen_order true true board_opening
    ∧ is_last_removed board_opening x y = false.
Proof.
  eassert (ai_move_decision first_seen_order 1 board_opening
           = Ok (Some (_, _, _), _)) as Hdec by (vm_compute; reflexivity).
  destruct (ai_move_decision_choice first_seen_order 1 board_opening
              _ _ _ _ Hdec) as (Hin & Hlast & _).
  eexists _, _, _, _. split; [exact Hdec|].
  split; [exact Hin|exact Hlast].
Defined.

(** X14. From a well-formed board, whenever [minimax] or
    [ai_move_decision] returns and its run has met no node at which
    [get_valid_moves] takes the centre for want of a candidate while the
    centre is not Empty (the guarded search returns, and then the search
    returns the same), the whole search is an exact undo: the grid, the
    counters, [turn_count] and every other attribute are what they were
    before the call, except [last_move]. *)
Theorem search_restores_object (list_of_set : list Move → list Move)
    (depth : nat) (s : GameBoard) :
  (∀ l m, m ∈ list_of_set l ↔ m ∈ l) →
  board_wf s →
  (∀ alpha beta maximizing v s',
     minimax_checked list_of_set depth alpha beta maximizing s = Ok (v, s') →
     minimax list_of_set depth alpha beta maximizing s = Ok (v, s') ∧
     s' = set_last_move (last_move s') s) ∧
  (∀ best s',
     ai_move_decision_checked list_of_set depth s = Ok (best, s') →
     ai_move_decision list_of_set depth s = Ok (best, s') ∧
     s' = set_last_move (last_move s') s).
Proof.
  intros Helem Hwf. split.
  - intros alpha beta maximizing v s' Hmm.
    split; [by apply minimax_checked_erase|].
    apply set_last_move_None_eq.
    by apply (minimax_checked_restores list_of_set Helem depth alpha beta
                maximizing s v s').
  - intros best s' Hdec.
    split; [by apply ai_move_decision_checked_erase|].
    apply set_last_move_None_eq.
    by apply (ai_move_decision_checked_restores list_of_set Helem depth s
                best s').
Qed.

Lemma board_wf_blocked_centre : board_wf board_blocked_centre.
Proof. split; [reflexivity|repeat constructor]. Qed.

Lemma search_restores_object_witness :
  board_wf board_opening ∧ board_wf board_blocked_centre ∧
  (∃ s',
     ai_move_decision_checked first_seen_order 2 board_opening
       = Ok (Some (Place, 4, 4), s') ∧
     ai_move_decision first_seen_order 2 board_opening
       = Ok (Some (Place, 4, 4), s') ∧
     s' = set_last_move (last_move s') board_opening) ∧
  (∃ best s',
     ai_move_decision_checked first_seen_order 1 board_blocked_centre
       = Ok (best, s') ∧
     ai_move_decision first_seen_order 1 board_blocked_centre
       = Ok (best, s') ∧
     s' = set_last_move (last_move s') board_blocked_centre).
Proof.
  split; [exact board_wf_opening|].
  split; [exact board_wf_blocked_centre|]. split.
  - eassert (ai_move_decision_checked first_seen_order 2 board_opening
             = Ok (Some (Place, 4, 4), _)) as Hdec
      by (vm_compute; reflexivity).
    eexists. split; [exact Hdec|].
    exact (proj2 (search_restores_object first_seen_order 2 board_opening
                    first_seen_order_elem board_wf_opening) _ _ Hdec).
  - eassert (ai_move_decision_checked first_seen_order 1
               board_blocked_centre = Ok (_, _)) as Hdec
      by (vm_compute; reflexivity).
    eexists _, _. split; [exact Hdec|].
    exact (proj2 (search_restores_object first_seen_order 1
                    board_blocked_centre first_seen_order_elem
                    board_wf_blocked_centre) _ _ Hdec).
Defined.

(** The guard is needed: [board_blocked_centre] is reached from the
    initial position by [block_tile(5, 5)] and [place_piece(0, 0)]; the
    search of depth 3 from it meets a node without a piece (the engine
    blocks, the human removes the lone ['X']), takes the Blocked centre as
    its candidate, and returns with the centre Empty. *)
Remark centre_block_lost_at_depth_3 :
  (∃ r1 s1 r2,
     block_tile 5 5 (init 10 5) = Ok (r1, s1) ∧
     place_piece 0 0 true "normal" s1 = Ok (r2, board_blocked_centre)) ∧
  ai_move_decision_checked first_seen_order 2 board_blocked_centre
  = Raise IndexError ∧
  ∃ best s',
    ai_move_decision first_seen_order 2 board_blocked_centre
      = Ok (best, s') ∧
    cell_at (board board_blocked_centre) 5 5 = Blocked ∧
    cell_at (board s') 5 5 = Empty.
Proof.
  split; [eexists _, _, _; split; vm_compute; reflexivity|].
  split; [vm_compute; reflexivity|].
  eexists _, _. split; [vm_compute; reflexivity|].
  split; reflexivity.
Qed.

(** ** The tactical shortcuts *)

Lemma with_cell_restore (x y : Z) (v c : Cell) (s : GameBoard) :
  cell_at (board s) x y = c →
  set_board (set_cell (board (with_cell x y v s)) x y c) (with_cell x y v s)
  = s.
Proof.
  intros <-. unfold with_cell. cbn [board set_board].
  rewrite set_cell_restore. by destruct s.
Qed.

(** The scan hands the object back untouched. *)
Lemma find_completing_cell_state (player : Cell) (cells : list (Z * Z)) :
  ∀ s r s', find_completing_cell player cells s = Ok (r, s') → s' = s.
Proof.
  induction cells as [|[x y] cells IH]; intros s r s'; simpl.
  { by intros [= _ <-]. }
  destruct (bool_decide (cell_at (board s) x y = Empty)) eqn:He;
    [|apply IH].
  apply bool_decide_eq_true in He.
  fold (with_cell x y player s).
  destruct (check_win x y false (with_cell x y player s))
    as [[w s1]|] eqn:Hcw; [|done].
  apply check_win_no_update in Hcw as ->.
  rewrite (with_cell_restore x y player Empty s He).
  destruct w; [by intros [= _ <-]|apply IH].
Qed.

(** What the scan returns: the first Empty cell, in the order of the
    loops, on which the piece of [player] would complete a line. *)
Lemma find_completing_cell_spec (player : Cell) (s : GameBoard) :
  board_wf s →
  ∀ cells, (∀ x y, (x, y) ∈ cells → in_bounds s x y = true) →
  ∃ r, find_completing_cell player cells s = Ok (r, s) ∧
       match r with
       | Some (x, y) =>
           ∃ pre post,
             cells = pre ++ (x, y) :: post ∧
             cell_at (board s) x y = Empty ∧
             wins (with_cell x y player s) x y = Ok true ∧
             ∀ x' y', (x', y') ∈ pre → cell_at (board s) x' y' = Empty →
                      wins (with_cell x' y' player s) x' y' = Ok false
       | None =>
           ∀ x y, (x, y) ∈ cells → cell_at (board s) x y = Empty →
                  wins (with_cell x y player s) x y = Ok false
       end.
Proof.
  intros Hwf cells.
  induction cells as [|[x y] cells IH]; intros Hcells; simpl.
  { exists None. split; [done|]. by intros x y []%elem_of_nil. }
  destruct IH as (r & Hr & Hspec).
  { intros x' y' Hin. by apply Hcells, list_elem_of_further. }
  destruct (bool_decide (cell_at (board s) x y = Empty)) eqn:He.
  - apply bool_decide_eq_true in He.
    fold (with_cell x y player s).
    assert (in_bounds (with_cell x y player s) x y = true) as Hin
      by apply Hcells, list_elem_of_here.
    destruct (wins_in_bounds (with_cell x y player s) x y
                (with_cell_wf x y player s Hwf) Hin) as [w Hw].
    destruct (wins_check_win x y false _ w Hw) as [s1 Hcw].
    rewrite Hcw. apply check_win_no_update in Hcw as ->.
    rewrite (with_cell_restore x y player Empty s He).
    destruct w.
    + exists (Some (x, y)). split; [done|]. exists [], cells.
      split; [done|]. split; [done|]. split; [done|].
      by intros x' y' []%elem_of_nil.
    + exists r. split; [done|]. destruct r as [[rx ry]|].
      * destruct Hspec as (pre & post & -> & Hre & Hrw & Hpre).
        exists ((x, y) :: pre), post. split; [done|]. split; [done|].
        split; [done|].
        intros x' y' [[= -> ->] | Hin']%elem_of_cons; [done|].
        by apply Hpre.
      * intros x' y' [[= -> ->] | Hin']%elem_of_cons; [done|].
        by apply Hspec.
  - apply bool_decide_eq_false in He.
    exists r. split; [done|]. destruct r as [[rx ry]|].
    + destruct Hspec as (pre & post & -> & Hre & Hrw & Hpre).
      exists ((x, y) :: pre), post. split; [done|]. split; [done|].
      split; [done|].
      intros x' y' [[= -> ->] | Hin']%elem_of_cons; [done|].
      by apply Hpre.
    + intros x' y' [[= -> ->] | Hin']%elem_of_cons; [done|].
      by apply Hspec.
Qed.

(** The scan of the whole grid, as [find_winning_move] and
    [find_blocking_move] run it. *)
Lemma find_completing_cell_grid (player : Cell) (s : GameBoard) :
  board_wf s →
  ∃ r, find_completing_cell player (grid_cells s) s = Ok (r, s) ∧
       match r with
       | Some (x, y) =>
           in_bounds s x y = true ∧
           cell_at (board s) x y = Empty ∧
           wins (with_cell x y player s) x y = Ok true ∧
           ∃ pre post,
             grid_cells s = pre ++ (x, y) :: post ∧
             ∀ x' y', (x', y') ∈ pre → cell_at (board s) x' y' = Empty →
                      wins (with_cell x' y' player s) x' y' = Ok false
       | None =>
           ∀ x y, in_bounds s x y = true → cell_at (board s) x y = Empty →
                  wins (with_cell x y player s) x y = Ok false
       end.
Proof.
  intros Hwf.
  destruct (find_completing_cell_spec player s Hwf (grid_cells s))
    as (r & Hfind & Hspec).
  { intros x y. apply elem_of_grid_cells. }
  exists r. split; [done|].
  destruct r as [[x y]|].
  - destruct Hspec as (pre & post & Hcells & He & Hw & Hpre).
    split_and!; [|done|done|].
    + apply elem_of_grid_cells. rewrite Hcells.
      apply elem_of_app. right. apply list_elem_of_here.
    + by exists pre, post.
  - intros x y Hin. by apply Hspec, elem_of_grid_cells.
Qed.

(** X15. [find_winning_move] returns without changing the object.  When
    it returns a move, the move is the Place of the first Empty cell of
    the grid, rows first, on which an ['O'] completes a line; it returns
    [None] exactly when no Empty cell does. *)
Theorem find_winning_move_spec (s : GameBoard) :
  board_wf s →
  ∃ r, find_winning_move s = Ok (r, s) ∧
       match r with
       | Some (action, x, y) =>
           action = Place ∧ in_bounds s x y = true ∧
           cell_at (board s) x y = Empty ∧
           wins (with_cell x y PlayerO s) x y = Ok true ∧
           ∃ pre post,
             grid_cells s = pre ++ (x, y) :: post ∧
             ∀ x' y', (x', y') ∈ pre → cell_at (board s) x' y' = Empty →
                      wins (with_cell x' y' PlayerO s) x' y' = Ok false
       | None =>
           ∀ x y, in_bounds s x y = true → cell_at (board s) x y = Empty →
                  wins (with_cell x y PlayerO s) x y = Ok false
       end.
Proof.
  intros Hwf. unfold find_winning_move.
  destruct (find_completing_cell_grid PlayerO s Hwf) as (r & -> & Hspec).
  destruct r as [[x y]|]; [|by exists None].
  exists (Some (Place, x, y)). by split.
Qed.

Lemma find_winning_move_spec_witness :
  let s := board_chance in
  board_wf s ∧
  find_winning_move s = Ok (Some (Place, 6, 2), s) ∧
  wins (with_cell 6 2 PlayerO s) 6 2 = Ok true.
Proof.
  set (s := board_chance).
  assert (board_wf s) as Hwf by (split; [reflexivity|repeat constructor]).
  split; [exact Hwf|].
  destruct (find_winning_move_spec s Hwf) as (r & Hfind & Hspec).
  assert (find_winning_move s = Ok (Some (Place, 6, 2), s)) as Heq
    by (vm_compute; reflexivity).
  split; [exact Heq|].
  rewrite Heq in Hfind. injection Hfind as <-.
  exact (proj1 (proj2 (proj2 (proj2 Hspec)))).
Defined.

(** X16. [find_blocking_move] returns without changing the object.  When
    it returns a move, the move targets the first Empty cell of the grid,
    rows first, on which an ['X'] would complete a line, as a Block when
    the engine has a block left and as a Place otherwise; it returns
    [None] exactly when no Empty cell completes a line of ['X']. *)
Theorem find_blocking_move_spec (s : GameBoard) :
  board_wf s →
  ∃ r, find_blocking_move s = Ok (r, s) ∧
       match r with
       | Some (action, x, y) =>
           action = (if bool_decide (0 < ai_blocks_remaining s)
                     then Block else Place) ∧
           in_bounds s x y = true ∧
           cell_at (board s) x y = Empty ∧
           wins (with_cell x y PlayerX s) x y = Ok true ∧
           ∃ pre post,
             grid_cells s = pre ++ (x, y) :: post ∧
             ∀ x' y', (x', y') ∈ pre → cell_at (board s) x' y' = Empty →
                      wins (with_cell x' y' PlayerX s) x' y' = Ok false
       | None =>
           ∀ x y, in_bounds s x y = true → cell_at (board s) x y = Empty →
                  wins (with_cell x y PlayerX s) x y = Ok false
       end.
Proof.
  intros Hwf. unfold find_blocking_move.
  destruct (find_completing_cell_grid PlayerX s Hwf) as (r & -> & Hspec).
  destruct r as [[x y]|]; [|by exists None].
  exists (Some (if bool_decide (0 < ai_blocks_remaining s)
                then Block else Place, x, y)).
  split; [by destruct (bool_decide (0 < ai_blocks_remaining s))|].
  by split.
Qed.

Lemma board_wf_threat : board_wf board_threat.
Proof. split; [reflexivity|repeat constructor]. Qed.

Lemma board_wf_chance : board_wf board_chance.
Proof. split; [reflexivity|repeat constructor]. Qed.

Lemma find_blocking_move_spec_witness :
  board_wf board_threat ∧
  find_blocking_move board_threat = Ok (Some (Block, 5, 1), board_threat) ∧
  wins (with_cell 5 1 PlayerX board_threat) 5 1 = Ok true.
Proof.
  split; [exact board_wf_threat|].
  destruct (find_blocking_move_spec board_threat board_wf_threat)
    as (r & Hfind & Hspec).
  assert (find_blocking_move board_threat
          = Ok (Some (Block, 5, 1), board_threat)) as Heq
    by (vm_compute; reflexivity).
  split; [exact Heq|].
  rewrite Heq in Hfind. injection Hfind as <-.
  exact (proj1 (proj2 (proj2 (proj2 Hspec)))).
Defined.

(** ** The engine's turn *)

(** The Place of [ai_move] on a valid cell: [place_piece] without the
    switch of the turn, then [check_win] once more on the cell. *)
Lemma place_then_check (x y : Z) (s : GameBoard) :
  board_wf s → game_over s = false → is_valid_move s x y = true →
  ∃ w s1 s2,
    wins (with_cell x y (piece (turn s)) s) x y = Ok w ∧
    place_piece x y false "normal" s = Ok (Some (true, w), s1) ∧
    check_win x y true s1 = Ok (w, s2) ∧
    s2 = set_winning_sequence (winning_sequence s2)
           (set_turn_count (turn_count s + 1)
              (set_game_over w
                 (set_last_move (Some (x, y))
                    (with_cell x y (piece (turn s)) s)))) ∧
    (w = false →
     s2 = set_turn_count (turn_count s + 1)
            (set_last_move (Some (x, y))
               (with_cell x y (piece (turn s)) s))).
Proof.
  intros Hwf Hgo Hvalid.
  destruct (place_piece_normal_valid x y false s Hwf Hgo Hvalid)
    as (w & s1 & Hcw & Hpp).
  fold (with_cell x y (piece (turn s)) s) in Hcw.
  set (s0 := with_cell x y (piece (turn s)) s) in *.
  pose proof (check_win_wins _ _ _ _ _ _ Hcw) as Hw0.
  assert (wins s0 x y = Ok w) as Hw.
  { rewrite <- Hw0. by apply wins_ext. }
  pose proof (check_win_frame _ _ _ _ _ _ Hcw) as Hs1.
  set (s1' := set_turn_count (turn_count s + 1)
                (if w then set_game_over true s1 else s1)) in *.
  assert (wins s1' x y = Ok w) as Hw1.
  { rewrite <- Hw. apply wins_ext; unfold s1'; rewrite Hs1;
      by destruct w. }
  destruct (wins_check_win x y true s1' w Hw1) as [s2 Hcw2].
  exists w, s1', s2. split; [done|]. split; [done|]. split; [done|].
  split.
  - pose proof (check_win_frame _ _ _ _ _ _ Hcw2) as Hs2.
    rewrite Hs2 at 1. unfold s1'. rewrite Hs1.
    unfold s0, with_cell.
    destruct s as [sz tg bd tr lm go ub ab up ap ws lr tc].
    cbn [game_over] in Hgo. subst go. by destruct w.
  - intros ->.
    apply check_win_false_state in Hcw2 as ->.
    apply check_win_false_state in Hcw as ->.
    reflexivity.
Qed.

(** X17. When it is the engine's turn, the game is not over and some
    Empty cell completes a line of ['O'], [ai_move] places an ['O'] on
    such a cell and reports the win: nothing else changes on the grid,
    [game_over] is set, the turn stays with the engine and [turn_count]
    grows by one.  The search is not consulted: the result does not depend
    on the depth or on the order of the candidate moves. *)
Theorem ai_move_takes_win (list_of_set : list Move → list Move)
    (depth_minus_1 : nat) (s : GameBoard) :
  board_wf s → game_over s = false → turn s = TurnO →
  (∃ x0 y0, in_bounds s x0 y0 = true ∧ cell_at (board s) x0 y0 = Empty ∧
            wins (with_cell x0 y0 PlayerO s) x0 y0 = Ok true) →
  ∃ x y s',
    ai_move list_of_set depth_minus_1 s
      = Ok (Some (Place, x, y), Elapsed, true, s') ∧
    in_bounds s x y = true ∧ cell_at (board s) x y = Empty ∧
    wins (with_cell x y PlayerO s) x y = Ok true ∧
    s' = set_winning_sequence (winning_sequence s')
           (set_turn_count (turn_count s + 1)
              (set_game_over true
                 (set_last_move (Some (x, y))
                    (with_cell x y PlayerO s)))).
Proof.
  intros Hwf Hgo Hturn (x0 & y0 & Hin0 & He0 & Hw0).
  destruct (find_completing_cell_grid PlayerO s Hwf) as (r & Hfind & Hspec).
  destruct r as [[x y]|]; cycle 1.
  { rewrite (Hspec x0 y0 Hin0 He0) in Hw0. discriminate Hw0. }
  destruct Hspec as (Hin & He & Hw & _).
  assert (is_valid_move s x y = true) as Hvalid.
  { unfold is_valid_move. rewrite Hin. by apply bool_decide_eq_true_2. }
  destruct (place_then_check x y s Hwf Hgo Hvalid)
    as (w & s1 & s2 & Hw' & Hpp & Hcw & Hs2 & _).
  rewrite Hturn in Hw', Hs2. cbn [piece] in Hw', Hs2.
  assert (w = true) as -> by congruence.
  exists x, y, s2. split; [|done].
  unfold ai_move, choose_move, find_winning_move.
  rewrite Hgo, Hfind, Hpp, Hcw. done.
Qed.

Lemma ai_move_takes_win_witness :
  ∃ s',
    ai_move first_seen_order 2 board_chance
      = Ok (Some (Place, 6, 2), Elapsed, true, s') ∧
    cell_at (board s') 6 2 = PlayerO ∧ game_over s' = true ∧
    turn s' = TurnO.
Proof.
  destruct (ai_move_takes_win first_seen_order 2 board_chance
              board_wf_chance eq_refl eq_refl)
    as (x & y & s' & Hmove & _ & _ & _ & Hs').
  { exists 6, 2. by vm_compute. }
  assert (∃ t, ai_move first_seen_order 2 board_chance
               = Ok (Some (Place, 6, 2), Elapsed, true, t)) as [t Ht]
    by (eexists; vm_compute; reflexivity).
  rewrite Ht in Hmove.
  assert (x = 6 ∧ y = 2 ∧ t = s') as (-> & -> & ->)
    by (split_and!; congruence).
  exists s'. split; [exact Ht|].
  rewrite Hs'. split_and!; reflexivity.
Defined.

(** X18. When it is the engine's turn, the game is not over, no Empty cell
    completes a line of ['O'] and some Empty cell completes a line of
    ['X'], [ai_move] answers on such a cell without consulting the
    search.  With a block left it blocks the cell: the block is spent, the
    turn stays with the engine and [turn_count] is unchanged.  Without a
    block it places an ['O'] there: the turn passes to the human and
    [turn_count] grows by one.  No win is reported either way. *)
Theorem ai_move_answers_threat (list_of_set : list Move → list Move)
    (depth_minus_1 : nat) (s : GameBoard) :
  board_wf s → game_over s = false → turn s = TurnO →
  (∀ x y, in_bounds s x y = true → cell_at (board s) x y = Empty →
          wins (with_cell x y PlayerO s) x y = Ok false) →
  (∃ x0 y0, in_bounds s x0 y0 = true ∧ cell_at (board s) x0 y0 = Empty ∧
            wins (with_cell x0 y0 PlayerX s) x0 y0 = Ok true) →
  ∃ x y,
    in_bounds s x y = true ∧ cell_at (board s) x y = Empty ∧
    wins (with_cell x y PlayerX s) x y = Ok true ∧
    if bool_decide (0 < ai_blocks_remaining s) then
      ai_move list_of_set depth_minus_1 s
      = Ok (Some (Block, x, y), Elapsed, false,
            set_ai_blocks_remaining (ai_blocks_remaining s - 1)
              (set_last_move (Some (x, y)) (with_cell x y Blocked s)))
    else
      ai_move list_of_set depth_minus_1 s
      = Ok (Some (Place, x, y), Elapsed, false,
            set_turn TurnX
              (set_turn_count (turn_count s + 1)
                 (set_last_move (Some (x, y)) (with_cell x y PlayerO s)))).
Proof.
  intros Hwf Hgo Hturn Hnowin (x0 & y0 & Hin0 & He0 & Hw0).
  destruct (find_completing_cell_grid PlayerO s Hwf) as (r & Hfind & Hspec).
  destruct r as [[x y]|].
  { destruct Hspec as (Hin & He & Hw & _).
    rewrite (Hnowin x y Hin He) in Hw. discriminate Hw. }
  clear Hspec.
  destruct (find_completing_cell_grid PlayerX s Hwf)
    as (r & Hfindb & Hspec).
  destruct r as [[x y]|]; cycle 1.
  { rewrite (Hspec x0 y0 Hin0 He0) in Hw0. discriminate Hw0. }
  destruct Hspec as (Hin & He & Hw & _).
  assert (is_valid_move s x y = true) as Hvalid.
  { unfold is_valid_move. rewrite Hin. by apply bool_decide_eq_true_2. }
  exists x, y. split; [done|]. split; [done|]. split; [done|].
  unfold ai_move, choose_move, find_winning_move, find_blocking_move.
  rewrite Hgo, Hfind, Hfindb.
  destruct (bool_decide (0 < ai_blocks_remaining s)).
  - unfold block_tile, place_piece, is_valid_block.
    rewrite Hgo, Hvalid. cbn [String.eqb Ascii.eqb Bool.eqb]. cbv zeta.
    unfold with_cell. clear -Hturn.
    destruct s as [sz tg bd tr lm go ub ab up ap ws lr tc].
    cbn [turn] in Hturn. subst tr. reflexivity.
  - destruct (place_then_check x y s Hwf Hgo Hvalid)
      as (w & s1 & s2 & Hw' & Hpp & Hcw & _ & Hs2).
    rewrite Hturn in Hw', Hs2. cbn [piece] in Hw', Hs2.
    assert (w = false) as -> by (specialize (Hnowin x y Hin He); congruence).
    rewrite Hpp, Hcw. by rewrite (Hs2 eq_refl).
Qed.

Lemma ai_move_answers_threat_witness :
  ai_move first_seen_order 2 board_threat
  = Ok (Some (Block, 5, 1), Elapsed, false,
        set_ai_blocks_remaining 0
          (set_last_move (Some (5, 1)) (with_cell 5 1 Blocked board_threat))).
Proof.
  destruct (ai_move_answers_threat first_seen_order 2 board_threat
              board_wf_threat eq_refl eq_refl)
    as (x & y & _ & _ & _ & Hmove).
  - intros x y Hin He.
    assert (forallb (λ c, match wins (with_cell c.1 c.2 PlayerO
                                        board_threat) c.1 c.2 with
                          | Ok false => true
                          | _ => false
                          end)
              (grid_cells board_threat) = true) as Hall
      by (vm_compute; reflexivity).
    rewrite forallb_forall in Hall.
    apply elem_of_grid_cells, list_elem_of_In in Hin.
    specialize (Hall (x, y) Hin). cbn [fst snd] in Hall.
    by destruct (wins (with_cell x y PlayerO board_threat) x y) as [[|]|].
  - exists 5, 1. by vm_compute.
  - change (bool_decide (0 < ai_blocks_remaining board_threat))
      with true in Hmove. cbv iota in Hmove.
    assert (∃ t, ai_move first_seen_order 2 board_threat
                 = Ok (Some (Block, 5, 1), Elapsed, false, t)) as [t Ht]
      by (eexists; vm_compute; reflexivity).
    rewrite Ht in Hmove.
    assert (x = 5 ∧ y = 1) as [-> ->] by (split; congruence).
    rewrite Ht. exact Hmove.
Defined.

Lemma ai_move_decision_off_grid (list_of_set : list Move → list Move)
    (depth_minus_1 : nat) (s : GameBoard) (best : option Move)
    (s' : GameBoard) :
  ai_move_decision list_of_set depth_minus_1 s = Ok (best, s') →
  same_off_grid s s' ∧ same_shape (board s) (board s').
Proof.
  intros Hdec. unfold ai_move_decision in Hdec.
  by apply (decision_loop_choice (minimax list_of_set depth_minus_1) s
              (get_valid_moves list_of_set true true s)
              (minimax_off_grid list_of_set depth_minus_1) _ (λ m Hm, Hm)
              NegInf None s best s').
Qed.

Lemma choose_move_off_grid (list_of_set : list Move → list Move)
    (depth_minus_1 : nat) (s : GameBoard) (m : option Move)
    (s' : GameBoard) :
  choose_move list_of_set depth_minus_1 s = Ok (m, s') →
  same_off_grid s s' ∧ same_shape (board s) (board s').
Proof.
  unfold choose_move, find_winning_move, find_blocking_move.
  destruct (find_completing_cell PlayerO (grid_cells s) s)
    as [[r s1]|] eqn:Hwin; [|done].
  apply find_completing_cell_state in Hwin as ->.
  destruct r as [[x y]|]; [by intros [= _ <-]|].
  destruct (find_completing_cell PlayerX (grid_cells s) s)
    as [[r s1]|] eqn:Hblock; [|done].
  apply find_completing_cell_state in Hblock as ->.
  destruct r as [[x y]|]; [|apply ai_move_decision_off_grid].
  by destruct (bool_decide (0 < ai_blocks_remaining s)); intros [= _ <-].
Qed.

Lemma same_off_grid_fields (s s' : GameBoard) :
  same_off_grid s s' →
  size s' = size s ∧ target s' = target s ∧ turn s' = turn s ∧
  game_over s' = game_over s ∧ turn_count s' = turn_count s ∧
  user_blocks_remaining s' = user_blocks_remaining s ∧
  ai_blocks_remaining s' = ai_blocks_remaining s ∧
  user_power_moves_remaining s' = user_power_moves_remaining s ∧
  ai_power_moves_remaining s' = ai_power_moves_remaining s.
Proof. intros ->%same_off_grid_eq. by destruct s. Qed.

(** [place_piece] switches the turn only in its normal mode, and there
    only when asked to. *)
Lemma place_piece_keeps_turn (x y : Z) (switch_turn : bool)
    (move_type : string) (s : GameBoard) (r : option (bool * bool))
    (s' : GameBoard) :
  switch_turn = false ∨ move_type = "block"%string →
  place_piece x y switch_turn move_type s = Ok (r, s') →
  turn s' = turn s.
Proof.
  intros Hmode. unfold place_piece.
  destruct (game_over s); [by intros [= _ <-]|].
  destruct (String.eqb move_type "normal") eqn:Hnormal.
  - assert (switch_turn = false) as ->.
    { destruct Hmode as [->| ->]; [done|discriminate Hnormal]. }
    destruct (is_valid_move s x y); [|by intros [= _ <-]].
    cbv zeta.
    destruct (check_win x y true _) as [[w s1]|] eqn:Hcw; [|done].
    intros [= _ <-].
    rewrite (check_win_frame _ _ _ _ _ _ Hcw). clear Hcw.
    by destruct w, s.
  - destruct (String.eqb move_type "block"); [|by intros [= _ <-]].
    destruct (is_valid_block s x y); [|by intros [= _ <-]].
    cbv zeta. intros [= _ <-]. by destruct s as [? ? ? [|]].
Qed.

(** What [place_piece] costs the engine on its own turn. *)
Lemma place_piece_engine_counters (x y : Z) (switch_turn : bool)
    (move_type : string) (s : GameBoard) (r : option (bool * bool))
    (s' : GameBoard) :
  turn s = TurnO →
  place_piece x y switch_turn move_type s = Ok (r, s') →
  user_blocks_remaining s' = user_blocks_remaining s ∧
  user_power_moves_remaining s' = user_power_moves_remaining s ∧
  counters_step s s'.
Proof.
  intros Hturn. unfold place_piece, counters_step.
  destruct (game_over s); [intros [= _ <-]; tauto|].
  destruct (String.eqb move_type "normal").
  - destruct (is_valid_move s x y); [|intros [= _ <-]; tauto].
    cbv zeta.
    destruct (check_win x y true _) as [[w s1]|] eqn:Hcw; [|done].
    intros [= _ <-].
    rewrite (check_win_frame _ _ _ _ _ _ Hcw). clear Hcw.
    split; [by destruct w, switch_turn, s|].
    split; [by destruct w, switch_turn, s|].
    left. by destruct w, switch_turn, s.
  - destruct (String.eqb move_type "block"); [|intros [= _ <-]; tauto].
    destruct (is_valid_block s x y); [|intros [= _ <-]; tauto].
    cbv zeta. intros [= _ <-].
    destruct s as [sz tg bd tr lm go ub ab up ap ws lr tc].
    cbn [turn] in Hturn. subst tr.
    split; [done|]. split; [done|]. right. right. by left.
Qed.

(** What [remove_tile] costs the engine on its own turn. *)
Lemma remove_tile_engine_counters (x y : Z) (switch_turn : bool)
    (s : GameBoard) :
  turn s = TurnO →
  user_blocks_remaining (remove_tile x y switch_turn s).2
    = user_blocks_remaining s ∧
  user_power_moves_remaining (remove_tile x y switch_turn s).2
    = user_power_moves_remaining s ∧
  counters_step s (remove_tile x y switch_turn s).2.
Proof.
  intros Hturn. unfold remove_tile, counters_step.
  destruct (is_valid_remove s x y); [|cbn [snd]; tauto].
  cbv zeta. cbn [snd].
  destruct s as [sz tg bd tr lm go ub ab up ap ws lr tc].
  cbn [turn] in Hturn. subst tr.
  split; [by destruct switch_turn|]. split; [by destruct switch_turn|].
  do 4 right. by destruct switch_turn.
Qed.

(** X19. Who moves after [ai_move], whatever way the move was chosen:
    after a Block the turn is unchanged (the engine moves again) and no
    win is reported; after a Remove the turn is the human's and no win is
    reported; after a Place the turn is the human's unless [check_win]
    answered [True], in which case it is unchanged.  A move is only
    returned with a clock reading, that is when the game was not over. *)
Theorem ai_move_turn_policy (list_of_set : list Move → list Move)
    (depth_minus_1 : nat) (s : GameBoard) (action : Action) (x y : Z)
    (runtime : Runtime) (win : bool) (s' : GameBoard) :
  ai_move list_of_set depth_minus_1 s
    = Ok (Some (action, x, y), runtime, win, s') →
  game_over s = false ∧ runtime = Elapsed ∧
  match action with
  | Place => turn s' = if win then turn s else TurnX
  | Block => turn s' = turn s ∧ win = false
  | Remove => turn s' = TurnX ∧ win = false
  end.
Proof.
  unfold ai_move. destruct (game_over s); [done|].
  destruct (choose_move list_of_set depth_minus_1 s)
    as [[m s1]|] eqn:Hchoose; [|done].
  apply choose_move_off_grid in Hchoose as [Hoff _].
  apply same_off_grid_fields in Hoff as (_ & _ & Hturn & _).
  destruct m as [[[a mx] my]|]; [|done].
  destruct a.
  - destruct (place_piece mx my false "normal" s1)
      as [[r s2]|] eqn:Hpp; [|done].
    apply place_piece_keeps_turn in Hpp; [|by left].
    destruct (check_win mx my true s2) as [[w s3]|] eqn:Hcw; [|done].
    apply check_win_frame in Hcw.
    assert (turn s3 = turn s) as Hturn3.
    { rewrite Hcw, <- Hturn, <- Hpp. by destruct s2. }
    destruct w; intros [= <- <- <- <- <- <-]; [done|].
    split; [done|]. split; [done|]. by destruct s3.
  - destruct (block_tile mx my s1) as [[r s2]|] eqn:Hblock; [|done].
    apply place_piece_keeps_turn in Hblock; [|by right].
    intros [= <- <- <- <- <- <-]. by rewrite Hblock.
  - destruct (remove_tile mx my false s1) as [ok s2].
    intros [= <- <- <- <- <- <-].
    split; [done|]. split; [done|]. by destruct s2.
Qed.

Lemma ai_move_turn_policy_witness :
  ∃ action x y win s',
    ai_move first_seen_order 1 board_opening
      = Ok (Some (action, x, y), Elapsed, win, s') ∧
    match action with
    | Place => turn s' = if win then turn board_opening else TurnX
    | Block => turn s' = turn board_opening ∧ win = false
    | Remove => turn s' = TurnX ∧ win = false
    end.
Proof.
  eassert (ai_move first_seen_order 1 board_opening
           = Ok (Some (_, _, _), Elapsed, _, _)) as Hmove
    by (vm_compute; reflexivity).
  do 5 eexists. split; [exact Hmove|].
  exact (proj2 (proj2 (ai_move_turn_policy _ _ _ _ _ _ _ _ _ Hmove))).
Defined.

(** X20. On the engine's turn [ai_move] keeps the board well formed, with
    [size] and [target] unchanged, never touches the human's counters, and
    leaves the engine's two counters as they were or takes one from
    exactly one of them, whatever way the move was chosen. *)
Theorem ai_move_keeps_board_and_counters
    (list_of_set : list Move → list Move) (depth_minus_1 : nat)
    (s : GameBoard) (move : option Move) (runtime : Runtime) (win : bool)
    (s' : GameBoard) :
  board_wf s → turn s = TurnO →
  ai_move list_of_set depth_minus_1 s = Ok (move, runtime, win, s') →
  board_wf s' ∧ size s' = size s ∧ target s' = target s ∧
  user_blocks_remaining s' = user_blocks_remaining s ∧
  user_power_moves_remaining s' = user_power_moves_remaining s ∧
  counters_step s s'.
Proof.
  intros Hwf Hturn. unfold ai_move.
  assert (counters_step s s) as Hsame by (by left).
  destruct (game_over s); [by intros [= _ _ _ <-]|].
  destruct (choose_move list_of_set depth_minus_1 s)
    as [[m s1]|] eqn:Hchoose; [|done].
  apply choose_move_off_grid in Hchoose as [Hoff Hshape].
  apply same_off_grid_fields in Hoff
    as (Hsize & Htarget & Hturn1 & _ & _ & Hub & Hab & Hup & Hap).
  assert (board_wf s1) as Hwf1 by (by apply (same_shape_wf s s1)).
  rewrite Hturn in Hturn1.
  assert (∀ t, board_wf t → size t = size s1 → target t = target s1 →
               user_blocks_remaining t = user_blocks_remaining s1 →
               user_power_moves_remaining t
               = user_power_moves_remaining s1 →
               counters_step s1 t →
               board_wf t ∧ size t = size s ∧ target t = target s ∧
               user_blocks_remaining t = user_blocks_remaining s ∧
               user_power_moves_remaining t
               = user_power_moves_remaining s ∧
               counters_step s t) as Hfin.
  { intros t Hwft Hsz Htg Hubt Hupt Hstep.
    unfold counters_step in *.
    rewrite Hub, Hab, Hup, Hap in Hstep.
    split; [done|]. split; [congruence|]. split; [congruence|].
    split; [congruence|]. split; [congruence|]. done. }
  destruct m as [[[a mx] my]|]; cycle 1.
  { intros [= _ _ _ <-]. apply Hfin; try done. by left. }
  destruct a.
  - destruct (place_piece mx my false "normal" s1)
      as [[r s2]|] eqn:Hpp; [|done].
    destruct (place_piece_engine_counters _ _ _ _ _ _ _ Hturn1 Hpp)
      as (Hub2 & Hup2 & Hstep2).
    destruct (place_piece_board _ _ _ _ _ _ _ Hwf1 Hpp)
      as (Hsize2 & Htarget2 & Hb).
    assert (board_wf s2) as Hwf2.
    { destruct Hb as [Hb | [_ [Hb | Hb]]].
      - by apply (board_wf_ext s1 s2).
      - apply (board_wf_ext (with_cell mx my (piece (turn s1)) s1) s2);
          [done..|by apply with_cell_wf].
      - apply (board_wf_ext (with_cell mx my Blocked s1) s2);
          [done..|by apply with_cell_wf]. }
    destruct (check_win mx my true s2) as [[w s3]|] eqn:Hcw; [|done].
    apply check_win_frame in Hcw.
    assert (board_wf (set_turn TurnX s3) ∧ board_wf s3 ∧
            size s3 = size s1 ∧ target s3 = target s1 ∧
            user_blocks_remaining s3 = user_blocks_remaining s1 ∧
            user_power_moves_remaining s3
            = user_power_moves_remaining s1 ∧
            counters_step s1 s3) as (Hwfx & Hwf3 & Hs3).
    { rewrite Hcw. clear Hcw.
      split; [by apply (board_wf_ext s2); [destruct s2..|]|].
      split; [by apply (board_wf_ext s2); [destruct s2..|]|].
      unfold counters_step in *. by destruct s2. }
    destruct Hs3 as (Hsize3 & Htarget3 & Hub3 & Hup3 & Hstep3).
    destruct w; intros [= _ _ _ <-]; [by apply Hfin|].
    apply Hfin; [done|by destruct s3..].
  - destruct (block_tile mx my s1) as [[r s2]|] eqn:Hblock; [|done].
    unfold block_tile in Hblock.
    destruct (place_piece_engine_counters _ _ _ _ _ _ _ Hturn1 Hblock)
      as (Hub2 & Hup2 & Hstep2).
    destruct (place_piece_board _ _ _ _ _ _ _ Hwf1 Hblock)
      as (Hsize2 & Htarget2 & Hb).
    intros [= _ _ _ <-]. apply Hfin; try done.
    destruct Hb as [Hb | [_ [Hb | Hb]]].
    + by apply (board_wf_ext s1 s2).
    + apply (board_wf_ext (with_cell mx my (piece (turn s1)) s1) s2);
        [done..|by apply with_cell_wf].
    + apply (board_wf_ext (with_cell mx my Blocked s1) s2);
        [done..|by apply with_cell_wf].
  - destruct (remove_tile_engine_counters mx my false s1 Hturn1)
      as (Hub2 & Hup2 & Hstep2).
    destruct (remove_tile_size_target mx my false s1)
      as [Hsize2 Htarget2].
    pose proof (remove_tile_board mx my false s1) as Hboard.
    destruct (remove_tile mx my false s1) as [ok s2].
    cbn [snd] in *.
    intros [= _ _ _ <-].
    apply Hfin; [|done|done|done|done|].
    + destruct (is_valid_remove s1 mx my).
      * apply (board_wf_ext (with_cell mx my Empty s1)); [done..|].
        by apply with_cell_wf.
      * by apply (board_wf_ext s1).
    + unfold counters_step in *. by destruct s2.
Qed.

Lemma ai_move_keeps_board_and_counters_witness :
  ∃ move win s',
    ai_move first_seen_order 1 board_opening
      = Ok (move, Elapsed, win, s') ∧
    board_wf s' ∧ counters_step board_opening s'.
Proof.
  eassert (ai_move first_seen_order 1 board_opening
           = Ok (_, Elapsed, _, _)) as Hmove
    by (vm_compute; reflexivity).
  do 3 eexists. split; [exact Hmove|].
  destruct (ai_move_keeps_board_and_counters _ _ _ _ _ _ _
              board_wf_opening eq_refl Hmove)
    as (Hwf & _ & _ & _ & _ & Hstep).
  split; [exact Hwf|exact Hstep].
Defined.
